(** * BnpC driver ([run_BnpC.py]): command-line boundary and model set-up

    A shallow embedding of [parse_args], [generate_output] and [main] of
    [run_BnpC.py].

    - Python floats are IEEE binary64 values, modelled with the Rocq
      specification of floating-point numbers ([spec_float], precision 53,
      maximal exponent 1024), so NaN and the infinities are present.
    - Python's dynamically typed values are a tagged union ([value]).
    - [argparse.Namespace] is a finite map from attribute names to values.
    - Exceptions and [SystemExit] are an error monad ([result]).
    - The command line is taken as [argparse] splits it, into positional
      strings and option occurrences with their argument strings; how
      [argparse] recognises an option string (abbreviations, [--opt=value])
      is its own business and is not modelled.
    - What [main] gets from the file system, the clock and [libs.dpmmIO]
      is a parameter ([World]).  The calls [CRP(...)], [MCMC(...)] and
      [mcmc.run(...)] into [libs] are recorded with their arguments:
      [main] is the function up to [mcmc.run], [after_run] the rest of it.
    - [generate_output] and [after_run] call into [libs] to show and to
      write; the calls are recorded in their order ([Eff]), and what they
      return or raise is a parameter ([Libs]). *)

From Stdlib Require Import ZArith Lia Bool List Ascii String.
From Stdlib Require Import Floats.SpecFloat.
From stdpp Require Import base option list strings gmap.

Local Open Scope string_scope.
Local Open Scope Z_scope.

(* ===================================================================== *)
(** * Binary64 arithmetic *)
(* ===================================================================== *)

Module F64.

Definition prec : Z := 53.
Definition emax : Z := 1024.

Definition nan : spec_float := S754_nan.
Definition inf (neg : bool) : spec_float := S754_infinity neg.

(** Correctly rounded conversion of an integer ([float(n)]). *)
Definition of_Z (z : Z) : spec_float := binary_normalize prec emax z 0 false.

Definition div : spec_float → spec_float → spec_float := SFdiv prec emax.
Definition sub : spec_float → spec_float → spec_float := SFsub prec emax.
Definition sqrt : spec_float → spec_float := SFsqrt prec emax.

Definition compare : spec_float → spec_float → option comparison := SFcompare.

(** [math.isfinite] / [np.isfinite] on one entry. *)
Definition isfinite (x : spec_float) : bool :=
  match x with
  | S754_zero _ | S754_finite _ _ _ => true
  | S754_infinity _ | S754_nan => false
  end.

(** Correctly rounded value of [(-1)^s * m * 10^e10], for [m > 0]. *)
Definition of_decimal (s : bool) (m : positive) (e10 : Z) : spec_float :=
  match e10 with
  | Zneg k =>
      div (S754_finite s m 0) (S754_finite false (Pos.pow 10 k) 0)
  | _ => binary_normalize prec emax
           ((if s then Z.neg m else Z.pos m) * 10 ^ e10) 0 false
  end.

End F64.

(* ===================================================================== *)
(** * Python builtins: [float(str)] and [int(str)] *)
(* ===================================================================== *)

Module PyStr.

Definition is_space (c : ascii) : bool :=
  let n := nat_of_ascii c in
  (Nat.eqb n 32 || (Nat.leb 9 n && Nat.leb n 13))%bool.

Definition digit_val (c : ascii) : option Z :=
  let n := nat_of_ascii c in
  if (Nat.leb 48 n && Nat.leb n 57)%bool then Some (Z.of_nat (n - 48)) else None.

Definition lower (c : ascii) : ascii :=
  let n := nat_of_ascii c in
  if (Nat.leb 65 n && Nat.leb n 90)%bool then ascii_of_nat (n + 32) else c.

Fixpoint lstrip (l : list ascii) : list ascii :=
  match l with
  | c :: l' => if is_space c then lstrip l' else l
  | [] => []
  end.

Definition strip (l : list ascii) : list ascii :=
  rev (lstrip (rev (lstrip l))).

(** A digit part [digit ("_"? digit)*]: accumulated value, number of
    digits read, remaining input. *)
Fixpoint read_digits (acc : Z) (n : nat) (l : list ascii) : Z * nat * list ascii :=
  match l with
  | c :: l' =>
      match digit_val c with
      | Some d => read_digits (10 * acc + d) (S n) l'
      | None =>
          if (Ascii.eqb c "_" && negb (Nat.eqb n 0))%bool then
            match l' with
            | c2 :: _ =>
                if is_Some_dec (digit_val c2) then read_digits acc n l'
                else (acc, n, l)
            | [] => (acc, n, l)
            end
          else (acc, n, l)
      end
  | [] => (acc, n, l)
  end.

Definition read_sign (l : list ascii) : bool * list ascii :=
  match l with
  | "-"%char :: l' => (true, l')
  | "+"%char :: l' => (false, l')
  | _ => (false, l)
  end.

(** Optional exponent part; [None] when what follows is not a valid
    exponent or is followed by anything else. *)
Definition read_exponent (l : list ascii) : option Z :=
  match l with
  | [] => Some 0
  | c :: l' =>
      if Ascii.eqb (lower c) "e" then
        let '(s, l1) := read_sign l' in
        match read_digits 0 0 l1 with
        | (_, O, _) => None
        | (e, _, []) => Some (if s then - e else e)
        | _ => None
        end
      else None
  end.

Definition read_number (s : bool) (l : list ascii) : option spec_float :=
  let '(ip, ni, l1) := read_digits 0 0 l in
  let '(m, nf, l2) :=
    match l1 with
    | "."%char :: l1' => read_digits ip 0 l1'
    | _ => (ip, O, l1)
    end in
  if Nat.eqb (ni + nf) 0 then None
  else
    match read_exponent l2 with
    | None => None
    | Some e =>
        Some match m with
             | Zpos p => F64.of_decimal s p (e - Z.of_nat nf)
             | _ => S754_zero s
             end
    end.

(** [float(s)] for a string [s]; [None] stands for [ValueError]. *)
Definition py_float (str : string) : option spec_float :=
  let '(s, l) := read_sign (strip (list_ascii_of_string str)) in
  let word := string_of_list_ascii (map lower l) in
  if String.eqb word "nan" then Some F64.nan
  else if (String.eqb word "inf" || String.eqb word "infinity")%bool
       then Some (F64.inf s)
  else read_number s l.

(** [int(s)] for a string [s]; [None] stands for [ValueError]. *)
Definition py_int (str : string) : option Z :=
  let '(s, l) := read_sign (strip (list_ascii_of_string str)) in
  match read_digits 0 0 l with
  | (_, O, _) => None
  | (n, _, []) => Some (if s then - n else n)
  | _ => None
  end.

End PyStr.

(* ===================================================================== *)
(** * Python values, exceptions and comparisons *)
(* ===================================================================== *)

#[warnings="-register-all"]
Inductive value : Type :=
| VNone
| VBool (b : bool)
| VInt (z : Z)
| VFloat (f : spec_float)
| VStr (s : string)
| VList (l : list value)
| VTuple (l : list value).

Inductive exn : Type :=
| SystemExit (code : Z)
| ArgumentTypeError
| ValueError
| TypeError
| KeyError (key : string)
| AttributeError (name : string)
| IndexError
| OSError.

Inductive result (A : Type) : Type :=
| Ret (a : A)
| Raise (e : exn).
Arguments Ret {A} a.
Arguments Raise {A} e.

#[global] Instance result_ret : MRet result := @Ret.
#[global] Instance result_bind : MBind result :=
  λ A B f m, match m with Ret a => f a | Raise e => Raise e end.
#[global] Instance result_fmap : FMap result :=
  λ A B f m, match m with Ret a => Ret (f a) | Raise e => Raise e end.

Definition returns {A} (m : result A) : bool :=
  match m with Ret _ => true | Raise _ => false end.

Definition of_option {A} (e : exn) (o : option A) : result A :=
  match o with Some a => Ret a | None => Raise e end.

(** Numbers as Python compares them: an [int] is compared with a [float]
    by value, without rounding the [int] first. *)
Inductive num : Type :=
| I (z : Z)
| F (f : spec_float).

Definition as_num (v : value) : option num :=
  match v with
  | VInt z => Some (I z)
  | VBool b => Some (I (if b then 1 else 0))
  | VFloat f => Some (F f)
  | _ => None
  end.

(** [z ? f], exact; [None] when [f] is NaN. *)
Definition compare_int_float (z : Z) (f : spec_float) : option comparison :=
  match f with
  | S754_nan => None
  | S754_infinity s => Some (if s then Gt else Lt)
  | S754_zero _ => Some (z ?= 0)
  | S754_finite s m e =>
      let v := if s then Z.neg m else Z.pos m in
      Some (if 0 <=? e then z ?= v * 2 ^ e else z * 2 ^ (- e) ?= v)
  end.

Definition num_compare (a b : num) : option comparison :=
  match a, b with
  | I x, I y => Some (x ?= y)
  | F x, F y => F64.compare x y
  | I x, F y => compare_int_float x y
  | F x, I y => CompOpp <$> compare_int_float y x
  end.

Definition lt (a b : num) : bool :=
  match num_compare a b with Some Lt => true | _ => false end.
Definition le (a b : num) : bool :=
  match num_compare a b with Some (Lt | Eq) => true | _ => false end.
Definition gt (a b : num) : bool := lt b a.
Definition ge (a b : num) : bool := le b a.

(** [a < b], [a >= b] on dynamically typed operands. *)
Definition py_lt (a b : value) : result bool :=
  match as_num a, as_num b with
  | Some x, Some y => Ret (lt x y)
  | _, _ => Raise TypeError
  end.
Definition py_ge (a b : value) : result bool :=
  match as_num a, as_num b with
  | Some x, Some y => Ret (ge x y)
  | _, _ => Raise TypeError
  end.

(** [v is truthy], for the values an [if] of this program tests. *)
Definition truthy (v : value) : bool :=
  match v with
  | VNone => false
  | VBool b => b
  | VInt z => negb (z =? 0)
  | VFloat f => match f with S754_zero _ => false | _ => true end
  | VStr s => negb (String.eqb s "")
  | VList l | VTuple l => match l with [] => false | _ => true end
  end.

Fixpoint value_eqb (a b : value) {struct a} : bool :=
  let fix all2 (l : list value) (k : list value) {struct l} : bool :=
    match l, k with
    | [], [] => true
    | x :: l', y :: k' => value_eqb x y && all2 l' k'
    | _, _ => false
    end in
  match a, b with
  | VNone, VNone => true
  | VStr s, VStr t => String.eqb s t
  | VList l, VList k | VTuple l, VTuple k => all2 l k
  | _, _ =>
      match as_num a, as_num b with
      | Some x, Some y => match num_compare x y with Some Eq => true | _ => false end
      | _, _ => false
      end
  end.

Definition float_lit (s : string) : spec_float :=
  default F64.nan (PyStr.py_float s).

(* ===================================================================== *)
(** * [parse_args] *)
(* ===================================================================== *)

Module Argparse.

(** ** The three validators defined inside [parse_args] *)

Definition float_ (val : string) : result spec_float :=
  of_option ValueError (PyStr.py_float val).

Definition check_ratio (val : string) : result value :=
  val ← float_ val;
  if le (F val) (I 0) || ge (F val) (I 1) then Raise ArgumentTypeError
  else Ret (VFloat val).

Definition check_percent (val : string) : result value :=
  val ← float_ val;
  if lt (F val) (I 0) || gt (F val) (I 1) then Raise ArgumentTypeError
  else Ret (VFloat val).

Definition check_PSRF_cutoff (val : string) : result value :=
  val ← float_ val;
  if lt (F val) (I 1) || gt (F val) (F (float_lit "1.5")) then Raise ArgumentTypeError
  else Ret (VFloat val).

(** ** Builtin converters used as [type=] *)

Definition str (val : string) : result value := Ret (VStr val).
Definition int (val : string) : result value :=
  VInt <$> of_option ValueError (PyStr.py_int val).
Definition float (val : string) : result value := VFloat <$> float_ val.

(** ** The declarations

    One [Argument] per [add_argument] call. *)

Inductive action : Type :=
| store | store_true | store_false | version | help.

Inductive nargs : Type :=
| one                 (* nargs not given: a single value *)
| exactly (n : nat)   (* nargs=n: a list of n values *)
| one_or_more.        (* nargs='+' *)

Record Argument : Type := mkArg {
  flags : list string;            (* [] for a positional *)
  dest : string;
  act : action;
  type : string → result value;
  arity : nargs;
  default : option value;         (* None: no attribute is created *)
  choices : option (list value);
  required : bool
}.

Definition add_argument (flags : list string) (dest : string)
    (type : string → result value) (arity : nargs) (default : value)
    (choices : option (list value)) : Argument :=
  mkArg flags dest store type arity (Some default) choices false.

Definition add_flag (flags : list string) (dest : string) (a : action) : Argument :=
  mkArg flags dest a str one
    (match a with
     | store_true => Some (VBool false)
     | store_false => Some (VBool true)
     | _ => None
     end) None false.

Definition fl (s : string) : value := VFloat (float_lit s).

Definition parser : list Argument := [
  add_flag ["-h"; "--help"] "help" help;
  add_flag ["--version"] "version" version;
  mkArg [] "input" store str one (Some VNone) None true;
  add_flag ["-t"; "--transpose"] "transpose" store_false;
  add_flag ["--debug"] "debug" store_true;
  add_argument ["--ctypes"] "ctypes" str one VNone None;
  add_argument ["--scDNA"] "scDNA" str one VNone None;
  (* model *)
  add_argument ["-FN"; "--falseNegative"] "falseNegative" float one (VInt (-1)) None;
  add_argument ["-FP"; "--falsePositive"] "falsePositive" float one (VInt (-1)) None;
  add_argument ["-FN_m"; "--falseNegative_mean"] "falseNegative_mean"
    check_ratio one (fl "0.2") None;
  add_argument ["-FN_sd"; "--falseNegative_std"] "falseNegative_std"
    check_ratio one (fl "0.1") None;
  add_argument ["-FP_m"; "--falsePositive_mean"] "falsePositive_mean"
    check_ratio one (fl "0.01") None;
  add_argument ["-FP_sd"; "--falsePositive_std"] "falsePositive_std"
    check_ratio one (fl "0.01") None;
  add_argument ["-ap"; "--DPa_prior"] "DPa_prior" float (exactly 2)
    (VList [VInt (-1); VInt (-1)]) None;
  add_argument ["-pp"; "--param_prior"] "param_prior" float (exactly 2)
    (VList [fl ".25"; fl ".25"]) None;
  add_argument ["-fa"; "--fixed_assignment"] "fixed_assignment" str one (VStr "") None;
  (* MCMC *)
  add_argument ["-n"; "--chains"] "chains" int one (VInt 1) None;
  add_argument ["-s"; "--steps"] "steps" int one (VInt 5000) None;
  add_argument ["-r"; "--runtime"] "runtime" int one (VInt (-1)) None;
  add_argument ["-ls"; "--lugsail"] "lugsail" check_PSRF_cutoff one (VInt (-1)) None;
  add_argument ["-b"; "--burn_in"] "burn_in" check_percent one (fl "0.33") None;
  add_argument ["-cup"; "--conc_update_prob"] "conc_update_prob"
    check_percent one (fl "0.25") None;
  add_argument ["-eup"; "--error_update_prob"] "error_update_prob"
    check_percent one (fl "0.25") None;
  add_argument ["-smp"; "--split_merge_prob"] "split_merge_prob"
    check_percent one (fl "0.33") None;
  add_argument ["-sms"; "--split_merge_steps"] "split_merge_steps" int one (VInt 3) None;
  add_argument ["-smr"; "--split_merge_ratios"] "split_merge_ratios"
    check_percent (exactly 2) (VList [fl "0.75"; fl "0.25"]) None;
  add_argument ["-e"; "--estimator"] "estimator" str one_or_more (VStr "posterior")
    (Some [VStr "posterior"; VStr "ML"; VStr "MAP"]);
  add_flag ["-sc"; "--single_chains"] "single_chains" store_true;
  add_argument ["--seed"] "seed" int one (VInt (-1)) None;
  (* output *)
  add_argument ["-o"; "--output"] "output" str one (VStr "") None;
  add_argument ["-v"; "--verbosity"] "verbosity" int one (VInt 1)
    (Some [VInt 0; VInt 1; VInt 2]);
  add_flag ["-np"; "--no_plots"] "no_plots" store_true;
  add_argument ["-tr"; "--tree"] "tree" str one (VStr "") None;
  add_argument ["-tc"; "--true_clusters"] "true_clusters" str one (VStr "") None;
  add_argument ["-td"; "--true_data"] "true_data" str one (VStr "") None
].

(** ** The command line

    The command line as [argparse] splits it: positional strings and
    option occurrences, each option string with the argument strings
    that follow it. *)

Inductive item : Type :=
| Pos (s : string)
| Opt (flag : string) (args : list string).

Record state : Type := mkState {
  ns : gmap string value;        (* the Namespace being filled *)
  seen : gset string;            (* dests of the actions taken so far *)
  extras : bool                  (* unrecognized arguments were met *)
}.

(** [parser.error]: usage message and exit status 2. *)
Definition error {A} : result A := Raise (SystemExit 2).

(** Namespace before parsing: every declared default, unconverted. *)
Definition defaults (p : list Argument) : gmap string value :=
  foldr (λ a m, match default a with
                | Some d => <[dest a := d]> m
                | None => m
                end) ∅ p.

Definition find_flag (p : list Argument) (f : string) : option Argument :=
  List.find (λ a, existsb (String.eqb f) (flags a)) p.

(** [_get_value]: the converter's [ArgumentTypeError], [TypeError] and
    [ValueError] become a parser error. *)
Definition get_value (a : Argument) (s : string) : result value :=
  match type a s with
  | Ret v => Ret v
  | Raise (ArgumentTypeError | TypeError | ValueError) => error
  | Raise e => Raise e
  end.

(** [_check_value]: a converted value outside [choices] is a parser
    error. *)
Definition check_value (a : Argument) (v : value) : result value :=
  match choices a with
  | Some cs => if existsb (value_eqb v) cs then Ret v else error
  | None => Ret v
  end.

Fixpoint get_values (a : Argument) (l : list string) : result (list value) :=
  match l with
  | [] => Ret []
  | s :: l' => v ← get_value a s; vs ← get_values a l'; Ret (v :: vs)
  end.

Fixpoint check_values (a : Argument) (l : list value) : result (list value) :=
  match l with
  | [] => Ret []
  | v :: l' => v ← check_value a v; vs ← check_values a l'; Ret (v :: vs)
  end.

(** [_get_values]: the value stored for a [store] action given its
    argument strings. *)
Definition stored (a : Argument) (args : list string) : result value :=
  match arity a, args with
  | one, [s] => v ← get_value a s; check_value a v
  | one, _ => error
  | exactly n, _ =>
      if Nat.eqb (length args) n
      then vs ← get_values a args; VList <$> check_values a vs
      else error
  | one_or_more, [] => error
  | one_or_more, _ => vs ← get_values a args; VList <$> check_values a vs
  end.

Definition take (a : Argument) (args : list string) (st : state) : result state :=
  let set v := mkState (<[dest a := v]> (ns st)) ({[dest a]} ∪ seen st) (extras st) in
  match act a with
  | help | version => Raise (SystemExit 0)
  | store_true => match args with [] => Ret (set (VBool true)) | _ => error end
  | store_false => match args with [] => Ret (set (VBool false)) | _ => error end
  | store => v ← stored a args; Ret (set v)
  end.

Definition step (p : list Argument) (st : state) (it : item) : result state :=
  match it with
  | Pos s =>
      match List.find (λ a, match flags a with
                            | [] => negb (bool_decide (dest a ∈ seen st))
                            | _ => false
                            end) p with
      | Some a => take a [s] st
      | None => Ret (mkState (ns st) (seen st) true)
      end
  | Opt f args =>
      match find_flag p f with
      | Some a => take a args st
      | None => Ret (mkState (ns st) (seen st) true)
      end
  end.

Fixpoint consume (p : list Argument) (st : state) (argv : list item) : result state :=
  match argv with
  | [] => Ret st
  | it :: argv' => st' ← step p st it; consume p st' argv'
  end.

(** After the last argument, for every action that was not taken: a
    required one is an error; a default that is a string is converted by
    the action's [type]; any other default stays as declared. *)
Fixpoint finish (p : list Argument) (st : state) (m : gmap string value)
    : result (gmap string value) :=
  match p with
  | [] => Ret m
  | a :: p' =>
      if bool_decide (dest a ∈ seen st) then finish p' st m
      else if required a then error
      else match default a with
           | Some (VStr s) => v ← get_value a s; finish p' st (<[dest a := v]> m)
           | _ => finish p' st m
           end
  end.

Definition parse (p : list Argument) (argv : list item) : result (gmap string value) :=
  st ← consume p (mkState (defaults p) ∅ false) argv;
  m ← finish p st (ns st);
  if extras st then error else Ret m.

End Argparse.

(** [parse_args()], with [sys.argv[1:]] as its parameter. *)
Definition parse_args (argv : list Argparse.item) : result (gmap string value) :=
  Argparse.parse Argparse.parser argv.

(* ===================================================================== *)
(** * The [pandas] and [numpy] operations [main] uses *)
(* ===================================================================== *)

Module Pandas.

Inductive cell : Type :=
| Str (s : string)
| Int (z : Z)
| NA.

Inductive dtype : Type :=
| object
| category (cats : list string).

(** A frame: column labels with their dtypes, and the rows, each with
    its index label. *)
Record DataFrame : Type := mkFrame {
  columns : list (string * dtype);
  rows : list (Z * list cell)
}.

Definition len (df : DataFrame) : nat := length (rows df).

Fixpoint position (name : string) (cols : list (string * dtype)) : option nat :=
  match cols with
  | [] => None
  | (c, _) :: cols' =>
      if String.eqb c name then Some O else S <$> position name cols'
  end.

Definition has_column (df : DataFrame) (name : string) : bool :=
  bool_decide (is_Some (position name (columns df))).

Definition at_ (j : nat) (r : Z * list cell) : cell := default NA (r.2 !! j).

(** [df[name]]: the column's values, row by row. *)
Definition getitem (df : DataFrame) (name : string) : result (list cell) :=
  match position name (columns df) with
  | Some j => Ret (map (at_ j) (rows df))
  | None => Raise (KeyError name)
  end.

Fixpoint select {A} (mask : list bool) (l : list A) : list A :=
  match mask, l with
  | b :: mask', x :: l' => if b then x :: select mask' l' else select mask' l'
  | _, _ => []
  end.

(** [df[mask]] for a boolean column [mask] computed from [df]. *)
Definition where_ (df : DataFrame) (mask : list bool) : DataFrame :=
  mkFrame (columns df) (select mask (rows df)).

Definition eq_str (s : string) (c : cell) : bool :=
  match c with Str t => String.eqb t s | _ => false end.
Definition ne_str (s : string) (c : cell) : bool := negb (eq_str s c).
Definition isin (names : list string) (c : cell) : bool :=
  match c with Str t => existsb (String.eqb t) names | _ => false end.

(** [df[name] = values]: replaces the column, or appends a new one. *)
Definition setitem (df : DataFrame) (name : string) (d : dtype) (vals : list cell)
    : DataFrame :=
  match position name (columns df) with
  | Some j =>
      mkFrame (<[j := (name, d)]> (columns df))
              (zip_with (λ r v, (r.1, <[j := v]> r.2)) (rows df) vals)
  | None =>
      mkFrame (columns df ++ [(name, d)])%list
              (zip_with (λ r v, (r.1, (r.2 ++ [v])%list)) (rows df) vals)
  end.

Definition dtype_of (df : DataFrame) (name : string) : dtype :=
  match position name (columns df) with
  | Some j => default object (snd <$> columns df !! j)
  | None => object
  end.

(** [pd.Categorical(values, categories)]: a value that is not one of the
    categories becomes missing. *)
Definition Categorical (vals : list cell) (cats : list string) : list cell :=
  map (λ c, if isin cats c then c else NA) vals.

Fixpoint index_of (s : string) (l : list string) : nat :=
  match l with
  | [] => O
  | t :: l' => if String.eqb t s then O else S (index_of s l')
  end.

(** Ascending order of two present values of one column. *)
Definition cell_compare (d : dtype) (x y : cell) : comparison :=
  match d, x, y with
  | category cats, Str s, Str t => Nat.compare (index_of s cats) (index_of t cats)
  | _, Str s, Str t => String.compare s t
  | _, Int a, Int b => Z.compare a b
  | _, _, _ => Eq
  end.

(** Missing values sort last, whatever the direction. *)
Definition key_compare (d : dtype) (ascending : bool) (x y : cell) : comparison :=
  match x, y with
  | NA, NA => Eq
  | NA, _ => Gt
  | _, NA => Lt
  | _, _ => if ascending then cell_compare d x y else CompOpp (cell_compare d x y)
  end.

Fixpoint row_le (keys : list (nat * dtype * bool)) (r1 r2 : Z * list cell) : bool :=
  match keys with
  | [] => true
  | (j, d, asc) :: keys' =>
      match key_compare d asc (at_ j r1) (at_ j r2) with
      | Lt => true
      | Gt => false
      | Eq => row_le keys' r1 r2
      end
  end.

Fixpoint insert_row (keys : list (nat * dtype * bool)) (r : Z * list cell)
    (l : list (Z * list cell)) : list (Z * list cell) :=
  match l with
  | [] => [r]
  | r' :: l' => if row_le keys r r' then r :: l else r' :: insert_row keys r l'
  end.

(** A column of strings and a column of integers can be ordered; a
    column that mixes them cannot. *)
Definition orderable (vals : list cell) : bool :=
  forallb (λ c, match c with Int _ => false | _ => true end) vals
  || forallb (λ c, match c with Str _ => false | _ => true end) vals.

Fixpoint sort_keys (df : DataFrame) (by_ : list (string * bool))
    : result (list (nat * dtype * bool)) :=
  match by_ with
  | [] => Ret []
  | (name, asc) :: by' =>
      vals ← getitem df name;
      j ← of_option (KeyError name) (position name (columns df));
      if orderable vals then
        ks ← sort_keys df by';
        Ret ((j, dtype_of df name, asc) :: ks)
      else Raise TypeError
  end.

(** [df.sort_values(by=..., ascending=...)]: stable, lexicographic. *)
Definition sort_values (df : DataFrame) (by_ : list (string * bool)) : result DataFrame :=
  keys ← sort_keys df by_;
  Ret (mkFrame (columns df) (foldr (insert_row keys) [] (rows df))).

(** [df.reset_index()]: the old index becomes the first column, called
    [index], or [level_0] when [index] is taken. *)
Definition reset_index (df : DataFrame) : result DataFrame :=
  name ← (if has_column df "index" then
            if has_column df "level_0" then Raise ValueError else Ret "level_0"
          else Ret "index");
  Ret (mkFrame ((name, object) :: columns df)
               (imap (λ i r, (Z.of_nat i, Int r.1 :: r.2)) (rows df))).

End Pandas.

Module Numpy.

(** A two-dimensional array of float64. *)
Record ndarray : Type := mkArray {
  shape : nat * nat;
  entries : list (list spec_float)     (* the rows *)
}.

Definition well_formed (a : ndarray) : Prop :=
  length (entries a) = (shape a).1 ∧
  Forall (λ r, length r = (shape a).2) (entries a).

Definition column (a : ndarray) (j : nat) : list spec_float :=
  map (λ r, default F64.nan (r !! j)) (entries a).

Definition count_true (l : list bool) : nat := length (filter (λ b, b = true) l).

(** [np.isfinite(a).mean(axis=0)]: per column, the float64 sum of the
    booleans divided by the number of rows. *)
Definition isfinite_mean_axis0 (a : ndarray) : list spec_float :=
  map (λ j, F64.div (F64.of_Z (Z.of_nat (count_true (map F64.isfinite (column a j)))))
                    (F64.of_Z (Z.of_nat (shape a).1)))
      (seq 0 (shape a).2).

Definition gt_zero (l : list spec_float) : list bool :=
  map (λ x, gt (F x) (I 0)) l.

(** [a[:, mask]] for a boolean mask. *)
Definition take_columns (a : ndarray) (mask : list bool) : result ndarray :=
  if Nat.eqb (length mask) (shape a).2 then
    Ret (mkArray ((shape a).1, count_true mask) (map (Pandas.select mask) (entries a)))
  else Raise IndexError.

(** [v[mask]] for a one-dimensional array and a boolean mask. *)
Definition take_items {A} (v : list A) (mask : list bool) : result (list A) :=
  if Nat.eqb (length mask) (length v) then Ret (Pandas.select mask v)
  else Raise IndexError.

(** [np.sqrt(n)] for a Python integer. *)
Definition sqrt (n : Z) : spec_float := F64.sqrt (F64.of_Z n).

End Numpy.

(* ===================================================================== *)
(** * [main] *)
(* ===================================================================== *)

Import Pandas Numpy.

(** What [main] obtains from outside this file: the file system behind
    [pd.read_csv], the clock, and the functions of [libs.dpmmIO] it calls.
    [process_sim_folder] returns nothing, so it is given as its effect on
    [args]. *)
Record World : Type := mkWorld {
  read_csv : value → option nat → result DataFrame;
  process_sim_folder : gmap string value → gmap string value;
  load_data : value → DataFrame → value
              → result (ndarray * ndarray * (list string * list string));
  get_mcmc_termination : gmap string value → result (value * string);
  now : value
}.

(** The model object built by [main]: the class and its arguments. *)
Inductive Model : Type :=
| CRP (data : ndarray) (DP_alpha param_beta FN_error FP_error : value)
| CRP_errors_learning (data : ndarray) (DP_alpha param_beta : value)
    (FP_mean FP_sd FN_mean FN_sd : value).

(** The arguments of [MCMC(...)]. *)
Record Sampler : Type := mkSampler {
  model : Model;
  sm_prob : value;
  dpa_prob : value;
  error_prob : value;
  sm_ratios : value;
  sm_steps : value
}.

(** The arguments of [mcmc.run(...)], in the order of the call. *)
Record RunCall : Type := mkRunCall {
  run_var : value;
  seed : value;
  n_chains : value;
  verbosity : value;
  assign_file : value;
  debug : value
}.

(** [main] up to and including [mcmc.run]. *)
Record Run : Type := mkRun {
  mcmc : Sampler;
  call : RunCall;
  args_at_run : gmap string value;
  data_used : ndarray;
  data_frac_used : ndarray;
  names_used : list string * list string;
  ctypes_used : DataFrame;
  scDNA_used : DataFrame
}.

Definition getattr (args : gmap string value) (name : string) : result value :=
  of_option (AttributeError name) (args !! name).

(** [v[i]] on a list or a tuple. *)
Definition subscript (v : value) (i : nat) : result value :=
  match v with
  | VList l | VTuple l => of_option IndexError (l !! i)
  | _ => Raise TypeError
  end.

Definition ctypes_categ : list string :=
  ["HGSOC"; "Mesothelial.cells"; "Fibroblasts"; "T.NK.cells";
   "Myeloid.cells"; "B.cells"; "Endothelial.cells"].

(** Lines 255-260: the cell-type table before the data is loaded. *)
Definition prepare_ctypes (ctypes_df : DataFrame) : result DataFrame :=
  biopsy ← getitem ctypes_df "biopsy";
  let ctypes_df := where_ ctypes_df (map (ne_str "Distal") biopsy) in
  celltype ← getitem ctypes_df "celltype_final";
  let ctypes_df :=
    setitem ctypes_df "celltype_final" (category ctypes_categ)
            (Categorical celltype ctypes_categ) in
  ctypes_df ← sort_values ctypes_df [("biopsy", false); ("celltype_final", true)];
  color ← getitem ctypes_df "Color";
  let ctypes_df := setitem ctypes_df "CellTypes" (dtype_of ctypes_df "Color") color in
  reset_index ctypes_df.

(** Line 268. *)
Definition keep_loaded_cells (ctypes_df : DataFrame) (cells : list string)
    : result DataFrame :=
  barcodes ← getitem ctypes_df "barcodes";
  Ret (where_ ctypes_df (map (isin cells) barcodes)).

(** Lines 270-273. *)
Definition relevant_mutations (data data_frac : ndarray)
    (data_names : list string * list string)
    : result (ndarray * ndarray * (list string * list string)) :=
  let rel_muts := gt_zero (isfinite_mean_axis0 data) in
  data ← take_columns data rel_muts;
  data_frac ← take_columns data_frac rel_muts;
  names1 ← take_items data_names.2 rel_muts;
  Ret (data, data_frac, (data_names.1, names1)).

(** [len(ctypes_df[ctypes_df['Corrected']=='Cancer'])] *)
Definition cancer_cells (ctypes_df : DataFrame) : result nat :=
  corrected ← getitem ctypes_df "Corrected";
  Ret (len (where_ ctypes_df (map (eq_str "Cancer") corrected))).

(** Lines 276-286. *)
Definition concentration_prior (DPa_prior : value) (ctypes_df : DataFrame)
    (data : ndarray) : result value :=
  let DP_alpha := DPa_prior in
  a ← subscript DP_alpha 0;
  neg ← (a_neg ← py_lt a (VInt 0);
         if a_neg : bool then Ret true
         else b ← subscript DP_alpha 1; py_lt b (VInt 0));
  if neg : bool then
    match cancer_cells ctypes_df with
    | Raise (KeyError _) =>
        Ret (VTuple [VFloat (Numpy.sqrt (Z.of_nat (shape data).1)); VInt 1])
    | Raise e => Raise e
    | Ret cancer_cells_total =>
        Ret (VTuple [VFloat (F64.sub (Numpy.sqrt (Z.of_nat cancer_cells_total))
                                     (F64.of_Z 5));
                     VInt 1])
    end
  else Ret DP_alpha.

(** Lines 288-301: the branch on the two fixed error rates.  Returns
    [args] as the branch leaves it and the model it builds. *)
Definition build_model (args : gmap string value) (data : ndarray) (DP_alpha : value)
    : result (gmap string value * Model) :=
  falsePositive ← getattr args "falsePositive";
  fixed ← (fp ← py_ge falsePositive (VInt 0);
           if fp : bool then
             falseNegative ← getattr args "falseNegative";
             py_ge falseNegative (VInt 0)
           else Ret false);
  if fixed : bool then
    let args := <["error_update_prob" := VInt 0]> args in
    param_prior ← getattr args "param_prior";
    falseNegative ← getattr args "falseNegative";
    falsePositive ← getattr args "falsePositive";
    Ret (args, CRP data DP_alpha param_prior falseNegative falsePositive)
  else
    param_prior ← getattr args "param_prior";
    FP_mean ← getattr args "falsePositive_mean";
    FP_sd ← getattr args "falsePositive_std";
    FN_mean ← getattr args "falseNegative_mean";
    FN_sd ← getattr args "falseNegative_std";
    Ret (args, CRP_errors_learning data DP_alpha param_prior
                 FP_mean FP_sd FN_mean FN_sd).

Definition main (w : World) (args : gmap string value) : result Run :=
  ctypes ← getattr args "ctypes";
  ctypes_df ← read_csv w ctypes None;
  ctypes_df ← prepare_ctypes ctypes_df;
  scDNA ← getattr args "scDNA";
  scDNA_df ← read_csv w scDNA (Some O);
  let args := process_sim_folder w args in
  input ← getattr args "input";
  transpose ← getattr args "transpose";
  '(data, data_frac, data_names) ← load_data w input ctypes_df transpose;
  ctypes_df ← keep_loaded_cells ctypes_df data_names.1;
  '(data, data_frac, data_names) ← relevant_mutations data data_frac data_names;
  DPa_prior ← getattr args "DPa_prior";
  DP_alpha ← concentration_prior DPa_prior ctypes_df data;
  '(args, BnpC) ← build_model args data DP_alpha;
  let args := <["time" := VList [now w]]> args in
  '(run_var, run_str) ← get_mcmc_termination w args;
  split_merge_prob ← getattr args "split_merge_prob";
  conc_update_prob ← getattr args "conc_update_prob";
  error_update_prob ← getattr args "error_update_prob";
  split_merge_ratios ← getattr args "split_merge_ratios";
  split_merge_steps ← getattr args "split_merge_steps";
  let mcmc := mkSampler BnpC split_merge_prob conc_update_prob error_update_prob
                        split_merge_ratios split_merge_steps in
  verbosity ← getattr args "verbosity";
  verbose ← py_lt (VInt 0) verbosity;
  _ ← (if verbose : bool then getattr args "chains" else Ret VNone);
  debug ← getattr args "debug";
  let args := if truthy debug then <["chains" := VInt 1]> args else args in
  seed ← getattr args "seed";
  chains ← getattr args "chains";
  verbosity ← getattr args "verbosity";
  fixed_assignment ← getattr args "fixed_assignment";
  debug ← getattr args "debug";
  Ret (mkRun mcmc
             (mkRunCall run_var seed chains verbosity fixed_assignment debug)
             args data data_frac data_names ctypes_df scDNA_df).


(** [main] with lines 276-286 left open: [choose] stands for the block
    that turns [args.DPa_prior], the cell-type table and the data into
    [DP_alpha]; every other line is that of [main]. *)
Definition main_with (choose : value → DataFrame → ndarray → result value)
    (w : World) (args : gmap string value) : result Run :=
  ctypes ← getattr args "ctypes";
  ctypes_df ← read_csv w ctypes None;
  ctypes_df ← prepare_ctypes ctypes_df;
  scDNA ← getattr args "scDNA";
  scDNA_df ← read_csv w scDNA (Some O);
  let args := process_sim_folder w args in
  input ← getattr args "input";
  transpose ← getattr args "transpose";
  '(data, data_frac, data_names) ← load_data w input ctypes_df transpose;
  ctypes_df ← keep_loaded_cells ctypes_df data_names.1;
  '(data, data_frac, data_names) ← relevant_mutations data data_frac data_names;
  DPa_prior ← getattr args "DPa_prior";
  DP_alpha ← choose DPa_prior ctypes_df data;
  '(args, BnpC) ← build_model args data DP_alpha;
  let args := <["time" := VList [now w]]> args in
  '(run_var, run_str) ← get_mcmc_termination w args;
  split_merge_prob ← getattr args "split_merge_prob";
  conc_update_prob ← getattr args "conc_update_prob";
  error_update_prob ← getattr args "error_update_prob";
  split_merge_ratios ← getattr args "split_merge_ratios";
  split_merge_steps ← getattr args "split_merge_steps";
  let mcmc := mkSampler BnpC split_merge_prob conc_update_prob error_update_prob
                        split_merge_ratios split_merge_steps in
  verbosity ← getattr args "verbosity";
  verbose ← py_lt (VInt 0) verbosity;
  _ ← (if verbose : bool then getattr args "chains" else Ret VNone);
  debug ← getattr args "debug";
  let args := if truthy debug then <["chains" := VInt 1]> args else args in
  seed ← getattr args "seed";
  chains ← getattr args "chains";
  verbosity ← getattr args "verbosity";
  fixed_assignment ← getattr args "fixed_assignment";
  debug ← getattr args "debug";
  Ret (mkRun mcmc
             (mkRunCall run_var seed chains verbosity fixed_assignment debug)
             args data data_frac data_names ctypes_df scDNA_df).

(** The assignment of line 281 alone: [DP_alpha = (np.sqrt(data.shape[0]), 1)]. *)
Definition data_only_prior (data : ndarray) : value :=
  VTuple [VFloat (Numpy.sqrt (Z.of_nat (shape data).1)); VInt 1].


(** The [__main__] block: [args = parse_args(); main(args)]. *)
Definition run_BnpC (w : World) (argv : list Argparse.item) : result Run :=
  args ← parse_args argv;
  main w args.

(** The concentration prior a model was built with. *)
Definition prior_of (m : Model) : value :=
  match m with
  | CRP _ DP_alpha _ _ _ => DP_alpha
  | CRP_errors_learning _ DP_alpha _ _ _ _ _ => DP_alpha
  end.

(** The data matrix a model was built on. *)
Definition data_of (m : Model) : ndarray :=
  match m with
  | CRP data _ _ _ _ => data
  | CRP_errors_learning data _ _ _ _ _ _ => data
  end.

(* ===================================================================== *)
(** * The end of [main] and [generate_output] *)
(* ===================================================================== *)

(** An object of [libs] that this file only passes on: the results of
    the sampler, the inferred clustering, a loaded assignment, a loaded
    ground truth. *)
Inductive pyobject : Type :=
| obj (id : positive).

(** The calls that show or write something: those of [generate_output]
    into [libs.dpmmIO], and [print]. *)
Inductive Call : Type :=
| show_MCMC_summary (args : gmap string value) (results : pyobject)
| show_assignments (inferred : pyobject) (cells : list string)
| show_latents (inferred : pyobject)
| print (out_dir : value)
| save_run (inferred : pyobject) (args : gmap string value) (out_dir : value)
    (names : list string * list string)
| save_v_measure (inferred true_assign : pyobject) (out_dir : value)
| save_ARI (inferred true_assign : pyobject) (out_dir : value)
| save_hamming_dist (inferred data_true : pyobject) (out_dir : value)
| save_geno_plots (inferred : pyobject) (data : ndarray + pyobject)
    (data_frac : ndarray) (out_dir : value) (names : list string * list string)
    (ctypes scDNA : DataFrame).

(** What the end of [main] and [generate_output] obtain from [libs] and
    the clock: the results of the calls that return something, and
    whether a call that shows or writes raises.  The functions of [libs]
    are taken not to assign to the attributes of [args]. *)
Record Libs : Type := mkLibs {
  run : Sampler → RunCall → result unit;                 (* mcmc.run(...) *)
  get_seeds : Sampler → RunCall → result value;          (* mcmc.get_seeds() *)
  get_results : Sampler → RunCall → result pyobject;     (* mcmc.get_results() *)
  now_after : value;                                     (* datetime.now(), after the run *)
  get_out_dir : gmap string value → result value;
  infer_results : gmap string value → pyobject → ndarray → result pyobject;
  load_txt : value → result pyobject;
  load_true_data : value → value → result pyobject;      (* io.load_data(path, transpose=...) *)
  perform : Call → result unit
}.

(** How statements end: normally, with an exception, or at the read of
    a local variable that was never assigned. *)
Inductive outcome (A : Type) : Type :=
| Done (a : A)
| Failed (e : exn)
| Unbound (name : string).
Arguments Done {A} a.
Arguments Failed {A} e.
Arguments Unbound {A} name.

(** Statements with calls that show or write: the calls made, in order,
    and how the statements end. *)
Record Eff (A : Type) : Type := mkEff {
  calls : list Call;
  ending : outcome A
}.
Arguments mkEff {A} calls ending.
Arguments calls {A} e.
Arguments ending {A} e.

#[global] Instance eff_ret : MRet Eff := λ A a, mkEff [] (Done a).
#[global] Instance eff_bind : MBind Eff :=
  λ A B f m, match ending m with
             | Done a => mkEff (calls m ++ calls (f a))%list (ending (f a))
             | Failed e => mkEff (calls m) (Failed e)
             | Unbound x => mkEff (calls m) (Unbound x)
             end.

(** A computation that shows and writes nothing. *)
Definition lift {A} (m : result A) : Eff A :=
  mkEff [] (match m with Ret a => Done a | Raise e => Failed e end).

(** One call that shows or writes. *)
Definition invoke (l : Libs) (c : Call) : Eff unit :=
  mkEff [c] (match perform l c with Ret a => Done a | Raise e => Failed e end).

(** Lines 213-249.  [exit()] raises [SystemExit] without a code, which
    ends the program with status 0.  [data_true] is assigned only under
    the first test of [args.true_data]. *)
Definition generate_output (l : Libs) (args : gmap string value) (results : pyobject)
    (data_raw data_frac : ndarray) (names : list string * list string)
    (ctypes scDNA : DataFrame) : Eff unit :=
  out_dir ← lift (get_out_dir l args);
  inferred ← lift (infer_results l args results data_raw);
  verbosity ← lift (getattr args "verbosity");
  verbose ← lift (py_lt (VInt 0) verbosity);
  _ ← (if verbose : bool then
         _ ← invoke l (show_MCMC_summary args results);
         _ ← invoke l (show_assignments inferred names.1);
         _ ← invoke l (show_latents inferred);
         invoke l (print out_dir)
       else mret tt);
  _ ← invoke l (save_run inferred args out_dir names);
  true_clusters ← lift (getattr args "true_clusters");
  _ ← (if truthy true_clusters then
         true_clusters ← lift (getattr args "true_clusters");
         true_assign ← lift (load_txt l true_clusters);
         _ ← invoke l (save_v_measure inferred true_assign out_dir);
         invoke l (save_ARI inferred true_assign out_dir)
       else mret tt);
  true_data ← lift (getattr args "true_data");
  data_true ← (if truthy true_data then
                 true_data ← lift (getattr args "true_data");
                 transpose ← lift (getattr args "transpose");
                 data_true ← lift (load_true_data l true_data transpose);
                 _ ← invoke l (save_hamming_dist inferred data_true out_dir);
                 mret (Some data_true)
               else mret None);
  no_plots ← lift (getattr args "no_plots");
  if truthy no_plots then mkEff [] (Failed (SystemExit 0))
  else
    true_data ← lift (getattr args "true_data");
    if truthy true_data then
      match data_true with
      | Some data_true =>
          invoke l (save_geno_plots inferred (inr data_true) data_frac out_dir
                      names ctypes scDNA)
      | None => mkEff [] (Unbound "data_true")
      end
    else
      invoke l (save_geno_plots inferred (inl data_raw) data_frac out_dir
                  names ctypes scDNA).

(** Lines 320-329: [mcmc.run] itself and what follows it. *)
Definition after_run (l : Libs) (r : Run) : Eff unit :=
  _ ← lift (run l (mcmc r) (call r));
  chain_seeds ← lift (get_seeds l (mcmc r) (call r));
  let args := <["chain_seeds" := chain_seeds]> (args_at_run r) in
  results ← lift (get_results l (mcmc r) (call r));
  time ← lift (getattr args "time");
  args ← lift (match time with
               | VList t => Ret (<["time" := VList (t ++ [now_after l])%list]> args)
               | _ => Raise (AttributeError "append")
               end);
  generate_output l args results (data_used r) (data_frac_used r) (names_used r)
                  (ctypes_used r) (scDNA_used r).

(** The [__main__] block, to its end. *)
Definition program (l : Libs) (w : World) (argv : list Argparse.item) : Eff unit :=
  r ← lift (run_BnpC w argv);
  after_run l r.

(* ===================================================================== *)
(** * What the sampler does with two of its arguments *)
(* ===================================================================== *)

(** How the chains of a run are executed. *)
Inductive Schedule : Type :=
| synchronous_in_caller
| independent_workers (n : value).

(** Modelled from the spec: [MCMC.run] is defined in [libs/MCMC.py], which
    is not among the sources.  Section 4.6: the pool "dispatches N Chains
    to independent execution units (or executes a single Chain
    synchronously in the caller when a debug mode is requested)". *)
Definition schedule_of (c : RunCall) : Schedule :=
  if truthy (debug c) then synchronous_in_caller
  else independent_workers (n_chains c).

(** Modelled from the spec: the convergence check is defined in
    [libs/MCMC.py], which is not among the sources.  Section 4.7: "If the
    diagnostic value falls below the configured cutoff (valid range
    1.0-1.5), convergence is declared and all chains are signaled to
    terminate early [...].  If diagnostics are disabled (cutoff = -1),
    chains run to their step/runtime limit unconditionally." *)
Definition diagnostic_disabled (cutoff : value) : bool :=
  value_eqb cutoff (VInt (-1)).

(** Modelled from the spec: section 4.7, as above; the diagnostic value
    [psrf] is compared with the cutoff only when the diagnostic is on. *)
Definition convergence_declared (cutoff : value) (psrf : spec_float) : bool :=
  negb (diagnostic_disabled cutoff) &&
  match as_num cutoff with
  | Some c => lt (F psrf) c
  | None => false
  end.

(** Modelled from the spec: sections 4.5 and 4.7, a chain terminates when
    its step or runtime budget is exhausted or when convergence is
    declared at one of the periodic checks.  [limit] is what is left of
    the budget, [check k] the diagnostic value when a check takes place
    after step [k]; the result is the number of steps taken. *)
Fixpoint steps_taken (cutoff : value) (check : nat → option spec_float)
    (limit taken : nat) : nat :=
  match limit with
  | O => taken
  | S limit' =>
      match check (S taken) with
      | Some psrf =>
          if convergence_declared cutoff psrf then S taken
          else steps_taken cutoff check limit' (S taken)
      | None => steps_taken cutoff check limit' (S taken)
      end
  end.

(* ===================================================================== *)
(** * Vocabulary of the statements *)
(* ===================================================================== *)

(** Option strings of the options declared with [type=check_percent]. *)
Definition probability_flags : list string :=
  ["-b"; "--burn_in"; "-cup"; "--conc_update_prob"; "-eup"; "--error_update_prob";
   "-smp"; "--split_merge_prob"; "-smr"; "--split_merge_ratios"].

(** Option strings of the option declared with [type=check_PSRF_cutoff]. *)
Definition cutoff_flags : list string := ["-ls"; "--lugsail"].

Definition transpose_flags : list string := ["-t"; "--transpose"].

(** The command line gives one of the option strings [fs]. *)
Definition mentions (fs : list string) (argv : list Argparse.item) : bool :=
  existsb (λ it, match it with
                 | Argparse.Opt f _ => existsb (String.eqb f) fs
                 | Argparse.Pos _ => false
                 end) argv.

(** The option strings [fs] are those of the one option that stores
    into [d]: each of them is declared with destination [d], and every
    declaration with destination [d] is an option with strings among [fs]. *)
Definition owns (d : string) (fs : list string) : bool :=
  forallb (λ f, match Argparse.find_flag Argparse.parser f with
                | Some a => String.eqb (Argparse.dest a) d
                | None => false
                end) fs
  && forallb (λ a, if String.eqb (Argparse.dest a) d
                   then match Argparse.flags a with
                        | [] => false
                        | fl => forallb (λ f, existsb (String.eqb f) fs) fl
                        end
                   else true) Argparse.parser.

(** No declaration with destination [d] has a string as its default. *)
Definition default_not_string (d : string) : bool :=
  forallb (λ a, match Argparse.default a with
                | Some (VStr _) => negb (String.eqb (Argparse.dest a) d)
                | _ => true
                end) Argparse.parser.

(** A value lies outside the closed interval, as the validators test it. *)
Definition outside_unit (v : spec_float) : bool :=
  lt (F v) (I 0) || gt (F v) (I 1).
Definition outside_cutoff (v : spec_float) : bool :=
  lt (F v) (I 1) || gt (F v) (F (float_lit "1.5")).

(** A value lies in the closed interval: [0 <= v <= 1], [1 <= v <= 1.5]. *)
Definition within_unit (v : spec_float) : bool :=
  le (I 0) (F v) && le (F v) (I 1).
Definition within_cutoff (v : spec_float) : bool :=
  le (I 1) (F v) && le (F v) (F (float_lit "1.5")).

(** The value [v] a taken declaration [a] puts into the namespace, given
    the argument strings of the occurrence. *)
Definition set_by (a : Argparse.Argument) (args : list string) (v : value) : Prop :=
  match Argparse.act a with
  | Argparse.store_true => v = VBool true
  | Argparse.store_false => v = VBool false
  | Argparse.store => Argparse.stored a args = Ret v
  | _ => False
  end.

(** A converter whose only exceptions are those [argparse] turns into a
    parser error. *)
Definition benign (conv : string → result value) : Prop :=
  ∀ s e, conv s = Raise e → e = ArgumentTypeError ∨ e = ValueError ∨ e = TypeError.

(** Two namespaces that differ at most in the two fixed error rates. *)
Definition same_but_fixed_rates (a b : gmap string value) : Prop :=
  ∀ k, k ≠ "falseNegative" → k ≠ "falsePositive" → a !! k = b !! k.

(** [x >= 0] for an attribute value. *)
Definition nonnegative (v : value) : bool :=
  match as_num v with Some x => ge x (I 0) | None => false end.

(** Both fixed error rates are numbers and at least one is negative. *)
Definition learned_mode (a : gmap string value) : Prop :=
  ∃ fp fn x y,
    a !! "falsePositive" = Some fp ∧ a !! "falseNegative" = Some fn ∧
    as_num fp = Some x ∧ as_num fn = Some y ∧
    (lt x (I 0) = true ∨ lt y (I 0) = true).

(** [--DPa_prior] is a pair of numbers with a negative component. *)
Definition default_requested (DPa_prior : value) : bool :=
  match DPa_prior with
  | VList (a :: b :: _) | VTuple (a :: b :: _) =>
      match as_num a, as_num b with
      | Some x, Some y => lt x (I 0) || lt y (I 0)
      | _, _ => false
      end
  | _ => false
  end.

(** Rows of the table whose [Corrected] entry is ['Cancer']. *)
Definition marked_cancer (df : DataFrame) : nat :=
  match position "Corrected" (columns df) with
  | Some j => length (filter (λ r, eq_str "Cancer" (at_ j r) = true) (rows df))
  | None => 0
  end.

(** A column of an array holds no finite entry. *)
Definition all_missing (a : ndarray) (j : nat) : bool :=
  forallb (λ x, negb (F64.isfinite x)) (column a j).

(** The mask of the sites with a finite entry in some cell. *)
Definition informative (a : ndarray) : list bool :=
  map (λ j, negb (all_missing a j)) (seq 0 (shape a).2).

(** Every matrix that [load_data] returns is rectangular and has fewer
    than 2^53 rows, so that a count of its rows is exact in float64. *)
Definition loads_arrays (w : World) : Prop :=
  ∀ input table transpose data data_frac data_names,
    load_data w input table transpose = Ret (data, data_frac, data_names) →
    well_formed data ∧ Z.of_nat (shape data).1 < 2 ^ 53.

(** The position, before filtering by [mask], of what is at position [j]
    afterwards. *)
Fixpoint kept (mask : list bool) (j : nat) : option nat :=
  match mask with
  | [] => None
  | true :: mask' =>
      match j with
      | O => Some O
      | S j' => S <$> kept mask' j'
      end
  | false :: mask' => S <$> kept mask' j
  end.

(* ===================================================================== *)
(** * Further vocabulary: the command line *)
(* ===================================================================== *)

(** Option strings of the options declared with [type=check_ratio]. *)
Definition ratio_flags : list string :=
  ["-FN_m"; "--falseNegative_mean"; "-FN_sd"; "--falseNegative_std";
   "-FP_m"; "--falsePositive_mean"; "-FP_sd"; "--falsePositive_std"].

(** A value lies outside the open interval, as [check_ratio] tests it. *)
Definition outside_open_unit (v : spec_float) : bool :=
  le (F v) (I 0) || ge (F v) (I 1).

(** Option strings of the two actions that print and exit. *)
Definition exit_flags : list string := ["-h"; "--help"; "--version"].

Definition no_plots_flags : list string := ["-np"; "--no_plots"].
Definition verbosity_flags : list string := ["-v"; "--verbosity"].
Definition estimator_flags : list string := ["-e"; "--estimator"].

(** The positional strings of a command line, in their order. *)
Definition positionals (argv : list Argparse.item) : list string :=
  omap (λ it, match it with
              | Argparse.Pos s => Some s
              | Argparse.Opt _ _ => None
              end) argv.

(** The attributes of [args] that [main] and [generate_output] read. *)
Definition attributes_read : list string :=
  ["ctypes"; "scDNA"; "input"; "transpose"; "DPa_prior"; "falsePositive";
   "falseNegative"; "param_prior"; "falsePositive_mean"; "falsePositive_std";
   "falseNegative_mean"; "falseNegative_std"; "split_merge_prob";
   "conc_update_prob"; "error_update_prob"; "split_merge_ratios";
   "split_merge_steps"; "verbosity"; "chains"; "debug"; "seed";
   "fixed_assignment"; "true_clusters"; "true_data"; "no_plots"].

(** A value is a Python number. *)
Definition is_number (v : value) : bool :=
  match as_num v with Some _ => true | None => false end.

(* ===================================================================== *)
(** * Further vocabulary: the run *)
(* ===================================================================== *)

(** [--DPa_prior] is a pair of numbers neither of which is below 0. *)
Definition user_prior (DPa_prior : value) : bool :=
  match DPa_prior with
  | VList (a :: b :: _) | VTuple (a :: b :: _) =>
      match as_num a, as_num b with
      | Some x, Some y => negb (lt x (I 0)) && negb (lt y (I 0))
      | _, _ => false
      end
  | _ => false
  end.

(** Every row of a frame has one cell per column. *)
Definition rectangular (df : DataFrame) : Prop :=
  Forall (λ r, length r.2 = length (columns df)) (rows df).

(** The attributes of [args] that [main] assigns. *)
Definition attributes_assigned : list string :=
  ["error_update_prob"; "time"; "chains"].

(** What a call shows or writes. *)
Inductive Kind : Type :=
| shown | run_saved | clusters_scored | truth_compared | plotted.

Definition kind (c : Call) : Kind :=
  match c with
  | show_MCMC_summary _ _ | show_assignments _ _ | show_latents _ | print _ => shown
  | save_run _ _ _ _ => run_saved
  | save_v_measure _ _ _ | save_ARI _ _ _ => clusters_scored
  | save_hamming_dist _ _ _ => truth_compared
  | save_geno_plots _ _ _ _ _ _ _ => plotted
  end.

(** [args.name] is defined and true as an [if] tests it. *)
Definition is_set (args : gmap string value) (name : string) : bool :=
  match args !! name with Some v => truthy v | None => false end.

(** [args.name] is defined and false as an [if] tests it. *)
Definition is_clear (args : gmap string value) (name : string) : bool :=
  match args !! name with Some v => negb (truthy v) | None => false end.

(** [args.verbosity > 0]. *)
Definition is_verbose (args : gmap string value) : bool :=
  match args !! "verbosity" ≫= as_num with Some x => lt (I 0) x | None => false end.

(* ===================================================================== *)
(** * Concrete runs *)
(* ===================================================================== *)

Module Example.

(** A cell-type table with the [Corrected] column: two of the loaded
    cells are marked as cancer cells. *)
Definition table : DataFrame :=
  mkFrame [("barcodes", object); ("biopsy", object); ("celltype_final", object);
           ("Color", object); ("Corrected", object)]
    [(0, [Str "c1"; Str "Prox"; Str "HGSOC"; Str "red"; Str "Cancer"]);
     (1, [Str "c2"; Str "Distal"; Str "HGSOC"; Str "red"; Str "Cancer"]);
     (2, [Str "c3"; Str "Prox"; Str "B.cells"; Str "blue"; Str "Normal"]);
     (3, [Str "c4"; Str "Omentum"; Str "Fibroblasts"; Str "green"; Str "Cancer"])].

(** The same table without the [Corrected] column. *)
Definition plain_table : DataFrame :=
  mkFrame [("barcodes", object); ("biopsy", object); ("celltype_final", object);
           ("Color", object)]
    [(0, [Str "c1"; Str "Prox"; Str "HGSOC"; Str "red"]);
     (1, [Str "c2"; Str "Distal"; Str "HGSOC"; Str "red"]);
     (2, [Str "c3"; Str "Prox"; Str "B.cells"; Str "blue"]);
     (3, [Str "c4"; Str "Omentum"; Str "Fibroblasts"; Str "green"])].

Definition one : spec_float := F64.of_Z 1.
Definition zero : spec_float := F64.of_Z 0.

(** Three cells, three mutation sites; the second site is missing in
    every cell. *)
Definition matrix : ndarray :=
  mkArray (3%nat, 3%nat)
    [[one; F64.nan; zero];
     [zero; F64.nan; zero];
     [zero; F64.nan; one]].

Definition names : list string * list string :=
  (["c1"; "c3"; "c4"], ["m1"; "m2"; "m3"]).

Definition world_of (t : DataFrame) : World :=
  mkWorld (λ _ _, Ret t)
          (λ args, args)
          (λ _ _ _, Ret (matrix, matrix, names))
          (λ args, Ret (default VNone (args !! "steps"), "for 5000 steps"))
          VNone.

Definition world : World := world_of table.
Definition plain_world : World := world_of plain_table.

(** The input file and the two tables, followed by [options]. *)
Definition command (options : list Argparse.item) : list Argparse.item :=
  Argparse.Pos "data.txt" :: Argparse.Opt "--ctypes" ["ctypes.tsv"]
  :: Argparse.Opt "--scDNA" ["scDNA.tsv"] :: options.

Definition the {A} (d : A) (m : result A) : A :=
  match m with Ret a => a | Raise _ => d end.

Definition no_run : Run :=
  mkRun (mkSampler (CRP (mkArray (O, O) []) VNone VNone VNone VNone)
                   VNone VNone VNone VNone VNone)
        (mkRunCall VNone VNone VNone VNone VNone VNone)
        ∅ (mkArray (O, O) []) (mkArray (O, O) []) ([], []) (mkFrame [] []) (mkFrame [] []).

(** The namespace parsed from a command line, and the run it leads to. *)
Definition parsed (argv : list Argparse.item) : gmap string value :=
  the ∅ (parse_args argv).
Definition ran (w : World) (argv : list Argparse.item) : Run :=
  the no_run (main w (parsed argv)).

Definition fixed_rates : list Argparse.item :=
  command [Argparse.Opt "-FN" ["0.1"]; Argparse.Opt "-FP" ["0.01"];
           Argparse.Opt "--error_update_prob" ["0.9"]].
Definition large_rates : list Argparse.item :=
  command [Argparse.Opt "-FN" ["5"]; Argparse.Opt "-FP" ["2"]].
Definition unbounded_rates : list Argparse.item :=
  command [Argparse.Opt "-FN" ["5"]; Argparse.Opt "-FP" ["inf"]].
Definition nan_values : list Argparse.item :=
  command [Argparse.Opt "-b" ["nan"]; Argparse.Opt "--lugsail" ["nan"]].
Definition one_rate : list Argparse.item :=
  command [Argparse.Opt "-FN" ["0.3"]].
Definition debugging : list Argparse.item :=
  command [Argparse.Opt "--debug" []; Argparse.Opt "-n" ["4"]].

(** The example table as [prepare_ctypes] returns it. *)
Definition prepared : DataFrame := the (mkFrame [] []) (prepare_ctypes table).

(** The example matrix and its names without the second site. *)
Definition kept_matrix : ndarray :=
  mkArray (3%nat, 2%nat)
    [[one; zero];
     [zero; zero];
     [zero; one]].
Definition kept_names : list string * list string :=
  (["c1"; "c3"; "c4"], ["m1"; "m3"]).

(** Functions of [libs] that return and do not raise. *)
Definition libs : Libs :=
  mkLibs (λ _ _, Ret tt) (λ _ _, Ret (VList [VInt 7])) (λ _ _, Ret (obj 1))
         (VInt 1)
         (λ _, Ret (VStr "out")) (λ _ _ _, Ret (obj 2))
         (λ _, Ret (obj 3)) (λ _ _, Ret (obj 4)) (λ _, Ret tt).

End Example.


(* ===================================================================== *)
(** * Conversions from strings: a few values *)
(* ===================================================================== *)

Example float_tenth :
  PyStr.py_float "0.1" = Some (S754_finite false 7205759403792794 (-56)).
Proof. reflexivity. Qed.

Example float_spaces_sign_exponent :
  PyStr.py_float " -1_0.5e-1 " = Some (S754_finite true 4728779608739021 (-52)).
Proof. reflexivity. Qed.

Example float_special :
  PyStr.py_float "NaN" = Some S754_nan ∧
  PyStr.py_float "-inf" = Some (S754_infinity true) ∧
  PyStr.py_float "1e400" = Some (S754_infinity false) ∧
  PyStr.py_float "1_" = None ∧ PyStr.py_float "abc" = None.
Proof. repeat split; reflexivity. Qed.

Example int_of_string :
  PyStr.py_int " -12 " = Some (-12) ∧ PyStr.py_int "1.5" = None.
Proof. repeat split; reflexivity. Qed.
(* ===================================================================== *)
(** * The error monad *)
(* ===================================================================== *)

Lemma bind_Ret {A B} (m : result A) (f : A → result B) (b : B) :
  m ≫= f = Ret b → ∃ a, m = Ret a ∧ f a = Ret b.
Proof. destruct m as [a|e]; [eauto | discriminate]. Qed.

(** A computation that returns, returns its value. *)
Lemma returns_the {A} (d : A) (m : result A) :
  returns m = true → m = Ret (Example.the d m).
Proof. destruct m; [reflexivity | discriminate]. Qed.

Lemma parsed_eq (argv : list Argparse.item) :
  returns (parse_args argv) = true → parse_args argv = Ret (Example.parsed argv).
Proof. apply returns_the. Qed.

Lemma ran_eq (w : World) (argv : list Argparse.item) :
  returns (main w (Example.parsed argv)) = true →
  main w (Example.parsed argv) = Ret (Example.ran w argv).
Proof. apply returns_the. Qed.

Lemma getattr_Ret (args : gmap string value) (name : string) (v : value) :
  getattr args name = Ret v → args !! name = Some v.
Proof. unfold getattr. destruct (args !! name); [intros [= ->]; done | discriminate]. Qed.

Lemma getattr_lookup (args : gmap string value) (name : string) (v : value) :
  args !! name = Some v → getattr args name = Ret v.
Proof. unfold getattr. by intros ->. Qed.

(** Splits a hypothesis [H : (x ← m; k) = Ret b] into [E : m = Ret a]
    and [H : k a = Ret b]. *)
Tactic Notation "bind_inv" hyp(H) "as" simple_intropattern(a) ident(E) :=
  apply bind_Ret in H as (a & E & H);
  try (apply getattr_Ret in E);
  cbn beta iota in H.

(* ===================================================================== *)
(** * Comparisons with zero *)
(* ===================================================================== *)

Lemma lt_zero_not_ge (x : num) : lt x (I 0) = true → ge x (I 0) = false.
Proof.
  unfold ge, le, lt. destruct x as [z|f]; simpl.
  - destruct z; simpl; congruence.
  - destruct (compare_int_float 0 f) as [[]|]; simpl; congruence.
Qed.

Lemma py_ge_zero (v : value) (b : bool) :
  py_ge v (VInt 0) = Ret b → nonnegative v = b.
Proof.
  unfold py_ge, nonnegative. simpl. destruct (as_num v); [congruence | discriminate].
Qed.

(* ===================================================================== *)
(** * Inversion of [build_model] and [main] *)
(* ===================================================================== *)

(** The two ways [build_model] returns. *)
Lemma build_model_inv (args args' : gmap string value) (data : ndarray)
    (DP_alpha : value) (m : Model) :
  build_model args data DP_alpha = Ret (args', m) →
  ∃ fp pb, args !! "falsePositive" = Some fp ∧ args !! "param_prior" = Some pb ∧
    ((∃ fn, args !! "falseNegative" = Some fn ∧
            nonnegative fp = true ∧ nonnegative fn = true ∧
            args' = <["error_update_prob" := VInt 0]> args ∧
            m = CRP data DP_alpha pb fn fp)
     ∨ ((nonnegative fp = false ∨
         ∃ fn, args !! "falseNegative" = Some fn ∧ nonnegative fn = false) ∧
        args' = args ∧
        ∃ FP_mean FP_sd FN_mean FN_sd,
          args !! "falsePositive_mean" = Some FP_mean ∧
          args !! "falsePositive_std" = Some FP_sd ∧
          args !! "falseNegative_mean" = Some FN_mean ∧
          args !! "falseNegative_std" = Some FN_sd ∧
          m = CRP_errors_learning data DP_alpha pb FP_mean FP_sd FN_mean FN_sd)).
Proof.
  unfold build_model. intros H.
  bind_inv H as fp Hfp. bind_inv H as fixed Hfixed.
  assert (Hcases :
    if fixed then nonnegative fp = true ∧
                  ∃ fn, args !! "falseNegative" = Some fn ∧ nonnegative fn = true
    else nonnegative fp = false ∨
         ∃ fn, args !! "falseNegative" = Some fn ∧ nonnegative fn = false).
  { bind_inv Hfixed as b Hb. apply py_ge_zero in Hb. destruct b.
    - bind_inv Hfixed as fn Hfn. apply py_ge_zero in Hfixed. destruct fixed; eauto.
    - injection Hfixed as <-. by left. }
  clear Hfixed. destruct fixed.
  - destruct Hcases as (Hfp0 & fn & Hfn & Hfn0).
    bind_inv H as pb Hpb. rewrite lookup_insert_ne in Hpb by done.
    bind_inv H as fn' Hfn'. rewrite lookup_insert_ne in Hfn' by done.
    bind_inv H as fp' Hfp'. rewrite lookup_insert_ne in Hfp' by done.
    injection H as <- <-.
    assert (fn' = fn) as -> by congruence. assert (fp' = fp) as -> by congruence.
    exists fp, pb. repeat split; try done. left. exists fn. done.
  - bind_inv H as pb Hpb. bind_inv H as FP_mean H1. bind_inv H as FP_sd H2.
    bind_inv H as FN_mean H3. bind_inv H as FN_sd H4. injection H as <- <-.
    exists fp, pb. repeat split; try done. right. repeat split; try done.
    exists FP_mean, FP_sd, FN_mean, FN_sd. done.
Qed.

(** [build_model] changes no attribute but [error_update_prob]. *)
Lemma build_model_keeps (args args' : gmap string value) (data : ndarray)
    (DP_alpha : value) (m : Model) (k : string) :
  build_model args data DP_alpha = Ret (args', m) →
  k ≠ "error_update_prob" → args' !! k = args !! k.
Proof.
  intros H Hk. apply build_model_inv in H as (fp & pb & _ & _ & [H | H]).
  - destruct H as (fn & _ & _ & _ & -> & _). by rewrite lookup_insert_ne.
  - by destruct H as (_ & -> & _).
Qed.

(** What a returning [main] went through.  [a] is the namespace as
    [process_sim_folder] leaves it, [args'] the one [build_model]
    returns, [table] the cell-type table when the data is loaded. *)
Lemma main_inv (w : World) (args : gmap string value) (r : Run) :
  main w args = Ret r →
  let a := process_sim_folder w args in
  ∃ table input transpose data0 frac0 names0 DPa DP_alpha args' d,
    load_data w input table transpose = Ret (data0, frac0, names0) ∧
    keep_loaded_cells table names0.1 = Ret (ctypes_used r) ∧
    relevant_mutations data0 frac0 names0
      = Ret (data_used r, data_frac_used r, names_used r) ∧
    a !! "DPa_prior" = Some DPa ∧
    concentration_prior DPa (ctypes_used r) (data_used r) = Ret DP_alpha ∧
    build_model a (data_used r) DP_alpha = Ret (args', model (mcmc r)) ∧
    args' !! "error_update_prob" = Some (error_prob (mcmc r)) ∧
    args' !! "debug" = Some d ∧
    debug (call r) = d ∧
    n_chains (call r) = (if truthy d then VInt 1 else default VNone (args' !! "chains")).
Proof.
  intros H a. unfold main in H.
  bind_inv H as ctypes Hctypes. bind_inv H as raw Hraw.
  bind_inv H as table Htable. bind_inv H as scDNA HscDNA.
  bind_inv H as scDNA_df Hsc. fold a in H.
  bind_inv H as input Hinput. bind_inv H as transpose Htranspose.
  bind_inv H as [[data0 frac0] names0] Hload.
  bind_inv H as ctypes_df Hkeep.
  bind_inv H as [[data frac] names] Hrel.
  bind_inv H as DPa HDPa. bind_inv H as DP_alpha HDP.
  bind_inv H as [args' BnpC] Hmodel.
  bind_inv H as [run_var run_str] Hterm.
  bind_inv H as smp Hsmp. bind_inv H as cup Hcup. bind_inv H as eup Heup.
  bind_inv H as smr Hsmr. bind_inv H as sms Hsms.
  bind_inv H as verbosity Hv. bind_inv H as verbose Hverbose.
  bind_inv H as printed Hprinted. bind_inv H as d Hd.
  bind_inv H as seed Hseed. bind_inv H as chains Hchains.
  bind_inv H as verbosity' Hv'. bind_inv H as fa Hfa. bind_inv H as d' Hd'.
  injection H as <-. simpl.
  rewrite lookup_insert_ne in Heup, Hd by done.
  exists table, input, transpose, data0, frac0, names0, DPa, DP_alpha, args', d.
  repeat split; try done.
  - destruct (truthy d); [rewrite lookup_insert_ne in Hd' by done|];
      rewrite lookup_insert_ne in Hd' by done; congruence.
  - destruct (truthy d).
    + rewrite lookup_insert_eq in Hchains. congruence.
    + rewrite lookup_insert_ne in Hchains by done. by rewrite Hchains.
Qed.

(* ===================================================================== *)
(** * Error rates: fixed or learned (C1, C5, C8) *)
(* ===================================================================== *)

(** C1: when both fixed error rates are supplied (falsePositive >= 0 and
    falseNegative >= 0), the error-update probability given to the MCMC
    sampler is 0, whatever [--error_update_prob] was. *)
Theorem C1_fixed_errors_zero_update_prob (w : World) (args : gmap string value)
    (r : Run) (fp fn : value) :
  process_sim_folder w args !! "falsePositive" = Some fp →
  process_sim_folder w args !! "falseNegative" = Some fn →
  nonnegative fp = true → nonnegative fn = true →
  main w args = Ret r →
  error_prob (mcmc r) = VInt 0.
Proof.
  intros Hfp Hfn Hfp0 Hfn0 Hmain.
  apply main_inv in Hmain
    as (table & input & tr & d0 & f0 & n0 & DPa & DP & args' & d & H).
  destruct H as (_ & _ & _ & _ & _ & Hmodel & Heup & _).
  apply build_model_inv in Hmodel as (fp' & pb & Hfp' & _ & [Hfix | Hlearn]).
  - destruct Hfix as (fn' & _ & _ & _ & -> & _).
    rewrite lookup_insert_eq in Heup. congruence.
  - destruct Hlearn as ([Hneg | (fn' & Hfn' & Hneg)] & _); congruence.
Qed.

(** A run with both rates fixed and [--error_update_prob 0.9]. *)
Lemma C1_witness :
  parse_args Example.fixed_rates = Ret (Example.parsed Example.fixed_rates) ∧
  Example.parsed Example.fixed_rates !! "error_update_prob"
    = Some (VFloat (float_lit "0.9")) ∧
  main Example.world (Example.parsed Example.fixed_rates)
    = Ret (Example.ran Example.world Example.fixed_rates) ∧
  error_prob (mcmc (Example.ran Example.world Example.fixed_rates)) = VInt 0.
Proof.
  split; [apply parsed_eq; vm_compute; reflexivity|].
  split; [vm_compute; reflexivity|].
  assert (Hmain : main Example.world (Example.parsed Example.fixed_rates)
                  = Ret (Example.ran Example.world Example.fixed_rates))
    by (apply ran_eq; vm_compute; reflexivity).
  split; [exact Hmain|].
  apply (C1_fixed_errors_zero_update_prob Example.world
           (Example.parsed Example.fixed_rates)
           (Example.ran Example.world Example.fixed_rates)
           (VFloat (float_lit "0.01")) (VFloat (float_lit "0.1")));
    [vm_compute; reflexivity .. | exact Hmain].
Defined.

(** In every run that builds the fixed-error model, the FN and FP rates
    passed to it are the values of [args.falseNegative] and
    [args.falsePositive], and both are >= 0: the test of line 288 is the
    only one they meet. *)
Lemma fixed_rates_nonnegative (w : World) (args : gmap string value) (r : Run)
    (data : ndarray) (DP_alpha param_beta FN FP : value) :
  main w args = Ret r →
  model (mcmc r) = CRP data DP_alpha param_beta FN FP →
  process_sim_folder w args !! "falseNegative" = Some FN ∧
  process_sim_folder w args !! "falsePositive" = Some FP ∧
  nonnegative FN = true ∧ nonnegative FP = true.
Proof.
  intros Hmain Hcrp.
  apply main_inv in Hmain
    as (table & input & tr & d0 & f0 & n0 & DPa & DP & args' & d & H).
  destruct H as (_ & _ & _ & _ & _ & Hmodel & _).
  apply build_model_inv in Hmodel as (fp & pb & Hfp & _ & [Hfix | Hlearn]).
  - destruct Hfix as (fn & Hfn & Hfp0 & Hfn0 & _ & Hm).
    rewrite Hm in Hcrp. injection Hcrp as _ _ _ <- <-. done.
  - destruct Hlearn as (_ & _ & m1 & s1 & m2 & s2 & _ & _ & _ & _ & Hm).
    rewrite Hm in Hcrp. discriminate.
Qed.

(** C5: [-FN 5 -FP 2] and [-FN 5 -FP inf] are accepted command lines that
    select the fixed-error model: [parse_args] returns, the run returns,
    and [CRP] is given the rates 5 and 2, and 5 and infinity, none of
    which lies in [0, 1]. *)
Theorem C5_rates_above_one_reach_model :
  parse_args Example.large_rates = Ret (Example.parsed Example.large_rates) ∧
  main Example.world (Example.parsed Example.large_rates)
    = Ret (Example.ran Example.world Example.large_rates) ∧
  model (mcmc (Example.ran Example.world Example.large_rates))
    = CRP (data_used (Example.ran Example.world Example.large_rates))
          (VTuple [VFloat (F64.sub (Numpy.sqrt 2) (F64.of_Z 5)); VInt 1])
          (VList [VFloat (float_lit ".25"); VFloat (float_lit ".25")])
          (VFloat (float_lit "5")) (VFloat (float_lit "2")) ∧
  parse_args Example.unbounded_rates = Ret (Example.parsed Example.unbounded_rates) ∧
  main Example.world (Example.parsed Example.unbounded_rates)
    = Ret (Example.ran Example.world Example.unbounded_rates) ∧
  model (mcmc (Example.ran Example.world Example.unbounded_rates))
    = CRP (data_used (Example.ran Example.world Example.unbounded_rates))
          (VTuple [VFloat (F64.sub (Numpy.sqrt 2) (F64.of_Z 5)); VInt 1])
          (VList [VFloat (float_lit ".25"); VFloat (float_lit ".25")])
          (VFloat (float_lit "5")) (VFloat (F64.inf false)) ∧
  within_unit (float_lit "5") = false ∧
  within_unit (float_lit "2") = false ∧
  within_unit (F64.inf false) = false.
Proof.
  split; [apply parsed_eq; vm_compute; reflexivity|].
  split; [apply ran_eq; vm_compute; reflexivity|].
  split; [vm_compute; reflexivity|].
  split; [apply parsed_eq; vm_compute; reflexivity|].
  split; [apply ran_eq; vm_compute; reflexivity|].
  repeat split; vm_compute; reflexivity.
Qed.

(** In learned mode [build_model] reads the Beta prior options only. *)
Lemma build_model_learned (c : gmap string value) (data : ndarray) (DP_alpha : value) :
  learned_mode c →
  snd <$> build_model c data DP_alpha
  = (param_prior ← getattr c "param_prior";
     FP_mean ← getattr c "falsePositive_mean";
     FP_sd ← getattr c "falsePositive_std";
     FN_mean ← getattr c "falseNegative_mean";
     FN_sd ← getattr c "falseNegative_std";
     Ret (CRP_errors_learning data DP_alpha param_prior FP_mean FP_sd FN_mean FN_sd)).
Proof.
  intros (fp & fn & x & y & Hfp & Hfn & Hx & Hy & Hneg).
  unfold build_model. rewrite (getattr_lookup _ _ _ Hfp), (getattr_lookup _ _ _ Hfn).
  simpl. unfold py_ge. rewrite Hx, Hy. simpl.
  assert (Hsel : (if ge x (I 0) then ge y (I 0) else false) = false).
  { destruct Hneg as [Hneg | Hneg]; apply lt_zero_not_ge in Hneg; rewrite Hneg;
      [done | by destruct (ge x (I 0))]. }
  destruct (ge x (I 0)) eqn:Hgx; simpl; [rewrite Hsel|];
    unfold fmap, result_fmap, mbind, result_bind;
    repeat (destruct (getattr c _); [|done]); done.
Qed.

(** C8: when at least one of the two fixed error rates is negative, the
    model built is the one that learns the error rates, from the Beta
    prior means and standard deviations only; a namespace that differs in
    the fixed rates alone, and is in learned mode as well, yields the same
    model. *)
Theorem C8_learned_mode_ignores_fixed_rates (w : World) (args : gmap string value)
    (r : Run) :
  learned_mode (process_sim_folder w args) →
  main w args = Ret r →
  (∃ DP_alpha param_beta FP_mean FP_sd FN_mean FN_sd,
     process_sim_folder w args !! "param_prior" = Some param_beta ∧
     process_sim_folder w args !! "falsePositive_mean" = Some FP_mean ∧
     process_sim_folder w args !! "falsePositive_std" = Some FP_sd ∧
     process_sim_folder w args !! "falseNegative_mean" = Some FN_mean ∧
     process_sim_folder w args !! "falseNegative_std" = Some FN_sd ∧
     model (mcmc r) = CRP_errors_learning (data_used r) DP_alpha param_beta
                        FP_mean FP_sd FN_mean FN_sd) ∧
  (∀ b data DP_alpha,
     learned_mode b → same_but_fixed_rates (process_sim_folder w args) b →
     snd <$> build_model b data DP_alpha
     = snd <$> build_model (process_sim_folder w args) data DP_alpha).
Proof.
  intros Hlearned Hmain. split.
  - destruct Hlearned as (fp & fn & x & y & Hfp & Hfn & Hx & Hy & Hneg).
    apply main_inv in Hmain
      as (table & input & tr & d0 & f0 & n0 & DPa & DP & args' & d & H).
    destruct H as (_ & _ & _ & _ & _ & Hmodel & _).
    apply build_model_inv in Hmodel as (fp' & pb & Hfp' & Hpb & [Hfix | Hl]).
    + destruct Hfix as (fn' & Hfn' & Hfp0 & Hfn0 & _).
      assert (fp' = fp) as -> by congruence. assert (fn' = fn) as -> by congruence.
      unfold nonnegative in Hfp0, Hfn0. rewrite Hx in Hfp0. rewrite Hy in Hfn0.
      destruct Hneg as [Hneg | Hneg]; apply lt_zero_not_ge in Hneg; congruence.
    + destruct Hl as (_ & _ & m1 & s1 & m2 & s2 & H1 & H2 & H3 & H4 & Hm).
      exists DP, pb, m1, s1, m2, s2. done.
  - clear Hmain. intros b data DP_alpha Hb Hsame.
    rewrite (build_model_learned b _ _ Hb), (build_model_learned _ _ _ Hlearned).
    unfold getattr. rewrite <- !Hsame by done. done.
Qed.

(** A run with [-FN 0.3] alone: the learning model, built from the
    default Beta prior options. *)
Lemma C8_witness :
  main Example.world (Example.parsed Example.one_rate)
    = Ret (Example.ran Example.world Example.one_rate) ∧
  Example.parsed Example.one_rate !! "falseNegative"
    = Some (VFloat (float_lit "0.3")) ∧
  ∃ DP_alpha,
    model (mcmc (Example.ran Example.world Example.one_rate)) =
      CRP_errors_learning (data_used (Example.ran Example.world Example.one_rate))
        DP_alpha
        (VList [VFloat (float_lit ".25"); VFloat (float_lit ".25")])
        (VFloat (float_lit "0.01")) (VFloat (float_lit "0.01"))
        (VFloat (float_lit "0.2")) (VFloat (float_lit "0.1")).
Proof.
  assert (Hmain : main Example.world (Example.parsed Example.one_rate)
                  = Ret (Example.ran Example.world Example.one_rate))
    by (apply ran_eq; vm_compute; reflexivity).
  split; [exact Hmain|]. split; [vm_compute; reflexivity|].
  assert (Hl : learned_mode
                 (process_sim_folder Example.world (Example.parsed Example.one_rate))).
  { exists (VInt (-1)), (VFloat (float_lit "0.3")), (I (-1)), (F (float_lit "0.3")).
    repeat split; try (vm_compute; reflexivity). left. vm_compute; reflexivity. }
  destruct (C8_learned_mode_ignores_fixed_rates Example.world _ _ Hl Hmain)
    as [(DP & pb & m1 & s1 & m2 & s2 & Hpb & H1 & H2 & H3 & H4 & Hm) _].
  exists DP. rewrite Hm. f_equal.
  - apply (inj Some). rewrite <- Hpb. vm_compute; reflexivity.
  - apply (inj Some). rewrite <- H1. vm_compute; reflexivity.
  - apply (inj Some). rewrite <- H2. vm_compute; reflexivity.
  - apply (inj Some). rewrite <- H3. vm_compute; reflexivity.
  - apply (inj Some). rewrite <- H4. vm_compute; reflexivity.
Defined.

(* ===================================================================== *)
(** * Debug mode (C7) *)
(* ===================================================================== *)

(** C7: with the debug flag set, [mcmc.run] is called with one chain,
    whatever [--chains] was, and with the debug flag, so that the single
    chain runs synchronously in the caller. *)
Theorem C7_debug_runs_one_chain (w : World) (args : gmap string value) (r : Run)
    (d : value) :
  process_sim_folder w args !! "debug" = Some d →
  truthy d = true →
  main w args = Ret r →
  n_chains (call r) = VInt 1 ∧
  debug (call r) = d ∧
  schedule_of (call r) = synchronous_in_caller.
Proof.
  intros Hd Htrue Hmain.
  apply main_inv in Hmain
    as (table & input & tr & d0 & f0 & n0 & DPa & DP & args' & d' & H).
  destruct H as (_ & _ & _ & _ & _ & Hmodel & _ & Hd' & Hdebug & Hchains).
  rewrite (build_model_keeps _ _ _ _ _ "debug" Hmodel) in Hd' by done.
  assert (d' = d) as -> by congruence.
  rewrite Htrue in Hchains. unfold schedule_of. rewrite Hdebug, Htrue. done.
Qed.

(** A run with [--debug -n 4]. *)
Lemma C7_witness :
  Example.parsed Example.debugging !! "chains" = Some (VInt 4) ∧
  Example.parsed Example.debugging !! "debug" = Some (VBool true) ∧
  main Example.world (Example.parsed Example.debugging)
    = Ret (Example.ran Example.world Example.debugging) ∧
  n_chains (call (Example.ran Example.world Example.debugging)) = VInt 1 ∧
  debug (call (Example.ran Example.world Example.debugging)) = VBool true ∧
  schedule_of (call (Example.ran Example.world Example.debugging))
    = synchronous_in_caller.
Proof.
  do 2 (split; [vm_compute; reflexivity|]).
  assert (Hmain : main Example.world (Example.parsed Example.debugging)
                  = Ret (Example.ran Example.world Example.debugging))
    by (apply ran_eq; vm_compute; reflexivity).
  split; [exact Hmain|].
  apply (C7_debug_runs_one_chain Example.world (Example.parsed Example.debugging)
           (Example.ran Example.world Example.debugging) (VBool true));
    [vm_compute; reflexivity | reflexivity | exact Hmain].
Defined.

(* ===================================================================== *)
(** * The default concentration prior (C2) *)
(* ===================================================================== *)

Lemma select_map_length {A} (f : A → bool) (l : list A) :
  length (select (map f l) l) = length (filter (λ x, f x = true) l).
Proof.
  induction l as [|x l IH]; [done|]. simpl.
  rewrite filter_cons. destruct (f x) eqn:Hfx.
  - rewrite decide_True by done. simpl. by rewrite IH.
  - rewrite decide_False by congruence. done.
Qed.

(** [cancer_cells] raises [KeyError] exactly when the column is absent,
    and counts the marked rows otherwise. *)
Lemma cancer_cells_spec (df : DataFrame) :
  cancer_cells df =
    if has_column df "Corrected" then Ret (marked_cancer df)
    else Raise (KeyError "Corrected").
Proof.
  unfold cancer_cells, getitem, marked_cancer, has_column.
  destruct (position "Corrected" (columns df)) as [j|] eqn:Hj; simpl.
  - f_equal. unfold len, where_. simpl. rewrite map_map.
    apply (select_map_length (λ r, eq_str "Cancer" (at_ j r))).
  - done.
Qed.

(** The branch of [concentration_prior] taken for a default request. *)
Lemma concentration_prior_default (DPa : value) (df : DataFrame) (data : ndarray) :
  default_requested DPa = true →
  concentration_prior DPa df data =
    Ret (if has_column df "Corrected"
         then VTuple [VFloat (F64.sub (Numpy.sqrt (Z.of_nat (marked_cancer df)))
                                      (F64.of_Z 5)); VInt 1]
         else VTuple [VFloat (Numpy.sqrt (Z.of_nat (shape data).1)); VInt 1]).
Proof.
  intros Hreq. unfold concentration_prior. rewrite cancer_cells_spec.
  assert (Hneg :
    (a ← subscript DPa 0;
     a_neg ← py_lt a (VInt 0);
     if a_neg : bool then Ret true
     else b ← subscript DPa 1; py_lt b (VInt 0)) = Ret true).
  { unfold default_requested in Hreq.
    destruct DPa as [| | | | |[|a [|b l]]|[|a [|b l]]]; try discriminate; simpl;
      unfold py_lt; simpl;
      destruct (as_num a) as [x|]; try discriminate;
      destruct (as_num b) as [y|]; try discriminate; simpl;
      destruct (lt x (I 0)) eqn:Hx; simpl; try done;
      simpl in Hreq; by rewrite Hreq. }
  destruct (subscript DPa 0) as [a|]; [|discriminate]. simpl in *.
  rewrite Hneg. simpl. by destruct (has_column df "Corrected").
Qed.

Lemma build_model_prior (args args' : gmap string value) (data : ndarray)
    (DP_alpha : value) (m : Model) :
  build_model args data DP_alpha = Ret (args', m) → prior_of m = DP_alpha.
Proof.
  intros H. apply build_model_inv in H as (fp & pb & _ & _ & [H | H]).
  - by destruct H as (fn & _ & _ & _ & _ & ->).
  - by destruct H as (_ & _ & m1 & s1 & m2 & s2 & _ & _ & _ & _ & ->).
Qed.

(** In every run with the concentration prior left at its default (a
    component of [--DPa_prior] is negative), the prior the model is built
    with is (sqrt(C) - 5, 1), C being the number of rows marked ['Cancer']
    in the [Corrected] column of the table as [main] holds it at line 279
    (without the ['Distal'] rows and the cells that were not loaded), when
    the table has that column, and (sqrt(N), 1), N being the number of
    cells of the data matrix, when it has not. *)
Lemma default_prior_of_run (w : World) (args : gmap string value) (r : Run)
    (DPa : value) :
  process_sim_folder w args !! "DPa_prior" = Some DPa →
  default_requested DPa = true →
  main w args = Ret r →
  prior_of (model (mcmc r)) =
    if has_column (ctypes_used r) "Corrected"
    then VTuple [VFloat (F64.sub
                           (Numpy.sqrt (Z.of_nat (marked_cancer (ctypes_used r))))
                           (F64.of_Z 5)); VInt 1]
    else data_only_prior (data_used r).
Proof.
  intros HDPa Hreq Hmain.
  apply main_inv in Hmain
    as (table & input & tr & d0 & f0 & n0 & DPa' & DP & args' & d & H).
  destruct H as (_ & _ & _ & HDPa' & Hprior & Hmodel & _).
  assert (DPa' = DPa) as -> by congruence.
  rewrite (build_model_prior _ _ _ _ _ Hmodel).
  rewrite (concentration_prior_default _ _ _ Hreq) in Hprior.
  unfold data_only_prior. congruence.
Qed.

(** C2: the default command line, a cell-type table with the [Corrected]
    column in which three rows are marked ['Cancer'], one of them
    ['Distal'], and three cells of data.  The prior is left at its
    default and the run returns, but the model is not built with
    (sqrt(3), 1): it is built with (sqrt(2) - 5, 1), 2 being the number of
    marked rows that [main] kept, and the first component, the shape of
    the Gamma prior, is negative. *)
Theorem C2_default_prior_on_example :
  parse_args (Example.command []) = Ret (Example.parsed (Example.command [])) ∧
  Example.parsed (Example.command []) !! "DPa_prior"
    = Some (VList [VInt (-1); VInt (-1)]) ∧
  default_requested (VList [VInt (-1); VInt (-1)]) = true ∧
  main Example.world (Example.parsed (Example.command []))
    = Ret (Example.ran Example.world (Example.command [])) ∧
  (shape (data_used (Example.ran Example.world (Example.command [])))).1 = 3%nat ∧
  marked_cancer Example.table = 3%nat ∧
  marked_cancer (ctypes_used (Example.ran Example.world (Example.command [])))
    = 2%nat ∧
  prior_of (model (mcmc (Example.ran Example.world (Example.command []))))
    = VTuple [VFloat (F64.sub (Numpy.sqrt 2) (F64.of_Z 5)); VInt 1] ∧
  prior_of (model (mcmc (Example.ran Example.world (Example.command []))))
    ≠ data_only_prior (data_used (Example.ran Example.world (Example.command []))) ∧
  lt (F (F64.sub (Numpy.sqrt 2) (F64.of_Z 5))) (I 0) = true.
Proof.
  split; [apply parsed_eq; vm_compute; reflexivity|].
  split; [vm_compute; reflexivity|]. split; [reflexivity|].
  split; [apply ran_eq; vm_compute; reflexivity|].
  do 4 (split; [vm_compute; reflexivity|]).
  split; [|vm_compute; reflexivity].
  intros H. vm_compute in H. discriminate H.
Qed.

(* ===================================================================== *)
(** * The parser, step by step *)
(* ===================================================================== *)

Lemma existsb_eqb_elem (f : string) (fs : list string) :
  existsb (String.eqb f) fs = true ↔ f ∈ fs.
Proof.
  rewrite existsb_exists. split.
  - intros (g & Hin & Heq). apply String.eqb_eq in Heq as ->.
    by apply list_elem_of_In.
  - intros Hin. exists f. split; [by apply list_elem_of_In | apply String.eqb_refl].
Qed.

Lemma find_flag_Some (p : list Argparse.Argument) (f : string) (a : Argparse.Argument) :
  Argparse.find_flag p f = Some a → a ∈ p ∧ f ∈ Argparse.flags a.
Proof.
  unfold Argparse.find_flag. intros H. apply find_some in H as [Hin Hf].
  split; [by apply list_elem_of_In | by apply existsb_eqb_elem].
Qed.

Lemma take_inv (a : Argparse.Argument) (args : list string) (st st' : Argparse.state) :
  Argparse.take a args st = Ret st' →
  ∃ v, set_by a args v ∧
       Argparse.ns st' = <[Argparse.dest a := v]> (Argparse.ns st).
Proof.
  unfold Argparse.take, set_by. destruct (Argparse.act a); try discriminate.
  - intros H. bind_inv H as v Hv. injection H as <-. eauto.
  - destruct args; [|discriminate]. intros [= <-]. eauto.
  - destruct args; [|discriminate]. intros [= <-]. eauto.
Qed.

(** One item either leaves the namespace alone or is taken by the
    declaration it names. *)
Lemma step_inv (p : list Argparse.Argument) (st st' : Argparse.state)
    (it : Argparse.item) :
  Argparse.step p st it = Ret st' →
  (Argparse.ns st' = Argparse.ns st ∧
   match it with
   | Argparse.Pos _ => True
   | Argparse.Opt f _ => Argparse.find_flag p f = None
   end) ∨
  ∃ a args v,
    a ∈ p ∧ set_by a args v ∧
    Argparse.ns st' = <[Argparse.dest a := v]> (Argparse.ns st) ∧
    match it with
    | Argparse.Pos _ => Argparse.flags a = []
    | Argparse.Opt f args' => args' = args ∧ Argparse.find_flag p f = Some a
    end.
Proof.
  unfold Argparse.step. destruct it as [s | f args].
  - destruct (List.find _ p) as [a|] eqn:Hfind; [|intros [= <-]; by left].
    intros H. apply take_inv in H as (v & Hv & Hns). right.
    apply find_some in Hfind as [Hin Hpos]. exists a, [s], v.
    repeat split; try done; [by apply list_elem_of_In|].
    by destruct (Argparse.flags a).
  - destruct (Argparse.find_flag p f) as [a|] eqn:Hfind; [|intros [= <-]; by left].
    intros H. apply take_inv in H as (v & Hv & Hns). right.
    exists a, args, v. repeat split; try done.
    by apply find_flag_Some in Hfind as [? ?].
Qed.

Lemma owns_flag (d : string) (fs : list string) (f : string) :
  owns d fs = true → f ∈ fs →
  ∃ a, Argparse.find_flag Argparse.parser f = Some a ∧ Argparse.dest a = d.
Proof.
  unfold owns. intros [H _]%andb_true_iff Hf.
  rewrite forallb_forall in H. specialize (H f).
  rewrite <- list_elem_of_In in H. specialize (H Hf).
  destruct (Argparse.find_flag _ _) as [a|]; [|discriminate].
  exists a. split; [done | by apply String.eqb_eq].
Qed.

Lemma owns_dest (d : string) (fs : list string) (a : Argparse.Argument) :
  owns d fs = true → a ∈ Argparse.parser → Argparse.dest a = d →
  Argparse.flags a ≠ [] ∧ ∀ f, f ∈ Argparse.flags a → f ∈ fs.
Proof.
  unfold owns. intros [_ H]%andb_true_iff Ha Hd.
  rewrite forallb_forall in H. specialize (H a).
  rewrite <- list_elem_of_In in H. specialize (H Ha).
  rewrite Hd, String.eqb_refl in H.
  destruct (Argparse.flags a) as [|f0 fl] eqn:Hfl; [discriminate|].
  split; [done|]. intros f Hf. rewrite forallb_forall in H.
  apply existsb_eqb_elem, H. by apply list_elem_of_In.
Qed.

Lemma mentions_cons (fs : list string) (it : Argparse.item) (argv : list Argparse.item) :
  mentions fs (it :: argv) =
    match it with
    | Argparse.Opt f _ => existsb (String.eqb f) fs
    | Argparse.Pos _ => false
    end || mentions fs argv.
Proof. reflexivity. Qed.

(** The attribute [d] after the command line is consumed: the value set
    by the last occurrence of its option, or what it was. *)
Lemma consume_dest (d : string) (fs : list string) (argv : list Argparse.item)
    (st st' : Argparse.state) :
  owns d fs = true →
  Argparse.consume Argparse.parser st argv = Ret st' →
  if mentions fs argv
  then ∃ a f args v, Argparse.Opt f args ∈ argv ∧ f ∈ fs ∧
         Argparse.find_flag Argparse.parser f = Some a ∧
         set_by a args v ∧ Argparse.ns st' !! d = Some v
  else Argparse.ns st' !! d = Argparse.ns st !! d.
Proof.
  intros Hown. revert st.
  induction argv as [|it argv IH]; intros st H; cbn [Argparse.consume] in H.
  - by injection H as <-.
  - rewrite mentions_cons. bind_inv H as st1 Hstep. specialize (IH _ H).
    destruct (mentions fs argv) eqn:Hrest.
    + rewrite orb_true_r. destruct IH as (a & f & args & v & Hin & IH).
      exists a, f, args, v. split; [by right | done].
    + rewrite orb_false_r. rewrite IH. clear IH H.
      apply step_inv in Hstep as [[-> Hnone] | (a & args & v & Ha & Hset & Hns & Hit)].
      * destruct it as [s | f args]; [done|].
        destruct (existsb _ fs) eqn:Hf; [|done].
        apply existsb_eqb_elem in Hf.
        destruct (owns_flag _ _ _ Hown Hf) as (a & Hfind & Hd). congruence.
      * rewrite Hns. destruct it as [s | f args'].
        -- rewrite lookup_insert_ne; [done|]. intros Hd.
           by destruct (owns_dest _ _ _ Hown Ha Hd) as [Hne _].
        -- destruct Hit as [-> Hfind].
           destruct (existsb _ fs) eqn:Hf.
           ++ apply existsb_eqb_elem in Hf.
              destruct (owns_flag _ _ _ Hown Hf) as (a' & Hfind' & Hd).
              assert (a' = a) as -> by congruence.
              exists a, f, args, v. rewrite <- Hd, lookup_insert_eq.
              repeat split; try done. by left.
           ++ rewrite lookup_insert_ne; [done|]. intros Hd.
              destruct (owns_dest _ _ _ Hown Ha Hd) as [_ Hsub].
              apply find_flag_Some in Hfind as [_ Hfa].
              apply Hsub, existsb_eqb_elem in Hfa. congruence.
Qed.

Lemma finish_keeps (p : list Argparse.Argument) (st : Argparse.state)
    (m m' : gmap string value) (d : string) :
  (∀ a, a ∈ p → match Argparse.default a with
                | Some (VStr _) => Argparse.dest a ≠ d
                | _ => True
                end) →
  Argparse.finish p st m = Ret m' → m' !! d = m !! d.
Proof.
  revert m. induction p as [|a p IH]; intros m Hp H; cbn [Argparse.finish] in H.
  - by injection H as <-.
  - assert (Hrest : ∀ b, b ∈ p → match Argparse.default b with
                                 | Some (VStr _) => Argparse.dest b ≠ d
                                 | _ => True
                                 end) by (intros b Hb; apply Hp; by right).
    specialize (Hp a (list_elem_of_here _ _)).
    destruct (bool_decide _); [by apply IH|].
    destruct (Argparse.required a); [discriminate|].
    destruct (Argparse.default a) as [[| | | |s| |]|]; try by apply IH.
    bind_inv H as v Hv. rewrite (IH _ Hrest H). by rewrite lookup_insert_ne.
Qed.

Lemma default_not_string_spec (d : string) :
  default_not_string d = true →
  ∀ a, a ∈ Argparse.parser → match Argparse.default a with
                             | Some (VStr _) => Argparse.dest a ≠ d
                             | _ => True
                             end.
Proof.
  unfold default_not_string. rewrite forallb_forall. intros H a Ha.
  apply list_elem_of_In, H in Ha.
  destruct (Argparse.default a) as [[| | | |s| |]|]; try done.
  intros Hd. by rewrite Hd, String.eqb_refl in Ha.
Qed.

(** The attribute [d] of a parsed namespace, for an attribute whose
    default is not a string. *)
Lemma parse_dest (d : string) (fs : list string) (argv : list Argparse.item)
    (ns : gmap string value) :
  owns d fs = true → default_not_string d = true →
  parse_args argv = Ret ns →
  if mentions fs argv
  then ∃ a f args v, Argparse.Opt f args ∈ argv ∧ f ∈ fs ∧
         Argparse.find_flag Argparse.parser f = Some a ∧
         set_by a args v ∧ ns !! d = Some v
  else ns !! d = Argparse.defaults Argparse.parser !! d.
Proof.
  intros Hown Hdef H. unfold parse_args, Argparse.parse in H.
  bind_inv H as st Hconsume. bind_inv H as m Hfinish.
  destruct (Argparse.extras st); [discriminate|]. injection H as <-.
  apply (finish_keeps _ _ _ _ d (default_not_string_spec d Hdef)) in Hfinish.
  rewrite Hfinish. apply (consume_dest d fs) in Hconsume; done.
Qed.

(* ===================================================================== *)
(** * The transpose flag (C10) *)
(* ===================================================================== *)

(** C10: [--transpose] is a [store_false] flag: a command line without it
    yields [transpose = True], a command line with [-t] or [--transpose]
    yields [transpose = False]. *)
Theorem C10_transpose_is_store_false (argv : list Argparse.item)
    (ns : gmap string value) :
  parse_args argv = Ret ns →
  ns !! "transpose" = Some (VBool (negb (mentions transpose_flags argv))).
Proof.
  intros H.
  apply (parse_dest "transpose" transpose_flags) in H; [|by vm_compute ..].
  destruct (mentions transpose_flags argv); [|by rewrite H].
  destruct H as (a & f & args & v & _ & Hf & Hfind & Hset & ->).
  unfold transpose_flags in Hf.
  repeat (apply elem_of_cons in Hf as [-> | Hf]); [| |by apply elem_of_nil in Hf];
    vm_compute in Hfind; injection Hfind as <-; cbv in Hset; by subst v.
Qed.

(** A command line without the flag and one with [-t]. *)
Lemma C10_witness :
  parse_args (Example.command [])
    = Ret (Example.parsed (Example.command [])) ∧
  parse_args (Example.command [Argparse.Opt "-t" []])
    = Ret (Example.parsed (Example.command [Argparse.Opt "-t" []])) ∧
  Example.parsed (Example.command []) !! "transpose" = Some (VBool true) ∧
  Example.parsed (Example.command [Argparse.Opt "-t" []]) !! "transpose"
    = Some (VBool false).
Proof.
  assert (H1 : parse_args (Example.command [])
               = Ret (Example.parsed (Example.command [])))
    by (apply parsed_eq; vm_compute; reflexivity).
  assert (H2 : parse_args (Example.command [Argparse.Opt "-t" []])
               = Ret (Example.parsed (Example.command [Argparse.Opt "-t" []])))
    by (apply parsed_eq; vm_compute; reflexivity).
  split; [exact H1|]. split; [exact H2|]. split.
  - exact (C10_transpose_is_store_false _ _ H1).
  - exact (C10_transpose_is_store_false _ _ H2).
Defined.

(* ===================================================================== *)
(** * Validated options (C3, C4) *)
(* ===================================================================== *)

Lemma get_value_Ret (a : Argparse.Argument) (s : string) (v : value) :
  Argparse.get_value a s = Ret v → Argparse.type a s = Ret v.
Proof.
  unfold Argparse.get_value. destruct (Argparse.type a s) as [v'|e]; [done|].
  destruct e; discriminate.
Qed.

Lemma check_value_Ret (a : Argparse.Argument) (v w : value) :
  Argparse.check_value a v = Ret w → w = v.
Proof.
  unfold Argparse.check_value.
  destruct (Argparse.choices a); [destruct (existsb _ _)|];
    (intros [= ->] || discriminate); done.
Qed.

Lemma get_values_Ret (a : Argparse.Argument) (l : list string) (vs : list value) :
  Argparse.get_values a l = Ret vs →
  ∀ s, s ∈ l → ∃ v, Argparse.type a s = Ret v.
Proof.
  revert vs. induction l as [|s0 l IH]; intros vs H s Hs.
  - by apply elem_of_nil in Hs.
  - cbn [Argparse.get_values] in H. bind_inv H as v Hv. bind_inv H as vs' Hvs.
    apply elem_of_cons in Hs as [-> | Hs]; [|by eapply IH].
    exists v. by apply get_value_Ret.
Qed.

(** A value is stored only if the converter accepts every argument
    string. *)
Lemma stored_Ret (a : Argparse.Argument) (args : list string) (v : value) :
  Argparse.stored a args = Ret v →
  ∀ s, s ∈ args → ∃ v', Argparse.type a s = Ret v'.
Proof.
  unfold Argparse.stored. intros H s Hs.
  destruct (Argparse.arity a).
  - destruct args as [|s0 [|? ?]]; try discriminate.
    apply list_elem_of_singleton in Hs as ->. bind_inv H as v' Hv'.
    exists v'. by apply get_value_Ret.
  - destruct (Nat.eqb _ _); [|discriminate].
    bind_inv H as vs Hvs. by eapply get_values_Ret.
  - destruct args as [|s0 args']; [discriminate|].
    bind_inv H as vs Hvs. by eapply get_values_Ret.
Qed.

(** The value stored by a single-valued option is the converter's. *)
Lemma stored_one (a : Argparse.Argument) (args : list string) (v : value) :
  Argparse.arity a = Argparse.one →
  Argparse.stored a args = Ret v →
  ∃ s, args = [s] ∧ Argparse.type a s = Ret v.
Proof.
  unfold Argparse.stored. intros -> H.
  destruct args as [|s [|? ?]]; try discriminate.
  bind_inv H as v' Hv'. apply check_value_Ret in H as ->.
  exists s. split; [done | by apply get_value_Ret].
Qed.

(** Every item of a consumed command line was stepped over. *)
Lemma consume_item (p : list Argparse.Argument) (argv : list Argparse.item)
    (st st' : Argparse.state) (it : Argparse.item) :
  Argparse.consume p st argv = Ret st' → it ∈ argv →
  ∃ st1 st2, Argparse.step p st1 it = Ret st2.
Proof.
  revert st. induction argv as [|it0 argv IH]; intros st H Hit.
  - by apply elem_of_nil in Hit.
  - cbn [Argparse.consume] in H. bind_inv H as st1 Hstep.
    apply elem_of_cons in Hit as [-> | Hit]; [eauto | by eapply IH].
Qed.

(** An accepted command line: each option occurrence whose option string
    is declared with action [store] has argument strings its converter
    accepts. *)
Lemma parse_accepts (argv : list Argparse.item) (ns : gmap string value)
    (f : string) (args : list string) (a : Argparse.Argument) (s : string) :
  parse_args argv = Ret ns →
  Argparse.Opt f args ∈ argv →
  Argparse.find_flag Argparse.parser f = Some a →
  Argparse.act a = Argparse.store →
  s ∈ args →
  ∃ v, Argparse.type a s = Ret v.
Proof.
  intros H Hin Hfind Hact Hs. unfold parse_args, Argparse.parse in H.
  bind_inv H as st Hconsume. clear H.
  destruct (consume_item _ _ _ _ _ Hconsume Hin) as (st1 & st2 & Hstep).
  unfold Argparse.step in Hstep. rewrite Hfind in Hstep.
  apply take_inv in Hstep as (v & Hset & _).
  unfold set_by in Hset. rewrite Hact in Hset. by eapply stored_Ret.
Qed.

(** The declarations behind the validated option strings. *)
Lemma cutoff_flag_found (f : string) :
  f ∈ cutoff_flags →
  ∃ a, Argparse.find_flag Argparse.parser f = Some a ∧
       Argparse.act a = Argparse.store ∧ Argparse.arity a = Argparse.one ∧
       Argparse.type a = Argparse.check_PSRF_cutoff.
Proof.
  unfold cutoff_flags. intros Hf.
  repeat (apply elem_of_cons in Hf as [-> | Hf]); [..|by apply elem_of_nil in Hf];
    (eexists; split; [reflexivity|]; repeat split; reflexivity).
Qed.

Lemma probability_flag_found (f : string) :
  f ∈ probability_flags →
  ∃ a, Argparse.find_flag Argparse.parser f = Some a ∧
       Argparse.act a = Argparse.store ∧
       Argparse.type a = Argparse.check_percent.
Proof.
  unfold probability_flags. intros Hf.
  repeat (apply elem_of_cons in Hf as [-> | Hf]); [..|by apply elem_of_nil in Hf];
    (eexists; split; [reflexivity|]; split; reflexivity).
Qed.

Lemma check_percent_outside (s : string) (v : spec_float) :
  PyStr.py_float s = Some v → outside_unit v = true →
  Argparse.check_percent s = Raise ArgumentTypeError.
Proof.
  intros Hs Hv. unfold Argparse.check_percent, Argparse.float_. rewrite Hs. simpl.
  unfold outside_unit in Hv. by rewrite Hv.
Qed.

Lemma check_PSRF_cutoff_outside (s : string) (v : spec_float) :
  PyStr.py_float s = Some v → outside_cutoff v = true →
  Argparse.check_PSRF_cutoff s = Raise ArgumentTypeError.
Proof.
  intros Hs Hv. unfold Argparse.check_PSRF_cutoff, Argparse.float_. rewrite Hs. simpl.
  unfold outside_cutoff in Hv. by rewrite Hv.
Qed.

Lemma check_PSRF_cutoff_Ret (s : string) (v : value) :
  Argparse.check_PSRF_cutoff s = Ret v →
  ∃ x, v = VFloat x ∧ PyStr.py_float s = Some x ∧ outside_cutoff x = false.
Proof.
  unfold Argparse.check_PSRF_cutoff, Argparse.float_, outside_cutoff.
  destruct (PyStr.py_float s) as [x|]; [|discriminate]. simpl.
  destruct (_ || _) eqn:Hout; [discriminate|]. intros [= <-]. by exists x.
Qed.

Lemma compare_minus_one (x : spec_float) :
  compare_int_float (-1) x = Some Eq → compare_int_float 1 x = Some Gt.
Proof.
  destruct x as [s|s| |s m e]; unfold compare_int_float; try discriminate.
  - by destruct s.
  - destruct (0 <=? e) eqn:He; intros Hc; apply (inj Some) in Hc; f_equal;
      apply Z.compare_eq in Hc; apply Z.compare_gt_iff.
    + lia.
    + apply Z.leb_gt in He.
      assert (Hpow : 0 < 2 ^ (- e)) by (apply Z.pow_pos_nonneg; lia). lia.
Qed.

(** A float that equals the integer -1 is below 1. *)
Lemma minus_one_outside_cutoff (x : spec_float) :
  value_eqb (VFloat x) (VInt (-1)) = true → outside_cutoff x = true.
Proof.
  change (value_eqb (VFloat x) (VInt (-1)))
    with (match CompOpp <$> compare_int_float (-1) x with
          | Some Eq => true
          | _ => false
          end).
  unfold outside_cutoff, lt.
  change (num_compare (F x) (I 1)) with (CompOpp <$> compare_int_float 1 x).
  destruct (compare_int_float (-1) x) as [[]|] eqn:Hc; try discriminate.
  by rewrite (compare_minus_one _ Hc).
Qed.

Lemma steps_taken_disabled (check : nat → option spec_float) (limit taken : nat) :
  steps_taken (VInt (-1)) check limit taken = (taken + limit)%nat.
Proof.
  revert taken. induction limit as [|limit IH]; intros taken; simpl.
  - lia.
  - destruct (check (S taken)); rewrite IH; lia.
Qed.

(** [--lugsail -1] is rejected: the validator raises on -1.0, and
    [parse_args] exits with status 2. *)
Lemma C4_counterexample :
  PyStr.py_float "-1" = Some (F64.of_Z (-1)) ∧
  Argparse.check_PSRF_cutoff "-1" = Raise ArgumentTypeError ∧
  parse_args (Example.command [Argparse.Opt "--lugsail" ["-1"]])
    = Raise (SystemExit 2).
Proof. repeat split; vm_compute; reflexivity. Qed.

(** C4 (amended): -1 is the lugsail cutoff of an accepted command line
    only as the default, when [--lugsail] is not given; with that cutoff
    the convergence diagnostic is disabled and a chain runs to its limit.
    A cutoff given on the command line is accepted only if it is neither
    below 1 nor above 1.5: it is never -1, and the diagnostic is on. *)
Theorem C4_minus_one_only_by_default (argv : list Argparse.item)
    (ns : gmap string value) :
  parse_args argv = Ret ns →
  if mentions cutoff_flags argv
  then ∃ v, ns !! "lugsail" = Some (VFloat v) ∧ outside_cutoff v = false ∧
            diagnostic_disabled (VFloat v) = false
  else ns !! "lugsail" = Some (VInt (-1)) ∧
       diagnostic_disabled (VInt (-1)) = true ∧
       ∀ check limit, steps_taken (VInt (-1)) check limit 0 = limit.
Proof.
  intros H.
  apply (parse_dest "lugsail" cutoff_flags) in H; [|by vm_compute ..].
  destruct (mentions cutoff_flags argv).
  - destruct H as (a & f & args & v & _ & Hf & Hfind & Hset & ->).
    assert (Hv : ∃ s, Argparse.check_PSRF_cutoff s = Ret v).
    { destruct (cutoff_flag_found f Hf) as (a' & Hfind' & Hact & Harity & Htype).
      assert (a' = a) as -> by congruence.
      unfold set_by in Hset. rewrite Hact in Hset.
      destruct (stored_one _ _ _ Harity Hset) as (s & _ & Hs).
      exists s. by rewrite Htype in Hs. }
    destruct Hv as (s & Hv). apply check_PSRF_cutoff_Ret in Hv as (x & -> & _ & Hx).
    exists x. repeat split; [done|].
    unfold diagnostic_disabled.
    destruct (value_eqb (VFloat x) (VInt (-1))) eqn:Heq; [|done].
    apply minus_one_outside_cutoff in Heq. congruence.
  - rewrite H. repeat split. intros check limit. apply steps_taken_disabled.
Qed.

(** A command line without [--lugsail] and one with [-ls 1.05]. *)
Lemma C4_witness :
  parse_args (Example.command [])
    = Ret (Example.parsed (Example.command [])) ∧
  parse_args (Example.command [Argparse.Opt "-ls" ["1.05"]])
    = Ret (Example.parsed (Example.command [Argparse.Opt "-ls" ["1.05"]])) ∧
  Example.parsed (Example.command []) !! "lugsail" = Some (VInt (-1)) ∧
  ∃ v, Example.parsed (Example.command [Argparse.Opt "-ls" ["1.05"]]) !! "lugsail"
         = Some (VFloat v) ∧
       diagnostic_disabled (VFloat v) = false.
Proof.
  assert (H1 : parse_args (Example.command [])
               = Ret (Example.parsed (Example.command [])))
    by (apply parsed_eq; vm_compute; reflexivity).
  assert (H2 : parse_args (Example.command [Argparse.Opt "-ls" ["1.05"]])
               = Ret (Example.parsed (Example.command [Argparse.Opt "-ls" ["1.05"]])))
    by (apply parsed_eq; vm_compute; reflexivity).
  split; [exact H1|]. split; [exact H2|]. split.
  - exact (proj1 (C4_minus_one_only_by_default _ _ H1)).
  - destruct (C4_minus_one_only_by_default _ _ H2) as (v & Hv & _ & Hd).
    exists v. split; [exact Hv | exact Hd].
Defined.

(* ===================================================================== *)
(** ** The parser fails by exiting *)
(* ===================================================================== *)

Lemma float_benign (s : string) (e : exn) :
  Argparse.float_ s = Raise e → e = ValueError.
Proof.
  unfold Argparse.float_. destruct (PyStr.py_float s); [discriminate|].
  by intros [= <-].
Qed.

Lemma benign_str : benign Argparse.str.
Proof. intros s e. discriminate. Qed.

Lemma benign_int : benign Argparse.int.
Proof.
  intros s e. unfold Argparse.int. destruct (PyStr.py_int s); [discriminate|].
  intros [= <-]. auto.
Qed.

Lemma benign_float : benign Argparse.float.
Proof.
  intros s e. unfold Argparse.float.
  destruct (Argparse.float_ s) eqn:Hf; [discriminate|].
  intros [= <-]. apply float_benign in Hf. auto.
Qed.

Lemma benign_check_ratio : benign Argparse.check_ratio.
Proof.
  intros s e. unfold Argparse.check_ratio.
  destruct (Argparse.float_ s) as [v|e'] eqn:Hf; simpl.
  - destruct (_ || _); [intros [= <-]; auto | discriminate].
  - intros [= <-]. apply float_benign in Hf. auto.
Qed.

Lemma benign_check_percent : benign Argparse.check_percent.
Proof.
  intros s e. unfold Argparse.check_percent.
  destruct (Argparse.float_ s) as [v|e'] eqn:Hf; simpl.
  - destruct (_ || _); [intros [= <-]; auto | discriminate].
  - intros [= <-]. apply float_benign in Hf. auto.
Qed.

Lemma benign_check_PSRF_cutoff : benign Argparse.check_PSRF_cutoff.
Proof.
  intros s e. unfold Argparse.check_PSRF_cutoff.
  destruct (Argparse.float_ s) as [v|e'] eqn:Hf; simpl.
  - destruct (_ || _); [intros [= <-]; auto | discriminate].
  - intros [= <-]. apply float_benign in Hf. auto.
Qed.

Create HintDb converters.
#[local] Hint Resolve benign_str benign_int benign_float benign_check_ratio
  benign_check_percent benign_check_PSRF_cutoff : converters.

(** Every converter the parser declares is benign. *)
Lemma parser_benign : ∀ a, a ∈ Argparse.parser → benign (Argparse.type a).
Proof.
  apply Forall_forall. unfold Argparse.parser.
  repeat (apply Forall_cons; split;
          [cbn [Argparse.type Argparse.add_argument Argparse.add_flag];
           auto with converters|]).
  apply Forall_nil. done.
Qed.

Section Exits.

Variable p : list Argparse.Argument.
Hypothesis p_benign : ∀ a, a ∈ p → benign (Argparse.type a).

Lemma get_value_exits (a : Argparse.Argument) (s : string) (e : exn) :
  a ∈ p → Argparse.get_value a s = Raise e → e = SystemExit 2.
Proof.
  intros Ha. unfold Argparse.get_value, Argparse.error.
  destruct (Argparse.type a s) as [v|e'] eqn:Ht; [discriminate|].
  destruct (p_benign a Ha s e' Ht) as [-> | [-> | ->]]; congruence.
Qed.

Lemma check_value_exits (a : Argparse.Argument) (v : value) (e : exn) :
  Argparse.check_value a v = Raise e → e = SystemExit 2.
Proof.
  unfold Argparse.check_value, Argparse.error.
  destruct (Argparse.choices a); [destruct (existsb _ _)|]; congruence.
Qed.

Lemma get_values_exits (a : Argparse.Argument) (l : list string) (e : exn) :
  a ∈ p → Argparse.get_values a l = Raise e → e = SystemExit 2.
Proof.
  intros Ha. induction l as [|s l IH]; [discriminate|]. cbn [Argparse.get_values].
  destruct (Argparse.get_value a s) eqn:Hv; simpl.
  - destruct (Argparse.get_values a l); [discriminate|]. simpl.
    intros [= <-]. by apply IH.
  - intros [= <-]. by eapply get_value_exits.
Qed.

Lemma check_values_exits (a : Argparse.Argument) (l : list value) (e : exn) :
  Argparse.check_values a l = Raise e → e = SystemExit 2.
Proof.
  induction l as [|v l IH]; [discriminate|]. cbn [Argparse.check_values].
  destruct (Argparse.check_value a v) eqn:Hv; simpl.
  - destruct (Argparse.check_values a l); [discriminate|]. simpl.
    intros [= <-]. by apply IH.
  - intros [= <-]. by eapply check_value_exits.
Qed.

Lemma stored_exits (a : Argparse.Argument) (args : list string) (e : exn) :
  a ∈ p → Argparse.stored a args = Raise e → e = SystemExit 2.
Proof.
  intros Ha. unfold Argparse.stored, Argparse.error.
  assert (Hlist : (vs ← Argparse.get_values a args;
                   VList <$> Argparse.check_values a vs) = Raise e →
                  e = SystemExit 2).
  { destruct (Argparse.get_values a args) as [vs|e1] eqn:Hv; simpl.
    - destruct (Argparse.check_values a vs) eqn:Hc; [discriminate|].
      intros [= <-]. by eapply check_values_exits.
    - intros [= <-]. by eapply get_values_exits. }
  destruct (Argparse.arity a).
  - destruct args as [|s [|? ?]]; try congruence.
    destruct (Argparse.get_value a s) as [v|e1] eqn:Hv; simpl.
    + apply check_value_exits.
    + intros [= <-]. by eapply get_value_exits.
  - destruct (Nat.eqb _ _); [done | congruence].
  - destruct args as [|s args]; [congruence | done].
Qed.

Lemma take_exits (a : Argparse.Argument) (args : list string) (st : Argparse.state)
    (e : exn) :
  a ∈ p → Argparse.take a args st = Raise e → ∃ code, e = SystemExit code.
Proof.
  intros Ha. unfold Argparse.take, Argparse.error.
  destruct (Argparse.act a).
  - destruct (Argparse.stored a args) eqn:Hs; [discriminate|].
    intros [= <-]. exists 2. by eapply stored_exits.
  - destruct args; intros [= <-]; eauto.
  - destruct args; intros [= <-]; eauto.
  - intros [= <-]; eauto.
  - intros [= <-]; eauto.
Qed.

Lemma step_exits (st : Argparse.state) (it : Argparse.item) (e : exn) :
  Argparse.step p st it = Raise e → ∃ code, e = SystemExit code.
Proof.
  unfold Argparse.step. destruct it as [s | f args].
  - destruct (List.find _ p) as [a|] eqn:Hfind; [|discriminate].
    apply find_some in Hfind as [Hin _]. apply take_exits. by apply list_elem_of_In.
  - destruct (Argparse.find_flag p f) as [a|] eqn:Hfind; [|discriminate].
    apply find_flag_Some in Hfind as [Hin _]. by apply take_exits.
Qed.

Lemma consume_exits (argv : list Argparse.item) (st : Argparse.state) (e : exn) :
  Argparse.consume p st argv = Raise e → ∃ code, e = SystemExit code.
Proof.
  revert st. induction argv as [|it argv IH]; intros st; [discriminate|].
  cbn [Argparse.consume].
  destruct (Argparse.step p st it) as [st1|e1] eqn:Hstep; simpl.
  - apply IH.
  - intros [= <-]. by eapply step_exits.
Qed.

End Exits.

Lemma finish_exits (p q : list Argparse.Argument) (st : Argparse.state)
    (m : gmap string value) (e : exn) :
  (∀ a, a ∈ p → benign (Argparse.type a)) →
  (∀ a, a ∈ q → a ∈ p) →
  Argparse.finish q st m = Raise e → ∃ code, e = SystemExit code.
Proof.
  intros Hp. revert m. induction q as [|a q IH]; intros m Hq; [discriminate|].
  cbn [Argparse.finish].
  assert (Hrest : ∀ b, b ∈ q → b ∈ p) by (intros b Hb; apply Hq; by right).
  destruct (bool_decide _); [by apply IH|].
  destruct (Argparse.required a); [intros [= <-]; by exists 2|].
  destruct (Argparse.default a) as [[| | | |s| |]|]; try by apply IH.
  destruct (Argparse.get_value a s) as [v|e1] eqn:Hv; simpl; [by apply IH|].
  intros [= <-]. exists 2. eapply get_value_exits; [done | | done].
  apply Hq. by left.
Qed.

Lemma parse_exits (p : list Argparse.Argument) (argv : list Argparse.item) (e : exn) :
  (∀ a, a ∈ p → benign (Argparse.type a)) →
  Argparse.parse p argv = Raise e → ∃ code, e = SystemExit code.
Proof.
  intros Hp. unfold Argparse.parse.
  destruct (Argparse.consume _ _ argv) as [st|e1] eqn:Hc; simpl.
  - destruct (Argparse.finish _ st _) as [m|e1] eqn:Hf; simpl.
    + destruct (Argparse.extras st); [|discriminate]. intros [= <-]. by exists 2.
    + intros [= <-]. by eapply (finish_exits p p).
  - intros [= <-]. by eapply consume_exits.
Qed.

(** [parse_args] either returns a namespace or exits. *)
Lemma parse_args_exits (argv : list Argparse.item) (e : exn) :
  parse_args argv = Raise e → ∃ code, e = SystemExit code.
Proof. apply parse_exits, parser_benign. Qed.

(** NaN compares neither below nor above a bound, so the validators,
    which test [val < lo or val > hi], let it through. *)
Lemma nan_passes_validators :
  Argparse.check_percent "nan" = Ret (VFloat F64.nan) ∧
  Argparse.check_PSRF_cutoff "nan" = Ret (VFloat F64.nan) ∧
  outside_unit F64.nan = false ∧ outside_cutoff F64.nan = false.
Proof. repeat split; vm_compute; reflexivity. Qed.

(** A command line that gives a probability option (burn-in,
    concentration-update, error-update, split-merge probability,
    split-merge ratios) a value that compares below 0 or above 1, or gives
    the lugsail cutoff a value that compares below 1 or above 1.5, is
    rejected by [parse_args]: the program exits there, and [main] is not
    entered. *)
Lemma compared_outside_rejected (w : World) (argv : list Argparse.item)
    (f : string) (args : list string) (s : string) (v : spec_float) :
  Argparse.Opt f args ∈ argv →
  s ∈ args →
  PyStr.py_float s = Some v →
  (f ∈ probability_flags ∧ outside_unit v = true) ∨
  (f ∈ cutoff_flags ∧ outside_cutoff v = true) →
  ∃ code, parse_args argv = Raise (SystemExit code) ∧
          run_BnpC w argv = Raise (SystemExit code).
Proof.
  intros Hin Hs Hv Hout.
  destruct (parse_args argv) as [ns|e] eqn:Hparse.
  - exfalso. destruct Hout as [[Hf Hout] | [Hf Hout]].
    + destruct (probability_flag_found f Hf) as (a & Hfind & Hact & Htype).
      destruct (parse_accepts _ _ _ _ _ _ Hparse Hin Hfind Hact Hs) as (v' & Hv').
      rewrite Htype, (check_percent_outside _ _ Hv Hout) in Hv'. discriminate.
    + destruct (cutoff_flag_found f Hf) as (a & Hfind & Hact & _ & Htype).
      destruct (parse_accepts _ _ _ _ _ _ Hparse Hin Hfind Hact Hs) as (v' & Hv').
      rewrite Htype, (check_PSRF_cutoff_outside _ _ Hv Hout) in Hv'. discriminate.
  - destruct (parse_args_exits _ _ Hparse) as (code & ->).
    exists code. split; [done|]. unfold run_BnpC. by rewrite Hparse.
Qed.

(** C3: [-b nan --lugsail nan] is an accepted command line.  NaN lies
    neither in [0, 1] nor in [1, 1.5], yet neither validator rejects it:
    [parse_args] returns a namespace that holds NaN as the burn-in
    fraction and as the cutoff, and the run goes on to the sampler. *)
Theorem C3_nan_is_accepted :
  PyStr.py_float "nan" = Some F64.nan ∧
  within_unit F64.nan = false ∧ within_cutoff F64.nan = false ∧
  parse_args Example.nan_values = Ret (Example.parsed Example.nan_values) ∧
  Example.parsed Example.nan_values !! "burn_in" = Some (VFloat F64.nan) ∧
  Example.parsed Example.nan_values !! "lugsail" = Some (VFloat F64.nan) ∧
  run_BnpC Example.world Example.nan_values
    = Ret (Example.ran Example.world Example.nan_values).
Proof.
  assert (Hparse : parse_args Example.nan_values
                   = Ret (Example.parsed Example.nan_values))
    by (apply parsed_eq; vm_compute; reflexivity).
  do 3 (split; [vm_compute; reflexivity|]). split; [exact Hparse|].
  do 2 (split; [vm_compute; reflexivity|]).
  unfold run_BnpC. rewrite Hparse. apply ran_eq. vm_compute; reflexivity.
Qed.

(* ===================================================================== *)
(** * Binary64: a quotient of two counts is positive *)
(* ===================================================================== *)

Section Digits.

Lemma digits2_log2 (p : positive) :
  Z.pos (digits2_pos p) = Z.log2 (Z.pos p) + 1.
Proof.
  assert (Hsize : ∀ q, digits2_pos q = Pos.size q).
  { induction q as [q IH|q IH|]; simpl; by rewrite ?IH. }
  destruct p as [q|q|]; simpl; rewrite ?Hsize; lia.
Qed.

Lemma digits2_bounds (p : positive) :
  2 ^ (Z.pos (digits2_pos p) - 1) ≤ Z.pos p < 2 ^ Z.pos (digits2_pos p).
Proof.
  rewrite digits2_log2. replace (Z.log2 (Z.pos p) + 1 - 1) with (Z.log2 (Z.pos p)) by lia.
  apply Z.log2_spec. lia.
Qed.

Lemma digits2_mono (p q : positive) :
  Z.pos p ≤ Z.pos q → Z.pos (digits2_pos p) ≤ Z.pos (digits2_pos q).
Proof.
  intros H. rewrite !digits2_log2. apply Z.log2_le_mono in H. lia.
Qed.

(** A lower bound on the value bounds the number of digits from below. *)
Lemma digits2_lower (p : positive) (k : Z) :
  0 ≤ k → 2 ^ k ≤ Z.pos p → k + 1 ≤ Z.pos (digits2_pos p).
Proof.
  intros Hk H. rewrite digits2_log2.
  apply Z.log2_le_pow2 in H; lia.
Qed.

Lemma digits2_iter_xO (p : positive) (k : positive) :
  Z.pos (digits2_pos (Pos.iter xO p k)) = Z.pos (digits2_pos p) + Z.pos k.
Proof.
  revert p. induction k as [|k IH] using Pos.peano_ind; intros p.
  - simpl. lia.
  - rewrite Pos.iter_succ. simpl. rewrite Pos2Z.inj_succ, IH. lia.
Qed.

End Digits.

Section Rounding.

Lemma iter_pos_nat {A} (f : A → A) (n : positive) (x : A) :
  SpecFloat.iter_pos f n x = Nat.iter (Pos.to_nat n) f x.
Proof.
  revert x. induction n as [n IH|n IH|]; intros x; cbn [SpecFloat.iter_pos].
  - rewrite !IH, Pos2Nat.inj_xI.
    replace (S (2 * Pos.to_nat n)) with (Pos.to_nat n + S (Pos.to_nat n))%nat by lia.
    by rewrite Nat.iter_add, Nat.iter_succ_r.
  - rewrite !IH, Pos2Nat.inj_xO.
    replace (2 * Pos.to_nat n)%nat with (Pos.to_nat n + Pos.to_nat n)%nat by lia.
    by rewrite Nat.iter_add.
  - done.
Qed.

(** Shifting a positive mantissa right by fewer places than it has
    digits leaves a positive mantissa with that many digits less. *)
Lemma shr_iter (k : nat) (r : shr_record) (q : positive) :
  shr_m r = Z.pos q → Z.of_nat k < Z.pos (digits2_pos q) →
  ∃ q', shr_m (Nat.iter k shr_1 r) = Z.pos q' ∧
        Z.pos (digits2_pos q') = Z.pos (digits2_pos q) - Z.of_nat k.
Proof.
  intros Hr. induction k as [|k IH]; intros Hk.
  - exists q. split; [done | lia].
  - destruct IH as (q1 & Hq1 & Hd1); [lia|]. simpl.
    destruct (Nat.iter k shr_1 r) as [m1 r1 s1]. simpl in Hq1. subst m1.
    destruct q1 as [q2|q2|]; simpl in *.
    + exists q2. split; [done | lia].
    + exists q2. split; [done | lia].
    + lia.
Qed.

Lemma shr_m_of_loc (m : Z) (l : location) : shr_m (shr_record_of_loc m l) = m.
Proof. by destruct l as [|[]]. Qed.

Lemma fexp_below (D : Z) :
  emin F64.prec F64.emax < D → fexp F64.prec F64.emax D < D.
Proof. unfold fexp, emin, F64.prec, F64.emax. lia. Qed.

(** [shr_fexp] on a positive mantissa above the underflow threshold
    keeps the mantissa positive and the magnitude unchanged. *)
Lemma shr_fexp_pos (q : positive) (e : Z) (l : location) :
  emin F64.prec F64.emax < Z.pos (digits2_pos q) + e →
  ∃ r e1 q1,
    shr_fexp F64.prec F64.emax (Z.pos q) e l = (r, e1) ∧
    shr_m r = Z.pos q1 ∧
    Z.pos (digits2_pos q1) + e1 = Z.pos (digits2_pos q) + e.
Proof.
  intros HD. apply fexp_below in HD. unfold shr_fexp, shr. simpl Zdigits2.
  destruct (fexp F64.prec F64.emax (Z.pos (digits2_pos q) + e) - e)
    as [|n|n] eqn:Hn.
  - exists (shr_record_of_loc (Z.pos q) l), e, q. by rewrite shr_m_of_loc.
  - rewrite iter_pos_nat.
    destruct (shr_iter (Pos.to_nat n) (shr_record_of_loc (Z.pos q) l) q)
      as (q1 & Hq1 & Hd1); [apply shr_m_of_loc | rewrite positive_nat_Z; lia |].
    rewrite positive_nat_Z in Hd1.
    eexists _, _, q1. split; [reflexivity|]. split; [done | lia].
  - exists (shr_record_of_loc (Z.pos q) l), e, q. by rewrite shr_m_of_loc.
Qed.

Lemma round_nearest_even_pos (q : positive) (l : location) :
  ∃ q1, round_nearest_even (Z.pos q) l = Z.pos q1 ∧ Z.pos q ≤ Z.pos q1.
Proof.
  destruct l as [|[]]; unfold round_nearest_even.
  - exists q. lia.
  - destruct (Z.even (Z.pos q)); [exists q | exists (q + 1)%positive]; lia.
  - exists q. lia.
  - exists (q + 1)%positive. lia.
Qed.

(** Rounding a positive mantissa above the underflow threshold gives a
    positive number: finite, or plus infinity on overflow. *)
Lemma binary_round_aux_pos (q : positive) (e : Z) (l : location) :
  emin F64.prec F64.emax < Z.pos (digits2_pos q) + e →
  (∃ m' e', binary_round_aux F64.prec F64.emax false (Z.pos q) e l
            = S754_finite false m' e')
  ∨ binary_round_aux F64.prec F64.emax false (Z.pos q) e l = S754_infinity false.
Proof.
  intros HD. unfold binary_round_aux.
  destruct (shr_fexp_pos q e l HD) as (r1 & e1 & q1 & -> & Hq1 & Hd1).
  rewrite Hq1.
  destruct (round_nearest_even_pos q1 (loc_of_shr_record r1)) as (q2 & -> & Hle).
  apply digits2_mono in Hle.
  destruct (shr_fexp_pos q2 e1 loc_Exact) as (r3 & e3 & q3 & -> & -> & _); [lia|].
  destruct (e3 <=? F64.emax - F64.prec); eauto.
Qed.

End Rounding.

Section Quotient.

(** A mantissa of 53 digits with an exponent in range is not rounded. *)
Lemma binary_round_aux_exact (m : positive) (e : Z) :
  Z.pos (digits2_pos m) = 53 → -1074 ≤ e ≤ 971 →
  binary_round_aux F64.prec F64.emax false (Z.pos m) e loc_Exact
  = S754_finite false m e.
Proof.
  intros Hd He.
  assert (Hshift : fexp F64.prec F64.emax (Z.pos (digits2_pos m) + e) - e = 0).
  { rewrite Hd. unfold fexp, emin, F64.prec, F64.emax. lia. }
  unfold binary_round_aux, shr_fexp. cbn [Zdigits2]. rewrite Hshift.
  cbn [shr shr_record_of_loc shr_m loc_of_shr_record round_nearest_even Zdigits2].
  rewrite Hshift. cbn [shr shr_record_of_loc shr_m].
  unfold F64.prec, F64.emax.
  destruct (e <=? 1024 - 53) eqn:Hle; [done|]. apply Z.leb_gt in Hle. lia.
Qed.

(** [float(c)] for a count [c] below 2^53: no rounding takes place, and
    the magnitude is the number of binary digits of [c]. *)
Lemma of_Z_count (c : positive) :
  Z.pos c < 2 ^ 53 →
  ∃ m e, F64.of_Z (Z.pos c) = S754_finite false m e ∧
         Z.pos (digits2_pos m) + e = Z.pos (digits2_pos c).
Proof.
  intros Hc.
  assert (Hd : Z.pos (digits2_pos c) ≤ 53).
  { destruct (digits2_bounds c) as [Hlow _].
    destruct (Z.le_gt_cases (Z.pos (digits2_pos c)) 53) as [|Hgt]; [done|].
    assert (2 ^ 53 ≤ 2 ^ (Z.pos (digits2_pos c) - 1))
      by (apply Z.pow_le_mono_r; lia). lia. }
  unfold F64.of_Z, binary_normalize, binary_round.
  assert (Hf : fexp F64.prec F64.emax (Z.pos (digits2_pos c) + 0)
               = Z.pos (digits2_pos c) - 53).
  { unfold fexp, emin, F64.prec, F64.emax. lia. }
  rewrite Hf. unfold shl_align.
  destruct (Z.pos (digits2_pos c) - 53 - 0) as [|k|k] eqn:Hk; try lia.
  - exists c, 0. split; [|lia]. apply binary_round_aux_exact; lia.
  - exists (Pos.iter xO c k), (Z.pos (digits2_pos c) - 53).
    pose proof (digits2_iter_xO c k) as Hdk.
    split; [|lia]. apply binary_round_aux_exact; lia.
Qed.

(** The integer quotient computed by the division is positive and above
    the underflow threshold when the magnitudes of the operands are not
    too far apart. *)
Lemma SFdiv_core_pos (mx my : positive) (ex ey : Z) :
  -1021 ≤ (Z.pos (digits2_pos mx) + ex) - (Z.pos (digits2_pos my) + ey) →
  ∃ q e l,
    SFdiv_core_binary F64.prec F64.emax (Z.pos mx) ex (Z.pos my) ey = (Z.pos q, e, l) ∧
    emin F64.prec F64.emax < Z.pos (digits2_pos q) + e.
Proof.
  intros HK. unfold SFdiv_core_binary. cbn [Zdigits2].
  set (dx := Z.pos (digits2_pos mx)) in *. set (dy := Z.pos (digits2_pos my)) in *.
  set (e' := Z.min (fexp F64.prec F64.emax (dx + ex - (dy + ey))) (ex - ey)).
  assert (He' : e' ≤ ex - ey ∧ e' ≤ dx + ex - (dy + ey) - 53).
  { unfold e', fexp, emin, F64.prec, F64.emax. lia. }
  set (s := ex - ey - e'). assert (Hs : 0 ≤ s ∧ 53 - dx + dy ≤ s) by (unfold s; lia).
  set (m' := match s with
             | 0 => Z.pos mx
             | Z.pos _ => Z.shiftl (Z.pos mx) s
             | Z.neg _ => 0
             end).
  assert (Hm' : m' = Z.pos mx * 2 ^ s).
  { unfold m'. destruct s as [|k|k] eqn:Hsk; [lia | | lia].
    by rewrite Z.shiftl_mul_pow2. }
  pose proof (digits2_bounds mx) as Hx. pose proof (digits2_bounds my) as Hy.
  fold dx in Hx. fold dy in Hy.
  set (t := dx - 1 + s - dy). assert (Ht : 52 ≤ t) by (unfold t; lia).
  assert (Hq : 2 ^ t ≤ m' / Z.pos my).
  { apply Z.div_le_lower_bound; [lia|]. rewrite Hm'.
    assert (Hpow : 2 ^ (dx - 1 + s) = 2 ^ dy * 2 ^ t).
    { rewrite <- Z.pow_add_r by lia. f_equal. unfold t. lia. }
    assert (2 ^ (dx - 1 + s) ≤ Z.pos mx * 2 ^ s).
    { rewrite Z.pow_add_r by lia. apply Z.mul_le_mono_nonneg_r; [|lia].
      apply Z.pow_nonneg. lia. }
    assert (Z.pos my * 2 ^ t ≤ 2 ^ dy * 2 ^ t).
    { apply Z.mul_le_mono_nonneg_r; [apply Z.pow_nonneg|]; lia. }
    lia. }
  assert (Hpos : 0 < 2 ^ t) by (apply Z.pow_pos_nonneg; lia).
  unfold Z.div in Hq. destruct (Z.div_eucl m' (Z.pos my)) as [q r].
  simpl in Hq. destruct q as [|q|q]; try lia.
  exists q, e', (new_location (Z.pos my) r). split; [done|].
  pose proof (digits2_lower q t ltac:(lia) Hq) as Hdq.
  unfold emin, F64.prec, F64.emax. unfold t, s in Hdq. lia.
Qed.

Lemma zero_lt_finite (m : positive) (e : Z) :
  lt (I 0) (F (S754_finite false m e)) = true.
Proof.
  unfold lt, num_compare, compare_int_float. destruct (0 <=? e) eqn:He.
  - apply Z.leb_le in He.
    assert (Hpos : 0 < Z.pos m * 2 ^ e)
      by (apply Z.mul_pos_pos; [lia | apply Z.pow_pos_nonneg; lia]).
    apply Z.compare_lt_iff in Hpos. by rewrite Hpos.
  - done.
Qed.

(** The quotient of two positive counts below 2^53 is a positive float. *)
Lemma div_counts_pos (c n : positive) :
  Z.pos c < 2 ^ 53 → Z.pos n < 2 ^ 53 →
  gt (F (F64.div (F64.of_Z (Z.pos c)) (F64.of_Z (Z.pos n)))) (I 0) = true.
Proof.
  intros Hc Hn.
  destruct (of_Z_count c Hc) as (mx & ex & -> & Hx).
  destruct (of_Z_count n Hn) as (my & ey & -> & Hy).
  pose proof (digits2_bounds c) as Hdc. pose proof (digits2_bounds n) as Hdn.
  assert (Hc53 : Z.pos (digits2_pos c) ≤ 53).
  { destruct (Z.le_gt_cases (Z.pos (digits2_pos c)) 53) as [|Hgt]; [done|].
    assert (2 ^ 53 ≤ 2 ^ (Z.pos (digits2_pos c) - 1))
      by (apply Z.pow_le_mono_r; lia). lia. }
  assert (Hn53 : Z.pos (digits2_pos n) ≤ 53).
  { destruct (Z.le_gt_cases (Z.pos (digits2_pos n)) 53) as [|Hgt]; [done|].
    assert (2 ^ 53 ≤ 2 ^ (Z.pos (digits2_pos n) - 1))
      by (apply Z.pow_le_mono_r; lia). lia. }
  destruct (SFdiv_core_pos mx my ex ey) as (q & e & l & Hcore & Hmag); [lia|].
  unfold F64.div, SFdiv. rewrite Hcore. cbn [xorb].
  destruct (binary_round_aux_pos q e l Hmag) as [(m' & e' & ->) | ->].
  - apply zero_lt_finite.
  - done.
Qed.

End Quotient.

(* ===================================================================== *)
(** * Sites without data (C9) *)
(* ===================================================================== *)

Lemma count_true_cons (b : bool) (l : list bool) :
  count_true (b :: l) = ((if b then 1 else 0) + count_true l)%nat.
Proof.
  unfold count_true. rewrite filter_cons. destruct b.
  - by rewrite decide_True.
  - by rewrite decide_False.
Qed.

Lemma count_true_le (l : list bool) : (count_true l ≤ length l)%nat.
Proof.
  induction l as [|b l IH]; [done|]. rewrite count_true_cons. simpl.
  destruct b; lia.
Qed.

(** No entry passes the test exactly when the count is zero. *)
Lemma count_true_zero {A} (f : A → bool) (l : list A) :
  forallb (λ x, negb (f x)) l = negb (Nat.ltb 0 (count_true (map f l))).
Proof.
  induction l as [|x l IH]; [done|]. cbn [forallb map]. rewrite count_true_cons, IH.
  destruct (f x); simpl; [done|]. by destruct (count_true (map f l)).
Qed.

Lemma select_length {A} (mask : list bool) (l : list A) :
  length mask = length l → length (select mask l) = count_true mask.
Proof.
  revert l. induction mask as [|b mask IH]; intros [|x l] Hlen; try done.
  rewrite count_true_cons. simpl in *. destruct b; simpl; rewrite IH; lia.
Qed.

(** The mean of the finiteness tests of a column is positive exactly
    when the column has a finite entry. *)
Lemma mean_positive (c n : nat) :
  (c ≤ n)%nat → Z.of_nat n < 2 ^ 53 →
  gt (F (F64.div (F64.of_Z (Z.of_nat c)) (F64.of_Z (Z.of_nat n)))) (I 0)
  = Nat.ltb 0 c.
Proof.
  intros Hcn Hn.
  assert (Hsucc : ∀ k, Z.of_nat (S k) = Z.pos (Pos.of_succ_nat k)) by (intros; lia).
  destruct c as [|c].
  - change (F64.of_Z (Z.of_nat 0)) with (S754_zero false).
    destruct n as [|n]; [done|]. rewrite Hsucc in *.
    by destruct (of_Z_count (Pos.of_succ_nat n) Hn) as (m & e & -> & _).
  - destruct n as [|n]; [lia|]. rewrite !Hsucc in *.
    apply div_counts_pos; lia.
Qed.

Lemma mask_informative (data : ndarray) :
  well_formed data → Z.of_nat (shape data).1 < 2 ^ 53 →
  gt_zero (isfinite_mean_axis0 data) = informative data.
Proof.
  intros [Hrows _] Hn. unfold gt_zero, isfinite_mean_axis0, informative.
  rewrite map_map. apply map_ext. intros j.
  rewrite mean_positive; [| |done].
  - unfold all_missing. by rewrite count_true_zero, negb_involutive.
  - rewrite <- Hrows. etransitivity; [apply count_true_le|].
    unfold column. by rewrite !length_map.
Qed.

Lemma select_kept {A} (mask : list bool) (r : list A) (j : nat) :
  length r = length mask → select mask r !! j = kept mask j ≫= (r !!.).
Proof.
  revert r j. induction mask as [|b mask IH]; intros [|x r] j Hlen; try done.
  injection Hlen as Hlen. destruct b; simpl.
  - destruct j as [|j]; [done|]. simpl. rewrite (IH _ _ Hlen).
    by destruct (kept mask j).
  - rewrite (IH _ _ Hlen). by destruct (kept mask j).
Qed.

Lemma kept_true (mask : list bool) (j i : nat) :
  kept mask j = Some i → mask !! i = Some true.
Proof.
  revert j i. induction mask as [|b mask IH]; intros j i; [done|]. simpl.
  destruct b.
  - destruct j as [|j]; [by intros [= <-]|].
    destruct (kept mask j) as [i'|] eqn:Hk; [|done]. intros [= <-]. by eapply IH.
  - destruct (kept mask j) as [i'|] eqn:Hk; [|done]. intros [= <-]. by eapply IH.
Qed.

Lemma kept_Some (mask : list bool) (j : nat) :
  (j < count_true mask)%nat → is_Some (kept mask j).
Proof.
  revert j. induction mask as [|b mask IH]; intros j; [by inversion 1|].
  rewrite count_true_cons. simpl. destruct b.
  - destruct j as [|j]; [by eexists|]. intros Hj.
    destruct (IH j) as [i ->]; [lia | by eexists].
  - intros Hj. destruct (IH j) as [i ->]; [lia | by eexists].
Qed.

(** A column of the filtered array is the column of the array it comes
    from. *)
Lemma column_take (a : ndarray) (mask : list bool) (j i : nat) :
  well_formed a → length mask = (shape a).2 → kept mask j = Some i →
  column (mkArray ((shape a).1, count_true mask) (map (select mask) (entries a))) j
  = column a i.
Proof.
  intros [_ Hcols] Hlen Hk. unfold column. simpl. rewrite map_map.
  apply map_ext_Forall. eapply Forall_impl; [exact Hcols|].
  intros r Hr. simpl in *. rewrite select_kept by congruence. by rewrite Hk.
Qed.

Lemma informative_lookup (a : ndarray) (i : nat) :
  informative a !! i = Some true → all_missing a i = false.
Proof.
  unfold informative. rewrite list_lookup_fmap.
  destruct (seq 0 (shape a).2 !! i) as [i'|] eqn:Hi; [|done].
  apply lookup_seq in Hi as [-> _]. simpl. intros [= H].
  by apply negb_true_iff in H.
Qed.

(** What [relevant_mutations] returns on a rectangular matrix: the three
    arguments filtered by the mask of the sites with a finite entry; no
    site of the result is missing in every cell, and the three have the
    same number of columns. *)
Lemma relevant_mutations_informative (data frac : ndarray)
    (names : list string * list string) (data' frac' : ndarray)
    (names' : list string * list string) :
  well_formed data →
  Z.of_nat (shape data).1 < 2 ^ 53 →
  relevant_mutations data frac names = Ret (data', frac', names') →
  data' = mkArray ((shape data).1, count_true (informative data))
                  (map (select (informative data)) (entries data)) ∧
  frac' = mkArray ((shape frac).1, count_true (informative data))
                  (map (select (informative data)) (entries frac)) ∧
  names' = (names.1, select (informative data) names.2) ∧
  (∀ j, (j < (shape data').2)%nat → all_missing data' j = false) ∧
  (shape data').2 = (shape frac').2 ∧
  (shape frac').2 = length names'.2.
Proof.
  intros Hwf Hn H. unfold relevant_mutations in H.
  rewrite (mask_informative _ Hwf Hn) in H.
  bind_inv H as d1 Hd. bind_inv H as f1 Hf. bind_inv H as n1 Hnames.
  injection H as <- <- <-.
  unfold take_columns in Hd, Hf. unfold take_items in Hnames.
  destruct (Nat.eqb _ (shape data).2) eqn:Hmask; [|discriminate].
  apply Nat.eqb_eq in Hmask.
  destruct (Nat.eqb _ (shape frac).2); [|discriminate].
  destruct (Nat.eqb _ (length names.2)) eqn:Hlen; [|discriminate].
  injection Hd as <-. injection Hf as <-. injection Hnames as <-.
  apply Nat.eqb_eq in Hlen. repeat split.
  - simpl. intros j Hj. destruct (kept_Some _ _ Hj) as [i Hi].
    unfold all_missing. rewrite (column_take data _ j i Hwf); [|by rewrite Hmask|done].
    apply (informative_lookup data i). by eapply kept_true.
  - simpl. by rewrite select_length.
Qed.

Lemma build_model_data (args args' : gmap string value) (data : ndarray)
    (DP_alpha : value) (m : Model) :
  build_model args data DP_alpha = Ret (args', m) → data_of m = data.
Proof.
  intros H. apply build_model_inv in H as (fp & pb & _ & _ & [H | H]).
  - by destruct H as (fn & _ & _ & _ & _ & ->).
  - by destruct H as (_ & _ & m1 & s1 & m2 & s2 & _ & _ & _ & _ & ->).
Qed.

(** What a returning [main] loaded, filtered and built the model on. *)
Lemma main_loaded (w : World) (args : gmap string value) (r : Run) :
  main w args = Ret r →
  ∃ c raw table input transpose data frac names,
    args !! "ctypes" = Some c ∧ read_csv w c None = Ret raw ∧
    prepare_ctypes raw = Ret table ∧
    process_sim_folder w args !! "input" = Some input ∧
    process_sim_folder w args !! "transpose" = Some transpose ∧
    load_data w input table transpose = Ret (data, frac, names) ∧
    relevant_mutations data frac names
      = Ret (data_used r, data_frac_used r, names_used r) ∧
    data_of (model (mcmc r)) = data_used r.
Proof.
  intros H. unfold main in H.
  bind_inv H as ctypes Hctypes. bind_inv H as raw Hraw.
  bind_inv H as table Htable. bind_inv H as scDNA HscDNA.
  bind_inv H as scDNA_df Hsc.
  bind_inv H as input Hinput. bind_inv H as transpose Htranspose.
  bind_inv H as [[data0 frac0] names0] Hload.
  bind_inv H as ctypes_df Hkeep.
  bind_inv H as [[data frac] names] Hrel.
  bind_inv H as DPa HDPa. bind_inv H as DP_alpha HDP.
  bind_inv H as [args' BnpC] Hmodel.
  bind_inv H as [run_var run_str] Hterm.
  bind_inv H as smp Hsmp. bind_inv H as cup Hcup. bind_inv H as eup Heup.
  bind_inv H as smr Hsmr. bind_inv H as sms Hsms.
  bind_inv H as verbosity Hv. bind_inv H as verbose Hverbose.
  bind_inv H as printed Hprinted. bind_inv H as d Hd.
  bind_inv H as seed Hseed. bind_inv H as chains Hchains.
  bind_inv H as verbosity' Hv'. bind_inv H as fa Hfa. bind_inv H as d' Hd'.
  injection H as <-. cbn.
  apply build_model_data in Hmodel.
  by exists ctypes, raw, table, input, transpose, data0, frac0, names0.
Qed.

(** C9: in every run, the matrix the model is constructed on is the
    matrix [load_data] returned (line 265) without the sites whose entries
    are all missing: it is that matrix filtered by the mask of the sites
    with a finite entry, and none of its sites is missing in every cell.
    The fraction matrix and the mutation names that the run goes on with
    are filtered by the same mask, and the three have the same number of
    columns. *)
Theorem C9_sites_without_data_removed (w : World) (args : gmap string value)
    (r : Run) :
  loads_arrays w →
  main w args = Ret r →
  ∃ c raw table input transpose data frac names,
    args !! "ctypes" = Some c ∧ read_csv w c None = Ret raw ∧
    prepare_ctypes raw = Ret table ∧
    process_sim_folder w args !! "input" = Some input ∧
    process_sim_folder w args !! "transpose" = Some transpose ∧
    load_data w input table transpose = Ret (data, frac, names) ∧
    data_of (model (mcmc r))
      = mkArray ((shape data).1, count_true (informative data))
                (map (select (informative data)) (entries data)) ∧
    (∀ j, (j < (shape (data_of (model (mcmc r)))).2)%nat →
          all_missing (data_of (model (mcmc r))) j = false) ∧
    data_used r = data_of (model (mcmc r)) ∧
    data_frac_used r
      = mkArray ((shape frac).1, count_true (informative data))
                (map (select (informative data)) (entries frac)) ∧
    names_used r = (names.1, select (informative data) names.2) ∧
    (shape (data_of (model (mcmc r)))).2 = (shape (data_frac_used r)).2 ∧
    (shape (data_frac_used r)).2 = length (names_used r).2.
Proof.
  intros Hw Hmain.
  apply main_loaded in Hmain
    as (c & raw & table & input & tr & d0 & f0 & n0
        & Hc & Hraw & Hprep & Hinput & Htr & Hload & Hrel & Hmodel).
  destruct (Hw _ _ _ _ _ _ Hload) as [Hwf Hn].
  destruct (relevant_mutations_informative _ _ _ _ _ _ Hwf Hn Hrel)
    as (Hd & Hf & Hnames & Hall & Hdf & Hfn).
  exists c, raw, table, input, tr, d0, f0, n0. rewrite Hmodel.
  do 6 (split; [done|]). split; [exact Hd|]. split; [exact Hall|].
  split; [reflexivity|]. split; [exact Hf|]. split; [exact Hnames|].
  split; [exact Hdf | exact Hfn].
Qed.

(** The default run on three cells and three sites, the second site
    missing in every cell: the model is built on the two other sites. *)
Lemma C9_witness :
  loads_arrays Example.world ∧
  main Example.world (Example.parsed (Example.command []))
    = Ret (Example.ran Example.world (Example.command [])) ∧
  informative Example.matrix = [true; false; true] ∧
  data_of (model (mcmc (Example.ran Example.world (Example.command []))))
    = Example.kept_matrix ∧
  data_frac_used (Example.ran Example.world (Example.command []))
    = Example.kept_matrix ∧
  names_used (Example.ran Example.world (Example.command [])) = Example.kept_names ∧
  ∀ j, (j < 2)%nat →
       all_missing
         (data_of (model (mcmc (Example.ran Example.world (Example.command []))))) j
       = false.
Proof.
  assert (Hw : loads_arrays Example.world).
  { intros input table transpose data frac names [= <- _ _].
    split; [|reflexivity]. split; [reflexivity|]. repeat constructor. }
  assert (Hmain : main Example.world (Example.parsed (Example.command []))
                  = Ret (Example.ran Example.world (Example.command [])))
    by (apply ran_eq; vm_compute; reflexivity).
  split; [exact Hw|]. split; [exact Hmain|]. split; [vm_compute; reflexivity|].
  destruct (C9_sites_without_data_removed _ _ _ Hw Hmain)
    as (c & raw & table & input & tr & data & frac & names
        & _ & _ & _ & _ & _ & Hload & Hd & Hall & _ & Hf & Hn & _).
  injection Hload as <- <- <-.
  split; [rewrite Hd; vm_compute; reflexivity|].
  split; [rewrite Hf; vm_compute; reflexivity|].
  split; [rewrite Hn; vm_compute; reflexivity|].
  intros j Hj. apply Hall. rewrite Hd. exact Hj.
Defined.

(* ===================================================================== *)
(** * The parser state along a command line *)
(* ===================================================================== *)

Lemma take_state (a : Argparse.Argument) (args : list string) (st st' : Argparse.state) :
  Argparse.take a args st = Ret st' →
  ∃ v, set_by a args v ∧
       st' = Argparse.mkState (<[Argparse.dest a := v]> (Argparse.ns st))
                              ({[Argparse.dest a]} ∪ Argparse.seen st)
                              (Argparse.extras st).
Proof.
  unfold Argparse.take, set_by. destruct (Argparse.act a); try discriminate.
  - intros H. bind_inv H as v Hv. injection H as <-. eauto.
  - destruct args; [|discriminate]. intros [= <-]. eauto.
  - destruct args; [|discriminate]. intros [= <-]. eauto.
Qed.

(** One item: unrecognized, or taken by a declaration. *)
Lemma step_state (p : list Argparse.Argument) (st st' : Argparse.state)
    (it : Argparse.item) :
  Argparse.step p st it = Ret st' →
  (st' = Argparse.mkState (Argparse.ns st) (Argparse.seen st) true ∧
   match it with
   | Argparse.Pos _ => True
   | Argparse.Opt f _ => Argparse.find_flag p f = None
   end) ∨
  ∃ a args v,
    a ∈ p ∧ set_by a args v ∧
    st' = Argparse.mkState (<[Argparse.dest a := v]> (Argparse.ns st))
                           ({[Argparse.dest a]} ∪ Argparse.seen st)
                           (Argparse.extras st) ∧
    match it with
    | Argparse.Pos s =>
        Argparse.flags a = [] ∧ args = [s] ∧ Argparse.dest a ∉ Argparse.seen st
    | Argparse.Opt f args' => args' = args ∧ Argparse.find_flag p f = Some a
    end.
Proof.
  unfold Argparse.step. destruct it as [s | f args].
  - destruct (List.find _ p) as [a|] eqn:Hfind; [|intros [= <-]; by left].
    intros H. apply take_state in H as (v & Hv & ->). right.
    apply find_some in Hfind as [Hin Hpos]. exists a, [s], v.
    split; [by apply list_elem_of_In|]. split; [done|]. split; [done|].
    destruct (Argparse.flags a); [|discriminate].
    split; [done|]. split; [done|].
    apply negb_true_iff in Hpos. by apply bool_decide_eq_false in Hpos.
  - destruct (Argparse.find_flag p f) as [a|] eqn:Hfind; [|intros [= <-]; by left].
    intros H. apply take_state in H as (v & Hv & ->). right.
    exists a, args, v. split; [|done].
    by apply find_flag_Some in Hfind as [? ?].
Qed.

(** A property of the parser state that unrecognized items and taken
    declarations keep holds after the whole command line. *)
Lemma consume_invariant (p : list Argparse.Argument) (P : Argparse.state → Prop) :
  (∀ st, P st → P (Argparse.mkState (Argparse.ns st) (Argparse.seen st) true)) →
  (∀ st a args v, a ∈ p → set_by a args v → P st →
     P (Argparse.mkState (<[Argparse.dest a := v]> (Argparse.ns st))
                         ({[Argparse.dest a]} ∪ Argparse.seen st)
                         (Argparse.extras st))) →
  ∀ argv st st', P st → Argparse.consume p st argv = Ret st' → P st'.
Proof.
  intros Hextra Htake argv.
  induction argv as [|it argv IH]; intros st st' HP H; cbn [Argparse.consume] in H.
  - by injection H as <-.
  - bind_inv H as st1 Hstep. apply (IH st1); [|done].
    apply step_state in Hstep as [[-> _] | (a & args & v & Ha & Hset & -> & _)];
      eauto.
Qed.

(** An attribute whose declaration was not taken still has its default. *)
Lemma consume_unseen (p : list Argparse.Argument) (argv : list Argparse.item)
    (st : Argparse.state) (d : string) :
  Argparse.consume p (Argparse.mkState (Argparse.defaults p) ∅ false) argv = Ret st →
  d ∉ Argparse.seen st → Argparse.ns st !! d = Argparse.defaults p !! d.
Proof.
  intros H. revert d.
  refine (consume_invariant p
            (λ st, ∀ d, d ∉ Argparse.seen st →
                        Argparse.ns st !! d = Argparse.defaults p !! d)
            _ _ argv _ st _ H).
  - done.
  - cbn. intros st0 a args v _ _ HP d Hd.
    apply not_elem_of_union in Hd as [Hd1 Hd2].
    apply not_elem_of_singleton in Hd1. rewrite lookup_insert_ne; auto.
  - done.
Qed.

(** Every default stays defined. *)
Lemma consume_defined (p : list Argparse.Argument) (argv : list Argparse.item)
    (st : Argparse.state) (d : string) :
  Argparse.consume p (Argparse.mkState (Argparse.defaults p) ∅ false) argv = Ret st →
  is_Some (Argparse.defaults p !! d) → is_Some (Argparse.ns st !! d).
Proof.
  intros H. revert d.
  refine (consume_invariant p
            (λ st, ∀ d, is_Some (Argparse.defaults p !! d) →
                        is_Some (Argparse.ns st !! d))
            _ _ argv _ st _ H).
  - done.
  - cbn. intros st0 a args v _ _ HP d Hd.
    destruct (decide (Argparse.dest a = d)) as [<- | Hne].
    + by rewrite lookup_insert_eq.
    + rewrite lookup_insert_ne; auto.
  - done.
Qed.

(** When each string default is converted to itself and is what the
    namespace holds, the defaults pass leaves the namespace as it is; it
    returns only if every required declaration was taken. *)
Lemma finish_id (q : list Argparse.Argument) (st : Argparse.state)
    (m m' : gmap string value) :
  (∀ a s, a ∈ q → Argparse.dest a ∉ Argparse.seen st →
          Argparse.default a = Some (VStr s) →
          Argparse.get_value a s = Ret (VStr s) ∧
          m !! Argparse.dest a = Some (VStr s)) →
  Argparse.finish q st m = Ret m' →
  m' = m ∧ ∀ a, a ∈ q → Argparse.required a = true →
                Argparse.dest a ∈ Argparse.seen st.
Proof.
  induction q as [|a q IH]; intros Hq H; cbn [Argparse.finish] in H.
  - injection H as <-. split; [done|]. intros a Ha. by apply elem_of_nil in Ha.
  - assert (Hrest : ∀ b s, b ∈ q → Argparse.dest b ∉ Argparse.seen st →
                           Argparse.default b = Some (VStr s) →
                           Argparse.get_value b s = Ret (VStr s) ∧
                           m !! Argparse.dest b = Some (VStr s))
      by (intros b s Hb; apply Hq; by right).
    assert (Hhead := λ s, Hq a s (list_elem_of_here _ _)).
    destruct (bool_decide (Argparse.dest a ∈ Argparse.seen st)) eqn:Hseen.
    + apply bool_decide_eq_true in Hseen.
      destruct (IH Hrest H) as [-> Hreq]. split; [done|].
      intros b Hb Hr. apply elem_of_cons in Hb as [-> | Hb]; auto.
    + apply bool_decide_eq_false in Hseen.
      destruct (Argparse.required a) eqn:Hra; [discriminate|].
      assert (Hdone : Argparse.finish q st m = Ret m' →
                      m' = m ∧ ∀ b, b ∈ a :: q → Argparse.required b = true →
                                    Argparse.dest b ∈ Argparse.seen st).
      { intros H'. destruct (IH Hrest H') as [-> Hreq]. split; [done|].
        intros b Hb Hr. apply elem_of_cons in Hb as [-> | Hb]; [congruence | auto]. }
      destruct (Argparse.default a) as [[| | | |s| |]|]; try by apply Hdone.
      destruct (Hhead s Hseen eq_refl) as [Hconv Hm].
      rewrite Hconv in H. cbn in H. rewrite (insert_id _ _ _ Hm) in H.
      by apply Hdone.
Qed.

(** The string defaults of the parser are declared with [type=str]. *)
Lemma string_defaults_kept :
  forallb (λ a, match Argparse.default a with
                | Some (VStr s) =>
                    match Argparse.get_value a s,
                          Argparse.defaults Argparse.parser !! Argparse.dest a with
                    | Ret (VStr t), Some (VStr u) => String.eqb s t && String.eqb s u
                    | _, _ => false
                    end
                | _ => true
                end) Argparse.parser = true.
Proof. vm_compute. reflexivity. Qed.

Lemma input_declared :
  Argparse.mkArg [] "input" Argparse.store Argparse.str Argparse.one (Some VNone)
    None true ∈ Argparse.parser.
Proof. unfold Argparse.parser. do 2 apply list_elem_of_further. apply list_elem_of_here. Qed.

(** The namespace [parse_args] returns is the one left by the items of
    the command line; no item was unrecognized, and the positional was
    given. *)
Lemma parse_args_consumed (argv : list Argparse.item) (ns : gmap string value) :
  parse_args argv = Ret ns →
  ∃ st, Argparse.consume Argparse.parser
          (Argparse.mkState (Argparse.defaults Argparse.parser) ∅ false) argv = Ret st ∧
        ns = Argparse.ns st ∧ Argparse.extras st = false ∧
        "input" ∈ Argparse.seen st.
Proof.
  intros H. unfold parse_args, Argparse.parse in H.
  bind_inv H as st Hconsume. bind_inv H as m Hfinish.
  destruct (Argparse.extras st) eqn:Hextras; [discriminate|]. injection H as <-.
  apply finish_id in Hfinish as [-> Hreq].
  - exists st. repeat split; try done.
    apply (Hreq _ input_declared eq_refl).
  - intros a s Ha Hseen Hdef.
    assert (Hk := string_defaults_kept). rewrite forallb_forall in Hk.
    apply list_elem_of_In, Hk in Ha. rewrite Hdef in Ha.
    rewrite (consume_unseen _ _ _ _ Hconsume Hseen).
    destruct (Argparse.get_value a s) as [[| | | |t| |]|]; try discriminate.
    destruct (Argparse.defaults Argparse.parser !! Argparse.dest a)
      as [[| | | |u| |]|]; try discriminate.
    apply andb_true_iff in Ha as [->%String.eqb_eq ->%String.eqb_eq]. done.
Qed.

(** The attribute [d] of a parsed namespace: set by the last occurrence
    of its option, or the declared default. *)
Lemma parsed_attribute (d : string) (fs : list string) (argv : list Argparse.item)
    (ns : gmap string value) :
  owns d fs = true → parse_args argv = Ret ns →
  if mentions fs argv
  then ∃ a f args v, Argparse.Opt f args ∈ argv ∧ f ∈ fs ∧
         Argparse.find_flag Argparse.parser f = Some a ∧
         set_by a args v ∧ ns !! d = Some v
  else ns !! d = Argparse.defaults Argparse.parser !! d.
Proof.
  intros Hown H. apply parse_args_consumed in H as (st & Hconsume & -> & _).
  apply (consume_dest d fs) in Hconsume; done.
Qed.

(* ===================================================================== *)
(** * How [parse_args] fails *)
(* ===================================================================== *)

Section ExitStatus.

Variable p : list Argparse.Argument.
Hypothesis p_benign : ∀ a, a ∈ p → benign (Argparse.type a).

Lemma take_status (a : Argparse.Argument) (args : list string) (st : Argparse.state)
    (e : exn) :
  a ∈ p → Argparse.take a args st = Raise e →
  e = SystemExit 2 ∨
  (e = SystemExit 0 ∧ (Argparse.act a = Argparse.help ∨ Argparse.act a = Argparse.version)).
Proof.
  intros Ha. unfold Argparse.take, Argparse.error.
  destruct (Argparse.act a).
  - destruct (Argparse.stored a args) eqn:Hs; [discriminate|].
    intros [= <-]. left. by eapply stored_exits.
  - destruct args; [discriminate|]. intros [= <-]. by left.
  - destruct args; [discriminate|]. intros [= <-]. by left.
  - intros [= <-]. right. auto.
  - intros [= <-]. right. auto.
Qed.

Lemma step_status (st : Argparse.state) (it : Argparse.item) (e : exn) :
  Argparse.step p st it = Raise e →
  e = SystemExit 2 ∨
  (e = SystemExit 0 ∧
   ∃ a, a ∈ p ∧
        (Argparse.act a = Argparse.help ∨ Argparse.act a = Argparse.version) ∧
        match it with
        | Argparse.Pos _ => Argparse.flags a = []
        | Argparse.Opt f _ => f ∈ Argparse.flags a
        end).
Proof.
  unfold Argparse.step. destruct it as [s | f args].
  - destruct (List.find _ p) as [a|] eqn:Hfind; [|discriminate].
    apply find_some in Hfind as [Hin Hpos]. apply list_elem_of_In in Hin.
    intros [-> | [-> Hact]]%take_status; [by left | | done].
    right. split; [done|]. exists a. repeat split; try done.
    by destruct (Argparse.flags a).
  - destruct (Argparse.find_flag p f) as [a|] eqn:Hfind; [|discriminate].
    apply find_flag_Some in Hfind as [Hin Hf].
    intros [-> | [-> Hact]]%take_status; [by left | | done].
    right. split; [done|]. by exists a.
Qed.

Lemma consume_status (argv : list Argparse.item) (st : Argparse.state) (e : exn) :
  Argparse.consume p st argv = Raise e →
  e = SystemExit 2 ∨
  (e = SystemExit 0 ∧
   ∃ it a, it ∈ argv ∧ a ∈ p ∧
        (Argparse.act a = Argparse.help ∨ Argparse.act a = Argparse.version) ∧
        match it with
        | Argparse.Pos _ => Argparse.flags a = []
        | Argparse.Opt f _ => f ∈ Argparse.flags a
        end).
Proof.
  revert st. induction argv as [|it argv IH]; intros st; [discriminate|].
  cbn [Argparse.consume].
  destruct (Argparse.step p st it) as [st1|e1] eqn:Hstep; cbn.
  - intros [-> | [-> (it' & a & Hit & H)]]%IH; [by left|].
    right. split; [done|]. exists it', a. split; [by right | done].
  - intros [= <-]. apply step_status in Hstep as [-> | [-> (a & H)]]; [by left|].
    right. split; [done|]. exists it, a. split; [by left | done].
Qed.

Lemma finish_status (q : list Argparse.Argument) (st : Argparse.state)
    (m : gmap string value) (e : exn) :
  (∀ a, a ∈ q → a ∈ p) →
  Argparse.finish q st m = Raise e → e = SystemExit 2.
Proof.
  revert m. induction q as [|a q IH]; intros m Hq; [discriminate|].
  cbn [Argparse.finish].
  assert (Hrest : ∀ b, b ∈ q → b ∈ p) by (intros b Hb; apply Hq; by right).
  destruct (bool_decide _); [by apply IH|].
  destruct (Argparse.required a); [by intros [= <-]|].
  destruct (Argparse.default a) as [[| | | |s| |]|]; try by apply IH.
  destruct (Argparse.get_value a s) as [v|e1] eqn:Hv; cbn; [by apply IH|].
  intros [= <-]. eapply get_value_exits; [done | | done].
  apply Hq. by left.
Qed.

Lemma parse_status (argv : list Argparse.item) (e : exn) :
  Argparse.parse p argv = Raise e →
  e = SystemExit 2 ∨
  (e = SystemExit 0 ∧
   ∃ it a, it ∈ argv ∧ a ∈ p ∧
        (Argparse.act a = Argparse.help ∨ Argparse.act a = Argparse.version) ∧
        match it with
        | Argparse.Pos _ => Argparse.flags a = []
        | Argparse.Opt f _ => f ∈ Argparse.flags a
        end).
Proof.
  unfold Argparse.parse.
  destruct (Argparse.consume _ _ argv) as [st|e1] eqn:Hc; cbn.
  - destruct (Argparse.finish _ st _) as [m|e1] eqn:Hf; cbn.
    + destruct (Argparse.extras st); [|discriminate]. intros [= <-]. by left.
    + intros [= <-]. left. by eapply finish_status.
  - intros [= <-]. by eapply consume_status.
Qed.

End ExitStatus.

(** The actions that print and exit are options, with the strings
    [-h], [--help] and [--version]. *)
Lemma exit_flags_declared :
  forallb (λ a, match Argparse.act a with
                | Argparse.help | Argparse.version =>
                    match Argparse.flags a with
                    | [] => false
                    | fl => forallb (λ f, existsb (String.eqb f) exit_flags) fl
                    end
                | _ => true
                end) Argparse.parser = true.
Proof. vm_compute. reflexivity. Qed.

Lemma parse_args_status (argv : list Argparse.item) (e : exn) :
  parse_args argv = Raise e →
  e = SystemExit 2 ∨ (e = SystemExit 0 ∧ mentions exit_flags argv = true).
Proof.
  intros [-> | [-> (it & a & Hit & Ha & Hact & Hfl)]]%(parse_status _ parser_benign);
    [by left|].
  right. split; [done|].
  assert (Hd := exit_flags_declared). rewrite forallb_forall in Hd.
  apply list_elem_of_In, Hd in Ha.
  assert (Hfs : match Argparse.flags a with
                | [] => false
                | fl => forallb (λ f, existsb (String.eqb f) exit_flags) fl
                end = true) by (by destruct Hact as [Heq | Heq]; rewrite Heq in Ha).
  unfold mentions. apply existsb_exists. exists it.
  split; [by apply list_elem_of_In|].
  destruct it as [s | f args].
  - by rewrite Hfl in Hfs.
  - destruct (Argparse.flags a) as [|f0 fl] eqn:Hflags; [discriminate|].
    rewrite forallb_forall in Hfs. apply Hfs. by apply list_elem_of_In.
Qed.

(** X1: [parse_args] fails only by exiting, with status 2 (a usage error),
    or with status 0 when [-h], [--help] or [--version] is on the command
    line; [main] is then not entered. *)
Theorem parse_args_exits_with_two_or_zero (w : World) (argv : list Argparse.item)
    (e : exn) :
  parse_args argv = Raise e →
  run_BnpC w argv = Raise e ∧
  (e = SystemExit 2 ∨ (e = SystemExit 0 ∧ mentions exit_flags argv = true)).
Proof.
  intros H. split; [unfold run_BnpC; by rewrite H|]. by apply parse_args_status.
Qed.

(** [--version] after the input file exits with status 0; an unknown
    option exits with status 2. *)
Lemma parse_args_exits_with_two_or_zero_witness :
  parse_args (Example.command [Argparse.Opt "--version" []]) = Raise (SystemExit 0) ∧
  run_BnpC Example.world (Example.command [Argparse.Opt "--version" []])
    = Raise (SystemExit 0) ∧
  mentions exit_flags (Example.command [Argparse.Opt "--version" []]) = true ∧
  parse_args (Example.command [Argparse.Opt "--plots" []]) = Raise (SystemExit 2).
Proof.
  assert (H : parse_args (Example.command [Argparse.Opt "--version" []])
              = Raise (SystemExit 0)) by (vm_compute; reflexivity).
  split; [exact H|].
  destruct (parse_args_exits_with_two_or_zero Example.world _ _ H) as [Hrun Hcode].
  split; [exact Hrun|]. split; [|vm_compute; reflexivity].
  destruct Hcode as [Hcode | [_ Hm]]; [discriminate Hcode | exact Hm].
Defined.

(* ===================================================================== *)
(** * The prior means and standard deviations *)
(* ===================================================================== *)

Ltac each_flag Hf :=
  repeat (apply elem_of_cons in Hf as [-> | Hf]); [..|by apply elem_of_nil in Hf].

Lemma ratio_flag_found (f : string) :
  f ∈ ratio_flags →
  ∃ a, Argparse.find_flag Argparse.parser f = Some a ∧
       Argparse.act a = Argparse.store ∧ Argparse.arity a = Argparse.one ∧
       Argparse.type a = Argparse.check_ratio.
Proof.
  unfold ratio_flags. intros Hf.
  each_flag Hf; (eexists; split; [reflexivity|]; repeat split; reflexivity).
Qed.

Lemma check_ratio_outside (s : string) (v : spec_float) :
  PyStr.py_float s = Some v → outside_open_unit v = true →
  Argparse.check_ratio s = Raise ArgumentTypeError.
Proof.
  intros Hs Hv. unfold Argparse.check_ratio, Argparse.float_. rewrite Hs. cbn.
  unfold outside_open_unit in Hv. by rewrite Hv.
Qed.

Lemma check_ratio_Ret (s : string) (v : value) :
  Argparse.check_ratio s = Ret v →
  ∃ x, v = VFloat x ∧ PyStr.py_float s = Some x ∧ outside_open_unit x = false.
Proof.
  unfold Argparse.check_ratio, Argparse.float_, outside_open_unit.
  destruct (PyStr.py_float s) as [x|]; [|discriminate]. cbn.
  destruct (_ || _) eqn:Hout; [discriminate|]. intros [= <-]. by exists x.
Qed.

Lemma check_percent_Ret (s : string) (v : value) :
  Argparse.check_percent s = Ret v →
  ∃ x, v = VFloat x ∧ PyStr.py_float s = Some x ∧ outside_unit x = false.
Proof.
  unfold Argparse.check_percent, Argparse.float_, outside_unit.
  destruct (PyStr.py_float s) as [x|]; [|discriminate]. cbn.
  destruct (_ || _) eqn:Hout; [discriminate|]. intros [= <-]. by exists x.
Qed.

(** X2: a command line that gives a mean or a standard deviation of the
    error-rate priors ([-FN_m], [-FN_sd], [-FP_m], [-FP_sd]) a value that
    is at most 0 or at least 1 is rejected by [parse_args]: the bounds
    themselves are excluded, and [main] is not entered. *)
Theorem ratio_out_of_range_rejected (w : World) (argv : list Argparse.item)
    (f : string) (args : list string) (s : string) (v : spec_float) :
  Argparse.Opt f args ∈ argv →
  f ∈ ratio_flags →
  s ∈ args →
  PyStr.py_float s = Some v →
  outside_open_unit v = true →
  ∃ code, parse_args argv = Raise (SystemExit code) ∧
          run_BnpC w argv = Raise (SystemExit code) ∧
          (code = 2 ∨ (code = 0 ∧ mentions exit_flags argv = true)).
Proof.
  intros Hin Hf Hs Hv Hout.
  destruct (parse_args argv) as [ns|e] eqn:Hparse.
  - exfalso.
    destruct (ratio_flag_found f Hf) as (a & Hfind & Hact & _ & Htype).
    destruct (parse_accepts _ _ _ _ _ _ Hparse Hin Hfind Hact Hs) as (v' & Hv').
    rewrite Htype, (check_ratio_outside _ _ Hv Hout) in Hv'. discriminate.
  - unfold run_BnpC. rewrite Hparse.
    destruct (parse_args_status _ _ Hparse) as [-> | [-> Hm]].
    + exists 2. auto.
    + exists 0. auto.
Qed.

(** [-FP_sd 1]: the upper bound is not a valid standard deviation. *)
Lemma ratio_out_of_range_rejected_witness :
  PyStr.py_float "1" = Some (F64.of_Z 1) ∧
  outside_open_unit (F64.of_Z 1) = true ∧
  outside_unit (F64.of_Z 1) = false ∧
  ∃ code,
    parse_args (Example.command [Argparse.Opt "-FP_sd" ["1"]])
      = Raise (SystemExit code) ∧
    run_BnpC Example.world (Example.command [Argparse.Opt "-FP_sd" ["1"]])
      = Raise (SystemExit code) ∧
    (code = 2 ∨
     (code = 0 ∧
      mentions exit_flags (Example.command [Argparse.Opt "-FP_sd" ["1"]]) = true)).
Proof.
  split; [vm_compute; reflexivity|]. split; [vm_compute; reflexivity|].
  split; [vm_compute; reflexivity|].
  apply (ratio_out_of_range_rejected Example.world
           (Example.command [Argparse.Opt "-FP_sd" ["1"]])
           "-FP_sd" ["1"] "1" (F64.of_Z 1)).
  - unfold Example.command. do 3 apply list_elem_of_further. apply list_elem_of_here.
  - unfold ratio_flags. do 6 apply list_elem_of_further. apply list_elem_of_here.
  - apply list_elem_of_here.
  - vm_compute; reflexivity.
  - vm_compute; reflexivity.
Defined.

(* ===================================================================== *)
(** * What an accepted command line leaves in the namespace *)
(* ===================================================================== *)

Lemma stored_one_checked (a : Argparse.Argument) (args : list string) (v : value) :
  Argparse.arity a = Argparse.one →
  Argparse.stored a args = Ret v →
  ∃ s, args = [s] ∧ Argparse.type a s = Ret v ∧ Argparse.check_value a v = Ret v.
Proof.
  unfold Argparse.stored. intros -> H.
  destruct args as [|s [|? ?]]; try discriminate.
  bind_inv H as v' Hv'. assert (v = v') as -> by (by eapply check_value_Ret).
  exists s. split; [done|]. split; [by apply get_value_Ret | done].
Qed.

Lemma get_values_Forall2 (a : Argparse.Argument) (l : list string) (vs : list value) :
  Argparse.get_values a l = Ret vs →
  Forall2 (λ s v, Argparse.type a s = Ret v) l vs.
Proof.
  revert vs. induction l as [|s l IH]; intros vs H; cbn [Argparse.get_values] in H.
  - injection H as <-. constructor.
  - bind_inv H as v Hv. bind_inv H as vs' Hvs. injection H as <-.
    constructor; [by apply get_value_Ret | by apply IH].
Qed.

Lemma check_values_Ret (a : Argparse.Argument) (l vs : list value) :
  Argparse.check_values a l = Ret vs →
  vs = l ∧ Forall (λ v, Argparse.check_value a v = Ret v) l.
Proof.
  revert vs. induction l as [|v l IH]; intros vs H; cbn [Argparse.check_values] in H.
  - injection H as <-. split; [done | constructor].
  - bind_inv H as v' Hv'. bind_inv H as vs' Hvs. injection H as <-.
    assert (v' = v) as -> by (by eapply check_value_Ret).
    destruct (IH _ Hvs) as [-> Hall]. split; [done | by constructor].
Qed.

(** The value stored by an option that takes a list of values. *)
Lemma stored_list (a : Argparse.Argument) (args : list string) (v : value) :
  Argparse.arity a ≠ Argparse.one →
  Argparse.stored a args = Ret v →
  ∃ vs, v = VList vs ∧
        Forall2 (λ s v, Argparse.type a s = Ret v) args vs ∧
        Forall (λ v, Argparse.check_value a v = Ret v) vs ∧
        match Argparse.arity a with
        | Argparse.exactly n => length args = n
        | _ => args ≠ []
        end.
Proof.
  unfold Argparse.stored. intros Hone H.
  assert (Hlist : (vs ← Argparse.get_values a args;
                   VList <$> Argparse.check_values a vs) = Ret v →
                  ∃ vs, v = VList vs ∧
                        Forall2 (λ s v, Argparse.type a s = Ret v) args vs ∧
                        Forall (λ v, Argparse.check_value a v = Ret v) vs).
  { intros H'. bind_inv H' as vs Hvs.
    destruct (Argparse.check_values a vs) as [vs'|] eqn:Hc; [|discriminate].
    injection H' as <-. apply check_values_Ret in Hc as [-> Hall].
    exists vs. split; [done|]. split; [by apply get_values_Forall2 | done]. }
  destruct (Argparse.arity a) as [|n|]; [done| |].
  - destruct (Nat.eqb _ _) eqn:Hn; [|discriminate]. apply Nat.eqb_eq in Hn.
    destruct (Hlist H) as (vs & ? & ? & ?). by exists vs.
  - destruct args as [|s args]; [discriminate|].
    destruct (Hlist H) as (vs & ? & ? & ?). by exists vs.
Qed.

(** An attribute stored by a single-valued option. *)
Lemma parsed_single (d : string) (fs : list string) (R : Argparse.Argument → Prop)
    (argv : list Argparse.item) (ns : gmap string value) :
  owns d fs = true →
  (∀ f, f ∈ fs →
        ∃ a, Argparse.find_flag Argparse.parser f = Some a ∧
             Argparse.act a = Argparse.store ∧ Argparse.arity a = Argparse.one ∧ R a) →
  parse_args argv = Ret ns →
  if mentions fs argv
  then ∃ a s v, R a ∧ Argparse.type a s = Ret v ∧
                Argparse.check_value a v = Ret v ∧ ns !! d = Some v
  else ns !! d = Argparse.defaults Argparse.parser !! d.
Proof.
  intros Hown Hfs H. apply (parsed_attribute d fs) in H; [|done].
  destruct (mentions fs argv); [|done].
  destruct H as (a & f & args & v & _ & Hf & Hfind & Hset & Hns).
  destruct (Hfs f Hf) as (a' & Hfind' & Hact & Harity & HR).
  assert (a' = a) as -> by congruence.
  unfold set_by in Hset. rewrite Hact in Hset.
  destruct (stored_one_checked _ _ _ Harity Hset) as (s & _ & Hs & Hc).
  by exists a, s, v.
Qed.

(** An attribute stored by an option that takes a list of values. *)
Lemma parsed_list (d : string) (fs : list string) (R : Argparse.Argument → Prop)
    (argv : list Argparse.item) (ns : gmap string value) :
  owns d fs = true →
  (∀ f, f ∈ fs →
        ∃ a, Argparse.find_flag Argparse.parser f = Some a ∧
             Argparse.act a = Argparse.store ∧ Argparse.arity a ≠ Argparse.one ∧ R a) →
  parse_args argv = Ret ns →
  if mentions fs argv
  then ∃ a args vs, R a ∧
         Forall2 (λ s v, Argparse.type a s = Ret v) args vs ∧
         Forall (λ v, Argparse.check_value a v = Ret v) vs ∧
         match Argparse.arity a with
         | Argparse.exactly n => length args = n
         | _ => args ≠ []
         end ∧
         ns !! d = Some (VList vs)
  else ns !! d = Argparse.defaults Argparse.parser !! d.
Proof.
  intros Hown Hfs H. apply (parsed_attribute d fs) in H; [|done].
  destruct (mentions fs argv); [|done].
  destruct H as (a & f & args & v & _ & Hf & Hfind & Hset & Hns).
  destruct (Hfs f Hf) as (a' & Hfind' & Hact & Harity & HR).
  assert (a' = a) as -> by congruence.
  unfold set_by in Hset. rewrite Hact in Hset.
  destruct (stored_list _ _ _ Harity Hset) as (vs & -> & Hvs & Hc & Hn).
  by exists a, args, vs.
Qed.

(** A list of exactly two converted values. *)
Lemma two_values (conv : string → result value) (P : value → Prop)
    (args : list string) (vs : list value) :
  (∀ s v, conv s = Ret v → P v) →
  Forall2 (λ s v, conv s = Ret v) args vs → length args = 2%nat →
  ∃ a b, vs = [a; b] ∧ P a ∧ P b.
Proof.
  intros HP Hvs Hlen.
  destruct Hvs as [|s1 v1 ? ? H1 Hvs]; [discriminate|].
  destruct Hvs as [|s2 v2 ? ? H2 Hvs]; [discriminate|].
  destruct Hvs; [|discriminate]. exists v1, v2. eauto.
Qed.

Ltac found := eexists; split; [reflexivity|]; repeat split; (reflexivity || discriminate).

(** A probability attribute of a parsed namespace is a float that is
    neither below 0 nor above 1. *)
Lemma percent_attribute (d : string) (fs : list string) (v0 : spec_float)
    (argv : list Argparse.item) (ns : gmap string value) :
  owns d fs = true →
  (∀ f, f ∈ fs →
        ∃ a, Argparse.find_flag Argparse.parser f = Some a ∧
             Argparse.act a = Argparse.store ∧ Argparse.arity a = Argparse.one ∧
             Argparse.type a = Argparse.check_percent) →
  Argparse.defaults Argparse.parser !! d = Some (VFloat v0) →
  outside_unit v0 = false →
  parse_args argv = Ret ns →
  ∃ v, ns !! d = Some (VFloat v) ∧ outside_unit v = false.
Proof.
  intros Hown Hfs Hd Hv0 H.
  apply (parsed_single d fs _ _ _ Hown Hfs) in H.
  destruct (mentions fs argv).
  - destruct H as (a & s & v & Htype & Hs & _ & Hns).
    rewrite Htype in Hs. apply check_percent_Ret in Hs as (x & -> & _ & Hx).
    by exists x.
  - exists v0. by rewrite H.
Qed.

Lemma ratio_attribute (d : string) (fs : list string) (v0 : spec_float)
    (argv : list Argparse.item) (ns : gmap string value) :
  owns d fs = true →
  (∀ f, f ∈ fs →
        ∃ a, Argparse.find_flag Argparse.parser f = Some a ∧
             Argparse.act a = Argparse.store ∧ Argparse.arity a = Argparse.one ∧
             Argparse.type a = Argparse.check_ratio) →
  Argparse.defaults Argparse.parser !! d = Some (VFloat v0) →
  outside_open_unit v0 = false →
  parse_args argv = Ret ns →
  ∃ v, ns !! d = Some (VFloat v) ∧ outside_open_unit v = false.
Proof.
  intros Hown Hfs Hd Hv0 H.
  apply (parsed_single d fs _ _ _ Hown Hfs) in H.
  destruct (mentions fs argv).
  - destruct H as (a & s & v & Htype & Hs & _ & Hns).
    rewrite Htype in Hs. apply check_ratio_Ret in Hs as (x & -> & _ & Hx).
    by exists x.
  - exists v0. by rewrite H.
Qed.

(** X3: in the namespace of an accepted command line, defaults included:
    the burn-in fraction and the three move probabilities are floats
    that are neither below 0 nor above 1, so are the two split-merge
    ratios, and the means and standard deviations of the error-rate
    priors are floats that are neither at most 0 nor at least 1. *)
Theorem validated_attributes_in_range (argv : list Argparse.item)
    (ns : gmap string value) :
  parse_args argv = Ret ns →
  (∀ d, d ∈ ["burn_in"; "conc_update_prob"; "error_update_prob"; "split_merge_prob"] →
        ∃ v, ns !! d = Some (VFloat v) ∧ outside_unit v = false) ∧
  (∃ a b, ns !! "split_merge_ratios" = Some (VList [VFloat a; VFloat b]) ∧
          outside_unit a = false ∧ outside_unit b = false) ∧
  (∀ d, d ∈ ["falseNegative_mean"; "falseNegative_std";
             "falsePositive_mean"; "falsePositive_std"] →
        ∃ v, ns !! d = Some (VFloat v) ∧ outside_open_unit v = false).
Proof.
  intros H. split; [|split].
  - intros d Hd. each_flag Hd.
    + apply (percent_attribute "burn_in" ["-b"; "--burn_in"] (float_lit "0.33") argv);
        [by vm_compute | intros f Hf; each_flag Hf; found | by vm_compute .. | done].
    + apply (percent_attribute "conc_update_prob" ["-cup"; "--conc_update_prob"]
               (float_lit "0.25") argv);
        [by vm_compute | intros f Hf; each_flag Hf; found | by vm_compute .. | done].
    + apply (percent_attribute "error_update_prob" ["-eup"; "--error_update_prob"]
               (float_lit "0.25") argv);
        [by vm_compute | intros f Hf; each_flag Hf; found | by vm_compute .. | done].
    + apply (percent_attribute "split_merge_prob" ["-smp"; "--split_merge_prob"]
               (float_lit "0.33") argv);
        [by vm_compute | intros f Hf; each_flag Hf; found | by vm_compute .. | done].
  - apply (parsed_list "split_merge_ratios" ["-smr"; "--split_merge_ratios"]
             (λ a, Argparse.type a = Argparse.check_percent ∧
                   Argparse.arity a = Argparse.exactly 2)) in H;
      [|by vm_compute | intros f Hf; each_flag Hf; found].
    destruct (mentions _ argv).
    + destruct H as (a & args & vs & [Htype Harity] & Hvs & _ & Hlen & Hns).
      rewrite Htype in Hvs. rewrite Harity in Hlen.
      destruct (two_values _ (λ v, ∃ x, v = VFloat x ∧ outside_unit x = false)
                  _ _ ltac:(intros s v (x & -> & _ & Hx)%check_percent_Ret; eauto)
                  Hvs Hlen)
        as (v1 & v2 & -> & (x1 & -> & Hx1) & (x2 & -> & Hx2)).
      by exists x1, x2.
    + exists (float_lit "0.75"), (float_lit "0.25"). rewrite H. by vm_compute.
  - intros d Hd. each_flag Hd.
    + apply (ratio_attribute "falseNegative_mean" ["-FN_m"; "--falseNegative_mean"]
               (float_lit "0.2") argv);
        [by vm_compute | intros f Hf; each_flag Hf; found | by vm_compute .. | done].
    + apply (ratio_attribute "falseNegative_std" ["-FN_sd"; "--falseNegative_std"]
               (float_lit "0.1") argv);
        [by vm_compute | intros f Hf; each_flag Hf; found | by vm_compute .. | done].
    + apply (ratio_attribute "falsePositive_mean" ["-FP_m"; "--falsePositive_mean"]
               (float_lit "0.01") argv);
        [by vm_compute | intros f Hf; each_flag Hf; found | by vm_compute .. | done].
    + apply (ratio_attribute "falsePositive_std" ["-FP_sd"; "--falsePositive_std"]
               (float_lit "0.01") argv);
        [by vm_compute | intros f Hf; each_flag Hf; found | by vm_compute .. | done].
Qed.

(** [-b 1 -smr 1 0 -FN_m 0.5]: the bounds of the closed interval are
    accepted. *)
Lemma validated_attributes_in_range_witness :
  parse_args (Example.command [Argparse.Opt "-b" ["1"];
                               Argparse.Opt "-smr" ["1"; "0"];
                               Argparse.Opt "-FN_m" ["0.5"]])
    = Ret (Example.parsed (Example.command [Argparse.Opt "-b" ["1"];
                                            Argparse.Opt "-smr" ["1"; "0"];
                                            Argparse.Opt "-FN_m" ["0.5"]])) ∧
  (∃ v, Example.parsed (Example.command [Argparse.Opt "-b" ["1"];
                                         Argparse.Opt "-smr" ["1"; "0"];
                                         Argparse.Opt "-FN_m" ["0.5"]]) !! "burn_in"
          = Some (VFloat v) ∧ outside_unit v = false) ∧
  (∃ a b, Example.parsed (Example.command [Argparse.Opt "-b" ["1"];
                                           Argparse.Opt "-smr" ["1"; "0"];
                                           Argparse.Opt "-FN_m" ["0.5"]])
            !! "split_merge_ratios" = Some (VList [VFloat a; VFloat b]) ∧
          outside_unit a = false ∧ outside_unit b = false) ∧
  (∃ v, Example.parsed (Example.command [Argparse.Opt "-b" ["1"];
                                         Argparse.Opt "-smr" ["1"; "0"];
                                         Argparse.Opt "-FN_m" ["0.5"]])
          !! "falseNegative_mean" = Some (VFloat v) ∧ outside_open_unit v = false).
Proof.
  assert (H : parse_args (Example.command [Argparse.Opt "-b" ["1"];
                                           Argparse.Opt "-smr" ["1"; "0"];
                                           Argparse.Opt "-FN_m" ["0.5"]])
              = Ret (Example.parsed (Example.command [Argparse.Opt "-b" ["1"];
                                                      Argparse.Opt "-smr" ["1"; "0"];
                                                      Argparse.Opt "-FN_m" ["0.5"]])))
    by (apply parsed_eq; vm_compute; reflexivity).
  split; [exact H|].
  destruct (validated_attributes_in_range _ _ H) as (H1 & H2 & H3).
  split; [exact (H1 "burn_in" (list_elem_of_here _ _))|].
  split; [exact H2|].
  exact (H3 "falseNegative_mean" (list_elem_of_here _ _)).
Defined.

(* ===================================================================== *)
(** ** Every attribute that is read is defined *)
(* ===================================================================== *)

Lemma attributes_read_declared :
  forallb (λ d, match Argparse.defaults Argparse.parser !! d with
                | Some _ => true
                | None => false
                end) attributes_read = true.
Proof. vm_compute. reflexivity. Qed.

Lemma parsed_defined (argv : list Argparse.item) (ns : gmap string value) (d : string) :
  parse_args argv = Ret ns → d ∈ attributes_read → is_Some (ns !! d).
Proof.
  intros H Hd. apply parse_args_consumed in H as (st & Hconsume & -> & _).
  assert (Hdecl := attributes_read_declared). rewrite forallb_forall in Hdecl.
  apply list_elem_of_In, Hdecl in Hd.
  apply (consume_defined _ _ _ d Hconsume).
  by destruct (Argparse.defaults Argparse.parser !! d).
Qed.

(** X4: the namespace of an accepted command line defines every attribute
    that [main] and [generate_output] read from [args]: none of these
    reads raises [AttributeError]. *)
Theorem parsed_namespace_defines_attributes (argv : list Argparse.item)
    (ns : gmap string value) (d : string) :
  parse_args argv = Ret ns → d ∈ attributes_read →
  ∃ v, getattr ns d = Ret v.
Proof.
  intros H Hd. destruct (parsed_defined _ _ _ H Hd) as [v Hv].
  exists v. by apply getattr_lookup.
Qed.

Lemma parsed_namespace_defines_attributes_witness :
  parse_args (Example.command []) = Ret (Example.parsed (Example.command [])) ∧
  ∃ v, getattr (Example.parsed (Example.command [])) "no_plots" = Ret v.
Proof.
  assert (H : parse_args (Example.command [])
              = Ret (Example.parsed (Example.command [])))
    by (apply parsed_eq; vm_compute; reflexivity).
  split; [exact H|].
  apply (parsed_namespace_defines_attributes _ _ "no_plots" H).
  unfold attributes_read. do 24 apply list_elem_of_further. apply list_elem_of_here.
Defined.

(* ===================================================================== *)
(** ** The input file *)
(* ===================================================================== *)

Lemma find_positional (st : Argparse.state) :
  List.find (λ a, match Argparse.flags a with
                  | [] => negb (bool_decide (Argparse.dest a ∈ Argparse.seen st))
                  | _ => false
                  end) Argparse.parser
  = if bool_decide ("input" ∈ Argparse.seen st) then None
    else Some (Argparse.mkArg [] "input" Argparse.store Argparse.str Argparse.one
                 (Some VNone) None true).
Proof.
  unfold Argparse.parser.
  cbn [List.find Argparse.flags Argparse.add_flag Argparse.add_argument Argparse.dest].
  by destruct (bool_decide _).
Qed.

Lemma step_positional (st : Argparse.state) (s : string) :
  Argparse.step Argparse.parser st (Argparse.Pos s)
  = Ret (if bool_decide ("input" ∈ Argparse.seen st)
         then Argparse.mkState (Argparse.ns st) (Argparse.seen st) true
         else Argparse.mkState (<["input" := VStr s]> (Argparse.ns st))
                               ({["input"]} ∪ Argparse.seen st)
                               (Argparse.extras st)).
Proof.
  unfold Argparse.step. rewrite find_positional.
  by destruct (bool_decide _).
Qed.

Lemma options_not_input :
  forallb (λ a, match Argparse.flags a with
                | [] => true
                | _ => negb (String.eqb (Argparse.dest a) "input")
                end) Argparse.parser = true.
Proof. vm_compute. reflexivity. Qed.

(** An option occurrence leaves [input] alone and does not clear the
    mark for unrecognized arguments. *)
Lemma step_option (st st' : Argparse.state) (f : string) (args : list string) :
  Argparse.step Argparse.parser st (Argparse.Opt f args) = Ret st' →
  ("input" ∈ Argparse.seen st' ↔ "input" ∈ Argparse.seen st) ∧
  Argparse.ns st' !! "input" = Argparse.ns st !! "input" ∧
  (Argparse.extras st = true → Argparse.extras st' = true).
Proof.
  intros [[-> _] | (a & args' & v & Ha & _ & -> & _ & Hfind)]%step_state; [done|].
  assert (Hd : Argparse.dest a ≠ "input").
  { assert (Ho := options_not_input). rewrite forallb_forall in Ho.
    apply list_elem_of_In, Ho in Ha. apply find_flag_Some in Hfind as [_ Hf].
    destruct (Argparse.flags a); [by apply elem_of_nil in Hf|].
    apply negb_true_iff in Ha. intros Heq. by rewrite Heq in Ha. }
  cbn. split; [|split; [by rewrite lookup_insert_ne | done]].
  rewrite elem_of_union, elem_of_singleton. split; [|by right].
  intros [Heq | Hin]; [by symmetry in Heq | done].
Qed.

Lemma consume_positionals (argv : list Argparse.item) (st st' : Argparse.state) :
  Argparse.consume Argparse.parser st argv = Ret st' →
  (Argparse.extras st = true → Argparse.extras st' = true) ∧
  match positionals argv with
  | [] => ("input" ∈ Argparse.seen st' ↔ "input" ∈ Argparse.seen st) ∧
          Argparse.ns st' !! "input" = Argparse.ns st !! "input"
  | s :: rest =>
      "input" ∈ Argparse.seen st' ∧
      if bool_decide ("input" ∈ Argparse.seen st) then Argparse.extras st' = true
      else (rest = [] → Argparse.ns st' !! "input" = Some (VStr s)) ∧
           (rest ≠ [] → Argparse.extras st' = true)
  end.
Proof.
  revert st. induction argv as [|it argv IH]; intros st H; cbn [Argparse.consume] in H.
  - by injection H as <-.
  - bind_inv H as st1 Hstep. destruct (IH _ H) as [Hextras Hpos]. clear IH H.
    destruct it as [s | f args].
    + rewrite step_positional in Hstep. injection Hstep as <-.
      change (positionals (Argparse.Pos s :: argv)) with (s :: positionals argv).
      destruct (bool_decide ("input" ∈ Argparse.seen st)) eqn:Hseen.
      * cbn in Hextras, Hpos. apply bool_decide_eq_true in Hseen.
        split; [intros _; by apply Hextras|]. split; [|by apply Hextras].
        destruct (positionals argv); [by apply Hpos | by destruct Hpos].
      * cbn in Hextras, Hpos. split; [done|].
        destruct (positionals argv) as [|s' rest].
        -- destruct Hpos as [Hs Hns]. split; [apply Hs, elem_of_union; left; by apply elem_of_singleton|].
           split; [|done]. intros _. by rewrite Hns, lookup_insert_eq.
        -- destruct Hpos as [Hs Hx]. split; [done|]. split; [done|]. intros _.
           rewrite bool_decide_eq_true_2 in Hx; [done|].
           apply elem_of_union; left; by apply elem_of_singleton.
    + change (positionals (Argparse.Opt f args :: argv)) with (positionals argv).
      apply step_option in Hstep as (Hseen & Hns & Hx).
      split; [auto|].
      destruct (positionals argv) as [|s rest].
      * destruct Hpos as [Hs Hn]. split; [by rewrite Hs | by rewrite Hn].
      * destruct Hpos as [Hs Hrest]. split; [done|].
        by rewrite (bool_decide_ext _ _ Hseen) in Hrest.
Qed.

(** X5: an accepted command line has exactly one positional argument, and
    [args.input] is that string: without it, or with a second one,
    [parse_args] exits. *)
Theorem input_is_the_one_positional (argv : list Argparse.item)
    (ns : gmap string value) :
  parse_args argv = Ret ns →
  ∃ s, positionals argv = [s] ∧ ns !! "input" = Some (VStr s).
Proof.
  intros H. apply parse_args_consumed in H as (st & Hconsume & -> & Hextras & Hseen).
  apply consume_positionals in Hconsume as [_ Hpos]. cbn in Hpos.
  destruct (positionals argv) as [|s rest].
  - destruct Hpos as [Hs _]. apply Hs in Hseen. set_solver.
  - destruct Hpos as [_ Hpos]. rewrite bool_decide_eq_false_2 in Hpos; [|set_solver].
    destruct Hpos as [Hone Hmore]. destruct rest as [|s' rest].
    + exists s. auto.
    + rewrite Hmore in Hextras; done.
Qed.

Lemma input_is_the_one_positional_witness :
  parse_args (Example.command []) = Ret (Example.parsed (Example.command [])) ∧
  (∃ s, positionals (Example.command []) = [s] ∧
        Example.parsed (Example.command []) !! "input" = Some (VStr s)) ∧
  parse_args [Argparse.Opt "--ctypes" ["ctypes.tsv"]] = Raise (SystemExit 2) ∧
  parse_args [Argparse.Pos "a.txt"; Argparse.Pos "b.txt"] = Raise (SystemExit 2).
Proof.
  assert (H : parse_args (Example.command [])
              = Ret (Example.parsed (Example.command [])))
    by (apply parsed_eq; vm_compute; reflexivity).
  split; [exact H|]. split; [exact (input_is_the_one_positional _ _ H)|].
  split; vm_compute; reflexivity.
Defined.

(* ===================================================================== *)
(** ** Options with [choices] *)
(* ===================================================================== *)

Lemma value_eqb_int (z k : Z) : value_eqb (VInt z) (VInt k) = true → z = k.
Proof.
  change (value_eqb (VInt z) (VInt k))
    with (match z ?= k with Eq => true | _ => false end).
  destruct (z ?= k) eqn:Hc; try discriminate. intros _. by apply Z.compare_eq.
Qed.

Lemma value_eqb_str (s : string) (v : value) :
  value_eqb (VStr s) v = true → v = VStr s.
Proof.
  destruct v; try discriminate.
  change (value_eqb (VStr s) (VStr s0)) with (String.eqb s s0).
  by intros ->%String.eqb_eq.
Qed.

Lemma check_value_choice (a : Argparse.Argument) (cs : list value) (v w : value) :
  Argparse.choices a = Some cs → Argparse.check_value a v = Ret w →
  Exists (λ c, value_eqb v c = true) cs.
Proof.
  unfold Argparse.check_value. intros ->.
  destruct (existsb _ cs) eqn:Hex; [|discriminate]. intros _.
  apply existsb_exists in Hex as (c & Hin & Hc).
  apply Exists_exists. exists c. split; [by apply list_elem_of_In | done].
Qed.

Lemma str_values (args : list string) (vs : list value) :
  Forall2 (λ s v, Argparse.str s = Ret v) args vs → vs = VStr <$> args.
Proof.
  induction 1 as [|s v args vs Hs _ IH]; [done|].
  injection Hs as <-. by rewrite IH.
Qed.

(** X6: in the namespace of an accepted command line, [verbosity] is 0, 1 or
    2, and [estimator] is the string ['posterior'] when [-e] is not
    given and otherwise a non-empty list of strings, each of them
    ['posterior'], ['ML'] or ['MAP']. *)
Theorem choices_of_verbosity_and_estimator (argv : list Argparse.item)
    (ns : gmap string value) :
  parse_args argv = Ret ns →
  (∃ n, ns !! "verbosity" = Some (VInt n) ∧ 0 ≤ n ≤ 2) ∧
  (if mentions estimator_flags argv
   then ∃ es, es ≠ [] ∧ ns !! "estimator" = Some (VList (VStr <$> es)) ∧
              Forall (λ e, e ∈ ["posterior"; "ML"; "MAP"]) es
   else ns !! "estimator" = Some (VStr "posterior")).
Proof.
  intros H. split.
  - apply (parsed_single "verbosity" verbosity_flags
             (λ a, Argparse.type a = Argparse.int ∧
                   Argparse.choices a = Some [VInt 0; VInt 1; VInt 2])) in H;
      [|by vm_compute | unfold verbosity_flags; intros f Hf; each_flag Hf; found].
    destruct (mentions _ argv).
    + destruct H as (a & s & v & [Htype Hch] & Hs & Hc & Hns).
      rewrite Htype in Hs. unfold Argparse.int in Hs.
      destruct (PyStr.py_int s) as [n|]; [|discriminate]. injection Hs as <-.
      exists n. split; [done|].
      apply (check_value_choice _ _ _ _ Hch) in Hc.
      repeat (apply Exists_cons in Hc as [->%value_eqb_int | Hc]); [lia ..|].
      by apply Exists_nil in Hc.
    + exists 1. rewrite H. by vm_compute.
  - apply (parsed_list "estimator" estimator_flags
             (λ a, Argparse.type a = Argparse.str ∧
                   Argparse.arity a = Argparse.one_or_more ∧
                   Argparse.choices a = Some [VStr "posterior"; VStr "ML"; VStr "MAP"]))
      in H; [|by vm_compute | unfold estimator_flags; intros f Hf; each_flag Hf; found].
    destruct (mentions _ argv).
    + destruct H as (a & args & vs & (Htype & Harity & Hch) & Hvs & Hc & Hn & Hns).
      rewrite Htype in Hvs. apply str_values in Hvs as ->.
      rewrite Harity in Hn.
      exists args. split; [done|]. split; [done|].
      apply Forall_fmap in Hc. eapply Forall_impl; [exact Hc|].
      intros s Hs. cbn in Hs.
      apply (check_value_choice _ _ _ _ Hch) in Hs.
      repeat (apply Exists_cons in Hs as [Hs%value_eqb_str | Hs]);
        [injection Hs as <- ..|by apply Exists_nil in Hs].
      * apply list_elem_of_here.
      * apply list_elem_of_further, list_elem_of_here.
      * do 2 apply list_elem_of_further. apply list_elem_of_here.
    + rewrite H. by vm_compute.
Qed.

(** [-v 2 -e ML MAP], and the same command line without [-e]. *)
Lemma choices_of_verbosity_and_estimator_witness :
  parse_args (Example.command [Argparse.Opt "-v" ["2"];
                               Argparse.Opt "-e" ["ML"; "MAP"]])
    = Ret (Example.parsed (Example.command [Argparse.Opt "-v" ["2"];
                                            Argparse.Opt "-e" ["ML"; "MAP"]])) ∧
  (∃ n, Example.parsed (Example.command [Argparse.Opt "-v" ["2"];
                                         Argparse.Opt "-e" ["ML"; "MAP"]]) !! "verbosity"
          = Some (VInt n) ∧ 0 ≤ n ≤ 2) ∧
  (∃ es, es ≠ [] ∧
         Example.parsed (Example.command [Argparse.Opt "-v" ["2"];
                                          Argparse.Opt "-e" ["ML"; "MAP"]]) !! "estimator"
           = Some (VList (VStr <$> es)) ∧
         Forall (λ e, e ∈ ["posterior"; "ML"; "MAP"]) es) ∧
  Example.parsed (Example.command [Argparse.Opt "-v" ["2"]]) !! "estimator"
    = Some (VStr "posterior") ∧
  parse_args (Example.command [Argparse.Opt "-v" ["3"]]) = Raise (SystemExit 2).
Proof.
  assert (H1 : parse_args (Example.command [Argparse.Opt "-v" ["2"];
                                            Argparse.Opt "-e" ["ML"; "MAP"]])
               = Ret (Example.parsed (Example.command [Argparse.Opt "-v" ["2"];
                                                       Argparse.Opt "-e" ["ML"; "MAP"]])))
    by (apply parsed_eq; vm_compute; reflexivity).
  assert (H2 : parse_args (Example.command [Argparse.Opt "-v" ["2"]])
               = Ret (Example.parsed (Example.command [Argparse.Opt "-v" ["2"]])))
    by (apply parsed_eq; vm_compute; reflexivity).
  split; [exact H1|].
  split; [exact (proj1 (choices_of_verbosity_and_estimator _ _ H1))|].
  split; [exact (proj2 (choices_of_verbosity_and_estimator _ _ H1))|].
  split; [exact (proj2 (choices_of_verbosity_and_estimator _ _ H2))|].
  vm_compute; reflexivity.
Defined.

(* ===================================================================== *)
(** ** From the namespace to the model *)
(* ===================================================================== *)

Lemma float_number (s : string) (v : value) :
  Argparse.float s = Ret v → is_number v = true.
Proof.
  unfold Argparse.float. destruct (Argparse.float_ s); [|discriminate].
  by intros [= <-].
Qed.

(** A fixed error rate of a parsed namespace is a number. *)
Lemma rate_attribute (d : string) (fs : list string) (argv : list Argparse.item)
    (ns : gmap string value) :
  owns d fs = true →
  (∀ f, f ∈ fs →
        ∃ a, Argparse.find_flag Argparse.parser f = Some a ∧
             Argparse.act a = Argparse.store ∧ Argparse.arity a = Argparse.one ∧
             Argparse.type a = Argparse.float) →
  Argparse.defaults Argparse.parser !! d = Some (VInt (-1)) →
  parse_args argv = Ret ns →
  ∃ v, ns !! d = Some v ∧ is_number v = true.
Proof.
  intros Hown Hfs Hd H.
  apply (parsed_single d fs _ _ _ Hown Hfs) in H.
  destruct (mentions fs argv).
  - destruct H as (a & s & v & Htype & Hs & _ & Hns).
    rewrite Htype in Hs. apply float_number in Hs. by exists v.
  - exists (VInt (-1)). by rewrite H.
Qed.

(** A prior of a parsed namespace is a list of two numbers. *)
Lemma pair_attribute (d : string) (fs : list string) (a0 b0 : value)
    (argv : list Argparse.item) (ns : gmap string value) :
  owns d fs = true →
  (∀ f, f ∈ fs →
        ∃ a, Argparse.find_flag Argparse.parser f = Some a ∧
             Argparse.act a = Argparse.store ∧ Argparse.arity a ≠ Argparse.one ∧
             Argparse.type a = Argparse.float ∧
             Argparse.arity a = Argparse.exactly 2) →
  Argparse.defaults Argparse.parser !! d = Some (VList [a0; b0]) →
  is_number a0 = true → is_number b0 = true →
  parse_args argv = Ret ns →
  ∃ a b, ns !! d = Some (VList [a; b]) ∧ is_number a = true ∧ is_number b = true.
Proof.
  intros Hown Hfs Hd Ha0 Hb0 H.
  apply (parsed_list d fs _ _ _ Hown Hfs) in H.
  destruct (mentions fs argv).
  - destruct H as (a & args & vs & [Htype Harity] & Hvs & _ & Hlen & Hns).
    rewrite Htype in Hvs. rewrite Harity in Hlen.
    destruct (two_values _ (λ v, is_number v = true) _ _ float_number Hvs Hlen)
      as (v1 & v2 & -> & H1 & H2).
    by exists v1, v2.
  - exists a0, b0. by rewrite H.
Qed.

(** Lines 276-286 return for every pair of numbers, whatever the table. *)
Lemma concentration_prior_total (a b : value) (df : DataFrame) (data : ndarray) :
  is_number a = true → is_number b = true →
  ∃ DP_alpha, concentration_prior (VList [a; b]) df data = Ret DP_alpha.
Proof.
  unfold is_number. intros Ha Hb.
  destruct (as_num a) as [x|] eqn:Hx; [|discriminate].
  destruct (as_num b) as [y|] eqn:Hy; [|discriminate].
  unfold concentration_prior, subscript, py_lt. cbn. rewrite Hx. cbn.
  assert (Hdefault :
    ∃ DP_alpha,
      match cancer_cells df with
      | Ret cancer_cells_total =>
          Ret (VTuple [VFloat (F64.sub (Numpy.sqrt (Z.of_nat cancer_cells_total))
                                       (F64.of_Z 5)); VInt 1])
      | Raise (KeyError _) =>
          Ret (VTuple [VFloat (Numpy.sqrt (Z.of_nat (shape data).1)); VInt 1])
      | Raise e => Raise e
      end = Ret DP_alpha).
  { rewrite cancer_cells_spec. destruct (has_column df "Corrected"); eauto. }
  destruct (lt x (I 0)); cbn; [exact Hdefault|].
  rewrite Hy. cbn. destruct (lt y (I 0)); cbn; [exact Hdefault | eauto].
Qed.

(** X7: the namespace of an accepted command line holds what lines
    275-301 read: [DPa_prior] and [param_prior] are lists of two numbers,
    the two fixed error rates are numbers and the four Beta prior options
    are defined, so that no subscript, comparison or attribute look-up of
    these lines fails; and the choice of the concentration prior (lines
    276-286) returns on it, whatever the cell-type table and the data. *)
Theorem parsed_namespace_fits_model_block (argv : list Argparse.item)
    (ns : gmap string value) (df : DataFrame) (data : ndarray) :
  parse_args argv = Ret ns →
  ∃ a b pa pb fp fn,
    ns !! "DPa_prior" = Some (VList [a; b]) ∧
    is_number a = true ∧ is_number b = true ∧
    (∃ DP_alpha, concentration_prior (VList [a; b]) df data = Ret DP_alpha) ∧
    ns !! "param_prior" = Some (VList [pa; pb]) ∧
    is_number pa = true ∧ is_number pb = true ∧
    ns !! "falsePositive" = Some fp ∧ is_number fp = true ∧
    ns !! "falseNegative" = Some fn ∧ is_number fn = true ∧
    ∀ d, d ∈ ["falsePositive_mean"; "falsePositive_std";
              "falseNegative_mean"; "falseNegative_std"] → is_Some (ns !! d).
Proof.
  intros H.
  destruct (pair_attribute "DPa_prior" ["-ap"; "--DPa_prior"] (VInt (-1)) (VInt (-1))
              argv ns) as (a & b & HDPa & Ha & Hb);
    [by vm_compute | intros f Hf; each_flag Hf; found | by vm_compute .. | done |].
  destruct (pair_attribute "param_prior" ["-pp"; "--param_prior"]
              (VFloat (float_lit ".25")) (VFloat (float_lit ".25")) argv ns)
    as (pa & pb & Hpp & Hpa & Hpb);
    [by vm_compute | intros f Hf; each_flag Hf; found | by vm_compute .. | done |].
  destruct (rate_attribute "falsePositive" ["-FP"; "--falsePositive"] argv ns)
    as (fp & Hfp & Hx);
    [by vm_compute | intros f Hf; each_flag Hf; found | by vm_compute | done |].
  destruct (rate_attribute "falseNegative" ["-FN"; "--falseNegative"] argv ns)
    as (fn & Hfn & Hy);
    [by vm_compute | intros f Hf; each_flag Hf; found | by vm_compute | done |].
  exists a, b, pa, pb, fp, fn.
  do 3 (split; [done|]). split; [by apply concentration_prior_total|].
  do 7 (split; [done|]).
  intros d Hd. apply (parsed_defined argv ns d H).
  apply existsb_eqb_elem. by each_flag Hd.
Qed.

(** The default command line, with the example table and matrix. *)
Lemma parsed_namespace_fits_model_block_witness :
  parse_args (Example.command []) = Ret (Example.parsed (Example.command [])) ∧
  Example.parsed (Example.command []) !! "DPa_prior"
    = Some (VList [VInt (-1); VInt (-1)]) ∧
  ∃ DP_alpha,
    concentration_prior (VList [VInt (-1); VInt (-1)]) Example.table Example.matrix
    = Ret DP_alpha.
Proof.
  assert (H : parse_args (Example.command [])
              = Ret (Example.parsed (Example.command [])))
    by (apply parsed_eq; vm_compute; reflexivity).
  split; [exact H|].
  destruct (parsed_namespace_fits_model_block _ _ Example.table Example.matrix H)
    as (a & b & pa & pb & fp & fn & HDPa & _ & _ & HDP & _).
  assert (Hab : Some (VList [a; b]) = Some (VList [VInt (-1); VInt (-1)])).
  { rewrite <- HDPa. vm_compute; reflexivity. }
  injection Hab as -> ->. split; [vm_compute; reflexivity | exact HDP].
Defined.

(* ===================================================================== *)
(** * What [main] hands to the sampler *)
(* ===================================================================== *)

(** What a returning [main] read and assigned.  [a] is the namespace as
    [process_sim_folder] leaves it, [args'] the one [build_model]
    returns. *)
Lemma main_calls (w : World) (args : gmap string value) (r : Run) :
  main w args = Ret r →
  let a := process_sim_folder w args in
  ∃ DP_alpha args' run_str,
    build_model a (data_used r) DP_alpha = Ret (args', model (mcmc r)) ∧
    get_mcmc_termination w (<["time" := VList [now w]]> args')
      = Ret (run_var (call r), run_str) ∧
    args' !! "split_merge_prob" = Some (sm_prob (mcmc r)) ∧
    args' !! "conc_update_prob" = Some (dpa_prob (mcmc r)) ∧
    args' !! "error_update_prob" = Some (error_prob (mcmc r)) ∧
    args' !! "split_merge_ratios" = Some (sm_ratios (mcmc r)) ∧
    args' !! "split_merge_steps" = Some (sm_steps (mcmc r)) ∧
    args' !! "seed" = Some (seed (call r)) ∧
    args' !! "verbosity" = Some (verbosity (call r)) ∧
    args' !! "fixed_assignment" = Some (assign_file (call r)) ∧
    args' !! "debug" = Some (debug (call r)) ∧
    (truthy (debug (call r)) = false → args' !! "chains" = Some (n_chains (call r))) ∧
    (truthy (debug (call r)) = true → n_chains (call r) = VInt 1) ∧
    args_at_run r =
      (if truthy (debug (call r))
       then <["chains" := VInt 1]> (<["time" := VList [now w]]> args')
       else <["time" := VList [now w]]> args').
Proof.
  intros H a. unfold main in H.
  bind_inv H as ctypes Hctypes. bind_inv H as raw Hraw.
  bind_inv H as table Htable. bind_inv H as scDNA HscDNA.
  bind_inv H as scDNA_df Hsc. fold a in H.
  bind_inv H as input Hinput. bind_inv H as transpose Htranspose.
  bind_inv H as [[data0 frac0] names0] Hload.
  bind_inv H as ctypes_df Hkeep.
  bind_inv H as [[data frac] names] Hrel.
  bind_inv H as DPa HDPa. bind_inv H as DP_alpha HDP.
  bind_inv H as [args' BnpC] Hmodel.
  bind_inv H as [run_var run_str] Hterm.
  bind_inv H as smp Hsmp. bind_inv H as cup Hcup. bind_inv H as eup Heup.
  bind_inv H as smr Hsmr. bind_inv H as sms Hsms.
  bind_inv H as verbosity Hv. bind_inv H as verbose Hverbose.
  bind_inv H as printed Hprinted. bind_inv H as d Hd.
  bind_inv H as seed Hseed. bind_inv H as chains Hchains.
  bind_inv H as verbosity' Hv'. bind_inv H as fa Hfa. bind_inv H as d' Hd'.
  injection H as <-. cbn.
  rewrite lookup_insert_ne in Hsmp, Hcup, Heup, Hsmr, Hsms, Hv, Hd by done.
  assert (d' = d) as ->.
  { destruct (truthy d); [rewrite lookup_insert_ne in Hd' by done|];
      rewrite lookup_insert_ne in Hd' by done; congruence. }
  exists DP_alpha, args', run_str.
  destruct (truthy d) eqn:Htruthy.
  - rewrite !lookup_insert_ne in Hseed, Hv', Hfa by done.
    rewrite lookup_insert_eq in Hchains. injection Hchains as <-.
    repeat split; done.
  - rewrite lookup_insert_ne in Hseed, Hchains, Hv', Hfa by done.
    repeat split; done.
Qed.

(** X8: [main] passes the move probabilities, the split-merge settings, the
    seed, the verbosity and the assignment file to the sampler as
    [args] holds them after [io.process_sim_folder]; so it does the
    number of chains unless [--debug] is set, and the error-update
    probability unless both fixed error rates are given. *)
Theorem main_forwards_options (w : World) (args : gmap string value) (r : Run) :
  main w args = Ret r →
  let a := process_sim_folder w args in
  a !! "split_merge_prob" = Some (sm_prob (mcmc r)) ∧
  a !! "conc_update_prob" = Some (dpa_prob (mcmc r)) ∧
  a !! "split_merge_ratios" = Some (sm_ratios (mcmc r)) ∧
  a !! "split_merge_steps" = Some (sm_steps (mcmc r)) ∧
  a !! "seed" = Some (seed (call r)) ∧
  a !! "verbosity" = Some (verbosity (call r)) ∧
  a !! "fixed_assignment" = Some (assign_file (call r)) ∧
  a !! "debug" = Some (debug (call r)) ∧
  (truthy (debug (call r)) = false → a !! "chains" = Some (n_chains (call r))) ∧
  (learned_mode a → a !! "error_update_prob" = Some (error_prob (mcmc r))).
Proof.
  intros H a.
  destruct (main_calls _ _ _ H)
    as (DP_alpha & args' & run_str & Hmodel & _ & H1 & H2 & H3 & H4 & H5 & H6 & H7
        & H8 & H9 & H10 & _ & _).
  fold a in Hmodel.
  assert (Hkeep := λ k, build_model_keeps _ _ _ _ _ k Hmodel).
  rewrite Hkeep in H1, H2, H4, H5, H6, H7, H8, H9 by done.
  repeat split; try done.
  - intros Hd. rewrite <- Hkeep by done. auto.
  - intros (fp & fn & x & y & Hfp & Hfn & Hx & Hy & Hneg).
    apply build_model_inv in Hmodel as (fp' & pb & Hfp' & _ & [Hfixed | Hlearn]).
    + exfalso. destruct Hfixed as (fn' & Hfn' & Hp & Hn & _).
      assert (fp' = fp) as -> by congruence. assert (fn' = fn) as -> by congruence.
      unfold nonnegative in Hp, Hn. rewrite Hx in Hp. rewrite Hy in Hn.
      destruct Hneg as [Hneg | Hneg]; apply lt_zero_not_ge in Hneg; congruence.
    + destruct Hlearn as (_ & -> & _). done.
Qed.

(** A run in learning mode, without [--debug]. *)
Lemma main_forwards_options_witness :
  main Example.world (Example.parsed Example.one_rate)
    = Ret (Example.ran Example.world Example.one_rate) ∧
  process_sim_folder Example.world (Example.parsed Example.one_rate) !! "seed"
    = Some (seed (call (Example.ran Example.world Example.one_rate))) ∧
  process_sim_folder Example.world (Example.parsed Example.one_rate) !! "chains"
    = Some (n_chains (call (Example.ran Example.world Example.one_rate))) ∧
  process_sim_folder Example.world (Example.parsed Example.one_rate)
    !! "error_update_prob"
    = Some (error_prob (mcmc (Example.ran Example.world Example.one_rate))).
Proof.
  assert (Hmain : main Example.world (Example.parsed Example.one_rate)
                  = Ret (Example.ran Example.world Example.one_rate))
    by (apply ran_eq; vm_compute; reflexivity).
  split; [exact Hmain|].
  destruct (main_forwards_options _ _ _ Hmain)
    as (_ & _ & _ & _ & Hseed & _ & _ & _ & Hchains & Herror).
  split; [exact Hseed|]. split.
  - apply Hchains. vm_compute; reflexivity.
  - apply Herror.
    exists (VInt (-1)), (VFloat (float_lit "0.3")), (I (-1)), (F (float_lit "0.3")).
    repeat split; try (vm_compute; reflexivity). left. vm_compute; reflexivity.
Defined.

(** The namespace at the call of [mcmc.run]. *)
Lemma args_at_run_lookup (w : World) (args : gmap string value) (r : Run) :
  main w args = Ret r →
  (∀ k, k ∉ attributes_assigned →
        args_at_run r !! k = process_sim_folder w args !! k) ∧
  args_at_run r !! "time" = Some (VList [now w]) ∧
  args_at_run r !! "error_update_prob" = Some (error_prob (mcmc r)) ∧
  args_at_run r !! "chains" = Some (n_chains (call r)).
Proof.
  intros H.
  destruct (main_calls _ _ _ H)
    as (DP_alpha & args' & run_str & Hmodel & _ & _ & _ & Heup & _ & _ & _ & _ & _ & _
        & Hchains & Hone & ->).
  assert (Hkeep := λ k, build_model_keeps _ _ _ _ _ k Hmodel).
  split; [|split; [|split]].
  - intros k Hk. unfold attributes_assigned in Hk.
    apply not_elem_of_cons in Hk as [Hk1 Hk].
    apply not_elem_of_cons in Hk as [Hk2 Hk].
    apply not_elem_of_cons in Hk as [Hk3 _].
    destruct (truthy _); rewrite !lookup_insert_ne by done; by apply Hkeep.
  - destruct (truthy _); [rewrite lookup_insert_ne by done|];
      by rewrite lookup_insert_eq.
  - destruct (truthy _); rewrite !lookup_insert_ne by done; exact Heup.
  - destruct (truthy _).
    + by rewrite lookup_insert_eq, Hone.
    + rewrite lookup_insert_ne by done. by apply Hchains.
Qed.

(** X9: of the attributes of [args], [main] assigns only [error_update_prob],
    [time] and [chains]; when [mcmc.run] is called they hold what the
    sampler was given, and [time] the one time stamp taken. *)
Theorem main_assigns_three_attributes (w : World) (args : gmap string value)
    (r : Run) :
  main w args = Ret r →
  (∀ k, k ∉ attributes_assigned →
        args_at_run r !! k = process_sim_folder w args !! k) ∧
  args_at_run r !! "time" = Some (VList [now w]) ∧
  args_at_run r !! "error_update_prob" = Some (error_prob (mcmc r)) ∧
  args_at_run r !! "chains" = Some (n_chains (call r)).
Proof. apply args_at_run_lookup. Qed.

(** With [--debug -n 4] the namespace holds [chains = 1] at the call. *)
Lemma main_assigns_three_attributes_witness :
  main Example.world (Example.parsed Example.debugging)
    = Ret (Example.ran Example.world Example.debugging) ∧
  Example.parsed Example.debugging !! "chains" = Some (VInt 4) ∧
  args_at_run (Example.ran Example.world Example.debugging) !! "chains"
    = Some (n_chains (call (Example.ran Example.world Example.debugging))) ∧
  n_chains (call (Example.ran Example.world Example.debugging)) = VInt 1 ∧
  args_at_run (Example.ran Example.world Example.debugging) !! "seed"
    = process_sim_folder Example.world (Example.parsed Example.debugging) !! "seed".
Proof.
  assert (Hmain : main Example.world (Example.parsed Example.debugging)
                  = Ret (Example.ran Example.world Example.debugging))
    by (apply ran_eq; vm_compute; reflexivity).
  split; [exact Hmain|]. split; [vm_compute; reflexivity|].
  destruct (main_assigns_three_attributes _ _ _ Hmain) as (Hkeep & _ & _ & Hchains).
  split; [exact Hchains|]. split; [vm_compute; reflexivity|].
  apply Hkeep. unfold attributes_assigned.
  intros Hin. repeat (apply elem_of_cons in Hin as [Hin | Hin]; [discriminate Hin|]).
  by apply elem_of_nil in Hin.
Defined.

(* ===================================================================== *)
(** * The concentration prior *)
(* ===================================================================== *)

(** Lines 276-286 with a pair of numbers none of which is below 0. *)
Lemma concentration_prior_user (DPa : value) (df : DataFrame) (data : ndarray) :
  user_prior DPa = true → concentration_prior DPa df data = Ret DPa.
Proof.
  unfold user_prior, concentration_prior, subscript, py_lt.
  destruct DPa as [| | | | |[|a [|b l]]|[|a [|b l]]]; try discriminate; cbn;
    (destruct (as_num a) as [x|]; [|discriminate]);
    (destruct (as_num b) as [y|]; [|discriminate]); cbn;
    (destruct (lt x (I 0)); [discriminate|]); cbn;
    (destruct (lt y (I 0)); [discriminate|]); done.
Qed.

(** X10: a prior given on the command line with no component below 0 is the
    prior of the model, as it was given: the cell-type table and the data
    are not consulted. *)
Theorem user_prior_reaches_model (w : World) (args : gmap string value) (r : Run)
    (DPa : value) :
  process_sim_folder w args !! "DPa_prior" = Some DPa →
  user_prior DPa = true →
  main w args = Ret r →
  prior_of (model (mcmc r)) = DPa.
Proof.
  intros HDPa Huser H.
  destruct (main_inv _ _ _ H)
    as (table & input & transpose & data0 & frac0 & names0 & DPa' & DP_alpha & args' & d
        & _ & _ & _ & HDPa' & HDP & Hmodel & _).
  assert (DPa' = DPa) as -> by congruence.
  rewrite (concentration_prior_user _ _ _ Huser) in HDP. injection HDP as <-.
  by eapply build_model_prior.
Qed.

Lemma user_prior_reaches_model_witness :
  main Example.world
       (Example.parsed (Example.command [Argparse.Opt "-ap" ["2"; "0.5"]]))
    = Ret (Example.ran Example.world
             (Example.command [Argparse.Opt "-ap" ["2"; "0.5"]])) ∧
  prior_of (model (mcmc (Example.ran Example.world
                           (Example.command [Argparse.Opt "-ap" ["2"; "0.5"]]))))
    = VList [VFloat (float_lit "2"); VFloat (float_lit "0.5")].
Proof.
  assert (Hmain : main Example.world
                    (Example.parsed (Example.command [Argparse.Opt "-ap" ["2"; "0.5"]]))
                  = Ret (Example.ran Example.world
                           (Example.command [Argparse.Opt "-ap" ["2"; "0.5"]])))
    by (apply ran_eq; vm_compute; reflexivity).
  split; [exact Hmain|].
  apply (user_prior_reaches_model Example.world
           (Example.parsed (Example.command [Argparse.Opt "-ap" ["2"; "0.5"]])));
    [vm_compute; reflexivity .. | exact Hmain].
Defined.

Lemma sqrt_minus_five_negative (c : nat) :
  (c < 25)%nat →
  lt (F (F64.sub (Numpy.sqrt (Z.of_nat c)) (F64.of_Z 5))) (I 0) = true.
Proof.
  intros Hc.
  do 25 (destruct c as [|c]; [vm_compute; reflexivity|]). lia.
Qed.

(** X11: when the default prior is derived from the cell-type table and
    fewer than 25 of its rows are marked ['Cancer'], the first component
    of the prior given to the model, sqrt(C) - 5, is negative. *)
Theorem default_prior_negative_below_25 (w : World) (args : gmap string value)
    (r : Run) (DPa : value) :
  process_sim_folder w args !! "DPa_prior" = Some DPa →
  default_requested DPa = true →
  has_column (ctypes_used r) "Corrected" = true →
  (marked_cancer (ctypes_used r) < 25)%nat →
  main w args = Ret r →
  ∃ x, prior_of (model (mcmc r)) = VTuple [VFloat x; VInt 1] ∧
       lt (F x) (I 0) = true.
Proof.
  intros HDPa Hdef Hcol Hc H.
  destruct (main_inv _ _ _ H)
    as (table & input & transpose & data0 & frac0 & names0 & DPa' & DP_alpha & args' & d
        & _ & _ & _ & HDPa' & HDP & Hmodel & _).
  assert (DPa' = DPa) as -> by congruence.
  rewrite (concentration_prior_default _ _ _ Hdef), Hcol in HDP. injection HDP as <-.
  eexists. split; [by eapply build_model_prior|].
  by apply sqrt_minus_five_negative.
Qed.

(** The default command line with the example table: two cells are
    marked, and the first component is sqrt(2) - 5. *)
Lemma default_prior_negative_below_25_witness :
  main Example.world (Example.parsed (Example.command []))
    = Ret (Example.ran Example.world (Example.command [])) ∧
  marked_cancer (ctypes_used (Example.ran Example.world (Example.command []))) = 2%nat ∧
  ∃ x, prior_of (model (mcmc (Example.ran Example.world (Example.command []))))
         = VTuple [VFloat x; VInt 1] ∧
       lt (F x) (I 0) = true.
Proof.
  assert (Hmain : main Example.world (Example.parsed (Example.command []))
                  = Ret (Example.ran Example.world (Example.command [])))
    by (apply ran_eq; vm_compute; reflexivity).
  split; [exact Hmain|]. split; [vm_compute; reflexivity|].
  apply (default_prior_negative_below_25 Example.world
           (Example.parsed (Example.command [])) _ (VList [VInt (-1); VInt (-1)]));
    [vm_compute; reflexivity | vm_compute; reflexivity | vm_compute; reflexivity
    | | exact Hmain].
  apply Nat.ltb_lt. vm_compute; reflexivity.
Defined.

(* ===================================================================== *)
(** * The filter on the mutation sites *)
(* ===================================================================== *)

Lemma mask_length (data : ndarray) :
  length (gt_zero (isfinite_mean_axis0 data)) = (shape data).2.
Proof. unfold gt_zero, isfinite_mean_axis0. by rewrite !length_map, length_seq. Qed.

(** X12: the three filters of lines 271-273 succeed together or not at all:
    [relevant_mutations] returns exactly when the fraction matrix and
    the vector of site names have as many columns as the data matrix,
    and raises [IndexError] otherwise. *)
Theorem relevant_mutations_needs_equal_widths (data frac : ndarray)
    (names : list string * list string) :
  match relevant_mutations data frac names with
  | Ret _ => (shape frac).2 = (shape data).2 ∧ length names.2 = (shape data).2
  | Raise e => e = IndexError ∧
               ((shape frac).2 ≠ (shape data).2 ∨ length names.2 ≠ (shape data).2)
  end.
Proof.
  unfold relevant_mutations, take_columns, take_items.
  rewrite mask_length, Nat.eqb_refl. cbn.
  destruct (Nat.eqb_spec (shape data).2 (shape frac).2) as [Hf | Hf]; cbn.
  - destruct (Nat.eqb_spec (shape data).2 (length names.2)) as [Hn | Hn]; cbn.
    + by split.
    + split; [done|]. right. congruence.
  - split; [done|]. left. congruence.
Qed.

(** What [relevant_mutations] returns. *)
Lemma relevant_mutations_Ret (data frac : ndarray) (names : list string * list string)
    (data' frac' : ndarray) (names' : list string * list string) :
  relevant_mutations data frac names = Ret (data', frac', names') →
  let mask := gt_zero (isfinite_mean_axis0 data) in
  (shape frac).2 = (shape data).2 ∧ length names.2 = (shape data).2 ∧
  data' = mkArray ((shape data).1, count_true mask) (map (select mask) (entries data)) ∧
  frac' = mkArray ((shape frac).1, count_true mask) (map (select mask) (entries frac)) ∧
  names' = (names.1, select mask names.2).
Proof.
  unfold relevant_mutations, take_columns, take_items.
  rewrite mask_length, Nat.eqb_refl. cbn.
  destruct (Nat.eqb_spec (shape data).2 (shape frac).2) as [Hf | Hf]; [|discriminate].
  cbn. destruct (Nat.eqb_spec (shape data).2 (length names.2)) as [Hn | Hn];
    [|discriminate].
  cbn. intros [= <- <- <-]. by repeat split.
Qed.

Lemma map_seq_true (f : nat → bool) (s n : nat) :
  (∀ j, (s ≤ j < s + n)%nat → f j = true) → map f (seq s n) = repeat true n.
Proof.
  revert s. induction n as [|n IH]; intros s Hf; [done|]. cbn.
  rewrite Hf by lia. f_equal. apply IH. intros j Hj. apply Hf. lia.
Qed.

Lemma select_all {A} (l : list A) (n : nat) :
  n = length l → select (repeat true n) l = l.
Proof. intros ->. induction l as [|x l IH]; [done|]. cbn. by rewrite IH. Qed.

Lemma count_true_repeat (n : nat) : count_true (repeat true n) = n.
Proof.
  induction n as [|n IH]; [done|].
  change (repeat true (S n)) with (true :: repeat true n).
  rewrite count_true_cons, IH. done.
Qed.

Lemma take_well_formed (a : ndarray) (mask : list bool) :
  well_formed a → length mask = (shape a).2 →
  well_formed (mkArray ((shape a).1, count_true mask) (map (select mask) (entries a))).
Proof.
  intros [Hrows Hcols] Hlen. split; cbn.
  - by rewrite length_map.
  - apply Forall_map. eapply Forall_impl; [exact Hcols|].
    intros r Hr. cbn in *. apply select_length. congruence.
Qed.

(** Every column that is kept holds a finite entry. *)
Lemma taken_informative (a : ndarray) :
  well_formed a →
  informative (mkArray ((shape a).1, count_true (informative a))
                       (map (select (informative a)) (entries a)))
  = repeat true (count_true (informative a)).
Proof.
  intros Hwf. unfold informative at 1. cbn [shape snd].
  apply map_seq_true. intros j [_ Hj]. cbn in Hj.
  destruct (kept_Some _ _ Hj) as [i Hi]. apply negb_true_iff.
  unfold all_missing. rewrite (column_take a _ j i Hwf); [| |done].
  - apply (informative_lookup a i). by eapply kept_true.
  - unfold informative. by rewrite length_map, length_seq.
Qed.

Lemma take_all (a : ndarray) (n : nat) :
  well_formed a → n = (shape a).2 →
  take_columns a (repeat true n) = Ret a.
Proof.
  intros [Hrows Hcols] ->. unfold take_columns.
  rewrite repeat_length, Nat.eqb_refl, count_true_repeat.
  destruct a as [[n m] rows]. cbn in *. do 2 f_equal.
  rewrite <- (map_id rows) at 2. apply map_ext_Forall.
  eapply Forall_impl; [exact Hcols|]. intros r Hr. by apply select_all.
Qed.

(** X13: filtering is idempotent: applied to its own result,
    [relevant_mutations] removes nothing. *)
Theorem relevant_mutations_idempotent (data frac : ndarray)
    (names : list string * list string) (data' frac' : ndarray)
    (names' : list string * list string) :
  well_formed data → well_formed frac →
  Z.of_nat (shape data).1 < 2 ^ 53 →
  relevant_mutations data frac names = Ret (data', frac', names') →
  relevant_mutations data' frac' names' = Ret (data', frac', names').
Proof.
  intros Hwf Hwf' Hn H. apply relevant_mutations_Ret in H. cbn zeta in H.
  rewrite (mask_informative _ Hwf Hn) in H.
  destruct H as (Hf & Hnames & -> & -> & ->).
  assert (Hmask : length (informative data) = (shape data).2)
    by (unfold informative; by rewrite length_map, length_seq).
  assert (Hd := take_well_formed data _ Hwf Hmask).
  assert (Hfr := take_well_formed frac (informative data) Hwf' ltac:(congruence)).
  unfold relevant_mutations.
  rewrite (mask_informative _ Hd) by done.
  rewrite (taken_informative _ Hwf).
  rewrite (take_all _ (count_true (informative data)) Hd eq_refl). cbn [mbind result_bind].
  rewrite (take_all _ (count_true (informative data)) Hfr eq_refl). cbn [mbind result_bind].
  unfold take_items. cbn [snd fst].
  rewrite repeat_length, select_length by congruence.
  rewrite Nat.eqb_refl. cbn [mbind result_bind].
  rewrite select_all; [done|]. rewrite select_length; congruence.
Qed.

Lemma relevant_mutations_idempotent_witness :
  well_formed Example.matrix ∧
  relevant_mutations Example.matrix Example.matrix Example.names
    = Ret (Example.kept_matrix, Example.kept_matrix, Example.kept_names) ∧
  relevant_mutations Example.kept_matrix Example.kept_matrix Example.kept_names
    = Ret (Example.kept_matrix, Example.kept_matrix, Example.kept_names).
Proof.
  assert (Hwf : well_formed Example.matrix)
    by (split; [reflexivity | repeat constructor]).
  assert (H : relevant_mutations Example.matrix Example.matrix Example.names
              = Ret (Example.kept_matrix, Example.kept_matrix, Example.kept_names))
    by (vm_compute; reflexivity).
  split; [exact Hwf|]. split; [exact H|].
  apply (relevant_mutations_idempotent Example.matrix Example.matrix Example.names);
    [exact Hwf | exact Hwf | vm_compute; reflexivity | exact H].
Defined.

Lemma select_none {A} (mask : list bool) (l : list A) :
  Forall (λ b, b = false) mask → select mask l = [].
Proof.
  intros Hmask. revert l. induction Hmask as [|b mask -> _ IH]; intros [|x l]; try done.
  cbn. apply IH.
Qed.

Lemma count_true_none (mask : list bool) :
  Forall (λ b, b = false) mask → count_true mask = 0%nat.
Proof.
  induction 1 as [|b mask -> _ IH]; [done|]. by rewrite count_true_cons, IH.
Qed.

(** X14: with no cell in the data matrix every site is dropped: the mean
    over no rows is not a number, and a mask of [False] selects nothing. *)
Theorem no_cells_no_sites (data frac : ndarray) (names : list string * list string)
    (data' frac' : ndarray) (names' : list string * list string) :
  well_formed data → (shape data).1 = 0%nat →
  relevant_mutations data frac names = Ret (data', frac', names') →
  shape data' = (0%nat, 0%nat) ∧ (shape frac').2 = 0%nat ∧ names'.2 = [].
Proof.
  intros Hwf Hrows H. apply relevant_mutations_Ret in H. cbn zeta in H.
  rewrite (mask_informative _ Hwf) in H by (rewrite Hrows; done).
  destruct H as (_ & _ & -> & -> & ->).
  assert (Hmask : Forall (λ b, b = false) (informative data)).
  { destruct Hwf as [Hlen _]. rewrite Hrows in Hlen.
    apply nil_length_inv in Hlen. unfold informative, all_missing, column.
    rewrite Hlen. apply Forall_map, Forall_forall. done. }
  cbn. rewrite Hrows, (count_true_none _ Hmask), (select_none _ _ Hmask). done.
Qed.

Lemma no_cells_no_sites_witness :
  well_formed (mkArray (0%nat, 2%nat) []) ∧
  relevant_mutations (mkArray (0%nat, 2%nat) []) (mkArray (0%nat, 2%nat) [])
    ([], ["m1"; "m2"])
  = Ret (mkArray (0%nat, 0%nat) [], mkArray (0%nat, 0%nat) [], ([], [])) ∧
  shape (mkArray (0%nat, 0%nat) []) = (0%nat, 0%nat).
Proof.
  assert (Hwf : well_formed (mkArray (0%nat, 2%nat) [])) by (split; [reflexivity | constructor]).
  assert (H : relevant_mutations (mkArray (0%nat, 2%nat) []) (mkArray (0%nat, 2%nat) [])
                ([], ["m1"; "m2"])
              = Ret (mkArray (0%nat, 0%nat) [], mkArray (0%nat, 0%nat) [], ([], [])))
    by (vm_compute; reflexivity).
  split; [exact Hwf|]. split; [exact H|].
  exact (proj1 (no_cells_no_sites _ _ _ _ _ _ Hwf eq_refl H)).
Defined.

(* ===================================================================== *)
(** * The cell-type table *)
(* ===================================================================== *)

(** ** Columns *)

Lemma position_lookup (name : string) (cols : list (string * dtype)) (j : nat) :
  position name cols = Some j → ∃ d, cols !! j = Some (name, d).
Proof.
  revert j. induction cols as [|[c d] cols IH]; intros j; [done|].
  cbn [position]. destruct (String.eqb_spec c name) as [-> | Hne].
  - intros [= <-]. by exists d.
  - destruct (position name cols) as [j'|]; [|done]. intros [= <-]. by apply IH.
Qed.

Lemma position_lt (name : string) (cols : list (string * dtype)) (j : nat) :
  position name cols = Some j → (j < length cols)%nat.
Proof.
  intros [d Hd]%position_lookup. by apply lookup_lt_Some in Hd.
Qed.

(** Two names at one position are one name. *)
Lemma position_inj (n1 n2 : string) (cols : list (string * dtype)) (j : nat) :
  position n1 cols = Some j → position n2 cols = Some j → n1 = n2.
Proof.
  intros [d1 H1]%position_lookup [d2 H2]%position_lookup. congruence.
Qed.

(** Replacing the entry of a column under its own name moves no column. *)
Lemma position_insert (name name' : string) (d : dtype) (cols : list (string * dtype))
    (j : nat) :
  position name cols = Some j →
  position name' (<[j := (name, d)]> cols) = position name' cols.
Proof.
  revert j. induction cols as [|[c d0] cols IH]; intros j; [done|].
  cbn [position]. destruct (String.eqb_spec c name) as [-> | Hne].
  - intros [= <-]. done.
  - destruct (position name cols) as [j'|] eqn:Hj; [|done]. intros [= <-].
    change (<[S j' := (name, d)]> ((c, d0) :: cols))
      with ((c, d0) :: <[j' := (name, d)]> cols).
    cbn [position]. by rewrite (IH j').
Qed.

(** A column appended at the end moves no column. *)
Lemma position_app (name n : string) (d : dtype) (cols : list (string * dtype)) (j : nat) :
  position name cols = Some j → position name (cols ++ [(n, d)]) = Some j.
Proof.
  revert j. induction cols as [|[c d0] cols IH]; intros j; [done|].
  cbn [position app]. destruct (String.eqb c name); [done|].
  destruct (position name cols) as [j'|]; [|done]. intros [= <-].
  by rewrite (IH j').
Qed.

Lemma position_app_new (name : string) (d : dtype) (cols : list (string * dtype)) :
  position name cols = None → position name (cols ++ [(name, d)]) = Some (length cols).
Proof.
  induction cols as [|[c d0] cols IH]; cbn [position app].
  - by rewrite String.eqb_refl.
  - destruct (String.eqb c name); [done|].
    destruct (position name cols); [done|]. intros _. by rewrite IH.
Qed.

Lemma position_app_inv (name n : string) (d : dtype) (cols : list (string * dtype)) :
  n ≠ name → is_Some (position name (cols ++ [(n, d)])) → is_Some (position name cols).
Proof.
  intros Hne. induction cols as [|[c d0] cols IH]; cbn [position app].
  - destruct (String.eqb_spec n name); [done|]. by intros [? ?].
  - destruct (String.eqb c name); [done|].
    destruct (position name (cols ++ _)); [|by intros [? ?]].
    intros _. destruct IH as [j ->]; by eexists.
Qed.

Lemma has_column_position (df : DataFrame) (name : string) :
  has_column df name = true ↔ is_Some (position name (columns df)).
Proof. unfold has_column. apply bool_decide_eq_true. Qed.

(** ** Rows *)

Lemma select_map_filter {A} (f : A → bool) (l : list A) :
  select (map f l) l = filter (λ x, f x = true) l.
Proof.
  induction l as [|x l IH]; [done|]. cbn [map select]. rewrite filter_cons, IH.
  destruct (f x) eqn:Hx.
  - by rewrite decide_True.
  - by rewrite decide_False.
Qed.

Lemma zip_with_map {A B C} (f : A → B → C) (g : A → B) (l : list A) :
  zip_with f l (map g l) = map (λ x, f x (g x)) l.
Proof. induction l as [|x l IH]; [done|]. cbn. by rewrite IH. Qed.

Lemma getitem_Ret (df : DataFrame) (name : string) (vals : list cell) :
  getitem df name = Ret vals →
  ∃ j, position name (columns df) = Some j ∧ vals = map (at_ j) (rows df).
Proof.
  unfold getitem. destruct (position name (columns df)) as [j|]; [|discriminate].
  intros [= <-]. by exists j.
Qed.

Lemma at_insert_ne (j k : nat) (v : cell) (r : Z * list cell) :
  j ≠ k → at_ j (r.1, <[k := v]> r.2) = at_ j r.
Proof. intros Hne. unfold at_. cbn. by rewrite list_lookup_insert_ne. Qed.

Lemma at_insert_eq (j : nat) (v : cell) (r : Z * list cell) :
  (j < length r.2)%nat → at_ j (r.1, <[j := v]> r.2) = v.
Proof. intros Hj. unfold at_. cbn. by rewrite list_lookup_insert_eq. Qed.

Lemma at_app (j : nat) (v : cell) (r : Z * list cell) :
  (j < length r.2)%nat → at_ j (r.1, (r.2 ++ [v])%list) = at_ j r.
Proof. intros Hj. unfold at_. cbn. by rewrite lookup_app_l. Qed.

Lemma at_app_new (v : cell) (r : Z * list cell) :
  at_ (length r.2) (r.1, (r.2 ++ [v])%list) = v.
Proof. unfold at_. cbn. by rewrite list_lookup_middle. Qed.

(** The rows and the columns after [df[name] = f(row)]. *)
Lemma setitem_map (df : DataFrame) (name : string) (d : dtype)
    (f : Z * list cell → cell) :
  setitem df name d (map f (rows df))
  = match position name (columns df) with
    | Some j => mkFrame (<[j := (name, d)]> (columns df))
                        (map (λ r, (r.1, <[j := f r]> r.2)) (rows df))
    | None => mkFrame (columns df ++ [(name, d)])%list
                      (map (λ r, (r.1, (r.2 ++ [f r])%list)) (rows df))
    end.
Proof.
  unfold setitem. destruct (position name (columns df)); by rewrite zip_with_map.
Qed.

(** ** Sorting *)

Lemma insert_row_perm (keys : list (nat * dtype * bool)) (r : Z * list cell)
    (l : list (Z * list cell)) :
  insert_row keys r l ≡ₚ r :: l.
Proof.
  induction l as [|r' l IH]; [done|]. cbn [insert_row].
  destruct (row_le keys r r'); [done|]. rewrite IH. apply Permutation_swap.
Qed.

Lemma sort_perm (keys : list (nat * dtype * bool)) (l : list (Z * list cell)) :
  foldr (insert_row keys) [] l ≡ₚ l.
Proof.
  induction l as [|r l IH]; [done|]. cbn [foldr].
  by rewrite insert_row_perm, IH.
Qed.

Lemma cell_compare_antisym (d : dtype) (x y : cell) :
  cell_compare d y x = CompOpp (cell_compare d x y).
Proof.
  destruct d as [|cats], x as [s|a|], y as [t|b|]; cbn; try done.
  - apply String.compare_antisym.
  - apply Z.compare_antisym.
  - apply Nat.compare_antisym.
  - apply Z.compare_antisym.
Qed.

Lemma key_compare_antisym (d : dtype) (asc : bool) (x y : cell) :
  key_compare d asc y x = CompOpp (key_compare d asc x y).
Proof.
  unfold key_compare. rewrite (cell_compare_antisym d x y).
  destruct x, y, asc; try done; by rewrite CompOpp_involutive.
Qed.

(** The order of the rows is total. *)
Lemma row_le_total (keys : list (nat * dtype * bool)) (r1 r2 : Z * list cell) :
  row_le keys r1 r2 = false → row_le keys r2 r1 = true.
Proof.
  induction keys as [|[[j d] asc] keys IH]; [done|]. cbn [row_le].
  rewrite (key_compare_antisym d asc (at_ j r1) (at_ j r2)).
  destruct (key_compare d asc (at_ j r1) (at_ j r2)); cbn; auto.
Qed.

(** Neighbours in a list are in order. *)
Lemma insert_row_sorted (keys : list (nat * dtype * bool)) (r : Z * list cell)
    (l : list (Z * list cell)) :
  (∀ i r1 r2, l !! i = Some r1 → l !! S i = Some r2 → row_le keys r1 r2 = true) →
  ∀ i r1 r2, insert_row keys r l !! i = Some r1 → insert_row keys r l !! S i = Some r2 →
             row_le keys r1 r2 = true.
Proof.
  induction l as [|r' l IH]; intros Hl i r1 r2; cbn [insert_row].
  - by destruct i.
  - destruct (row_le keys r r') eqn:Hle.
    + destruct i as [|i]; cbn.
      * by intros [= <-] [= <-].
      * apply Hl.
    + assert (Hl' : ∀ i r1 r2, l !! i = Some r1 → l !! S i = Some r2 →
                               row_le keys r1 r2 = true)
        by (intros i0 ? ? ? ?; by apply (Hl (S i0))).
      destruct i as [|i]; cbn.
      * intros [= <-]. destruct l as [|r'' l]; cbn [insert_row].
        -- intros [= <-]. by apply row_le_total.
        -- destruct (row_le keys r r''); cbn.
           ++ intros [= <-]. by apply row_le_total.
           ++ intros [= <-]. by apply (Hl 0%nat).
      * by apply IH.
Qed.

Lemma sort_sorted (keys : list (nat * dtype * bool)) (l : list (Z * list cell)) :
  ∀ i r1 r2, foldr (insert_row keys) [] l !! i = Some r1 →
             foldr (insert_row keys) [] l !! S i = Some r2 →
             row_le keys r1 r2 = true.
Proof.
  induction l as [|r l IH]; [done|]. cbn [foldr]. by apply insert_row_sorted.
Qed.

(** ** [prepare_ctypes], stage by stage *)

Lemma where_map (cols : list (string * dtype)) (l : list (Z * list cell))
    (f : cell → bool) (j : nat) :
  where_ (mkFrame cols l) (map f (map (at_ j) l))
  = mkFrame cols (filter (λ r, f (at_ j r) = true) l).
Proof. unfold where_. cbn. by rewrite map_map, select_map_filter. Qed.

Lemma setitem_frame (cols : list (string * dtype)) (l : list (Z * list cell))
    (name : string) (d : dtype) (f : Z * list cell → cell) :
  setitem (mkFrame cols l) name d (map f l)
  = match position name cols with
    | Some j => mkFrame (<[j := (name, d)]> cols) (map (λ r, (r.1, <[j := f r]> r.2)) l)
    | None => mkFrame (cols ++ [(name, d)])%list
                      (map (λ r, (r.1, (r.2 ++ [f r])%list)) l)
    end.
Proof. apply (setitem_map (mkFrame cols l)). Qed.

Lemma dtype_of_insert_ne (cols : list (string * dtype)) (l l' : list (Z * list cell))
    (name name' : string) (d : dtype) (j j' : nat) :
  position name cols = Some j → position name' cols = Some j' → name' ≠ name →
  dtype_of (mkFrame (<[j := (name, d)]> cols) l) name' = dtype_of (mkFrame cols l') name'.
Proof.
  intros Hj Hj' Hne. unfold dtype_of. cbn [columns].
  rewrite (position_insert _ _ _ _ _ Hj), Hj'.
  rewrite list_lookup_insert_ne; [done|]. intros <-.
  apply Hne. by eapply position_inj.
Qed.

Lemma dtype_of_insert_eq (cols : list (string * dtype)) (l : list (Z * list cell))
    (name : string) (d : dtype) (j : nat) :
  position name cols = Some j →
  dtype_of (mkFrame (<[j := (name, d)]> cols) l) name = d.
Proof.
  intros Hj. unfold dtype_of. cbn [columns].
  rewrite (position_insert _ _ _ _ _ Hj), Hj.
  rewrite list_lookup_insert_eq; [done|]. by eapply position_lt.
Qed.

(** What [prepare_ctypes] returns: the rows whose biopsy is not
    ['Distal'], with the cell type recoded, sorted, with the colour
    copied to [CellTypes] and the old row label in front. *)
Lemma prepare_ctypes_Ret (df df' : DataFrame) :
  prepare_ctypes df = Ret df' →
  ∃ jb jc jcol name,
    position "biopsy" (columns df) = Some jb ∧
    position "celltype_final" (columns df) = Some jc ∧
    position "Color" (columns df) = Some jcol ∧
    (name = "index" ∨ name = "level_0") ∧
    let cols2 := <[jc := ("celltype_final", category ctypes_categ)]> (columns df) in
    let rows3 :=
      foldr (insert_row [(jb, dtype_of df "biopsy", false);
                         (jc, category ctypes_categ, true)]) []
        (map (λ r, (r.1, <[jc := if isin ctypes_categ (at_ jc r)
                                 then at_ jc r else NA]> r.2))
           (filter (λ r, ne_str "Distal" (at_ jb r) = true) (rows df))) in
    let df4 := setitem (mkFrame cols2 rows3) "CellTypes"
                 (dtype_of (mkFrame cols2 rows3) "Color") (map (at_ jcol) rows3) in
    df' = mkFrame ((name, object) :: columns df4)
            (imap (λ i r, (Z.of_nat i, Int r.1 :: r.2)) (rows df4)).
Proof.
  destruct df as [cols rows0]. unfold prepare_ctypes. intros H.
  bind_inv H as biopsy Hb. apply getitem_Ret in Hb as (jb & Hjb & ->).
  cbn [columns rows] in *. rewrite where_map in H.
  bind_inv H as celltype Hc. apply getitem_Ret in Hc as (jc & Hjc & ->).
  cbn [columns rows] in *.
  unfold Categorical in H. rewrite map_map, setitem_frame, Hjc in H.
  bind_inv H as sorted Hsort.
  unfold sort_values in Hsort. bind_inv Hsort as keys Hkeys. injection Hsort as <-.
  cbn [sort_keys] in Hkeys.
  bind_inv Hkeys as vals1 Hv1. apply getitem_Ret in Hv1 as (jb' & Hjb' & ->).
  cbn [columns rows] in *.
  rewrite (position_insert _ "biopsy" _ _ _ Hjc), Hjb in Hjb'. injection Hjb' as <-.
  rewrite (position_insert _ "biopsy" _ _ _ Hjc), Hjb in Hkeys.
  cbn [of_option mbind result_bind] in Hkeys.
  destruct (orderable _); [|discriminate].
  bind_inv Hkeys as ks Hks.
  bind_inv Hks as vals2 Hv2. apply getitem_Ret in Hv2 as (jc' & Hjc' & ->).
  cbn [columns rows] in *.
  rewrite (position_insert _ "celltype_final" _ _ _ Hjc), Hjc in Hjc'.
  injection Hjc' as <-.
  rewrite (position_insert _ "celltype_final" _ _ _ Hjc), Hjc in Hks.
  cbn [of_option mbind result_bind] in Hks.
  destruct (orderable _); [|discriminate].
  injection Hks as <-. injection Hkeys as <-.
  assert (Hne : "biopsy" ≠ "celltype_final") by done.
  rewrite (dtype_of_insert_ne _ _ rows0 _ _ _ _ _ Hjc Hjb Hne) in H.
  rewrite (dtype_of_insert_eq _ _ _ _ _ Hjc) in H.
  cbn [columns rows] in H.
  bind_inv H as color Hcol. apply getitem_Ret in Hcol as (jcol & Hjcol & ->).
  cbn [columns rows] in *.
  rewrite (position_insert _ "Color" _ _ _ Hjc) in Hjcol.
  unfold reset_index in H. bind_inv H as name Hname. injection H as <-.
  exists jb, jc, jcol, name. repeat split; try done.
  destruct (has_column _ "index"); [|injection Hname as <-; by left].
  destruct (has_column _ "level_0"); [discriminate|]. injection Hname as <-. by right.
Qed.

Lemma position_cons_ne (name n : string) (d : dtype) (cols : list (string * dtype)) :
  name ≠ n → position n ((name, d) :: cols) = S <$> position n cols.
Proof. intros Hne. cbn [position]. by rewrite (proj2 (String.eqb_neq _ _) Hne). Qed.

Lemma filter_Forall {A} (P : A → Prop) (Q : A → Prop) `{∀ x, Decision (Q x)}
    (l : list A) :
  Forall P l → Forall P (filter Q l).
Proof.
  rewrite !Forall_forall. intros Hl x [_ Hx]%list_elem_of_filter. by apply Hl.
Qed.

Lemma sorted_rectangular (keys : list (nat * dtype * bool)) (f : Z * list cell → Z * list cell)
    (P : Z * list cell → Prop) (Q : Z * list cell → Prop) (l : list (Z * list cell)) :
  (∀ r, P r → Q (f r)) → Forall P l →
  Forall Q (foldr (insert_row keys) [] (map f l)).
Proof.
  intros Hf Hl. rewrite sort_perm. apply Forall_map.
  eapply Forall_impl; [exact Hl|]. done.
Qed.

(** The prepared table, row by row: [g] is the assignment of
    [CellTypes], and the rows it is applied to are the sorted ones. *)
Lemma prepared_rows (df df' : DataFrame) :
  rectangular df → prepare_ctypes df = Ret df' →
  ∃ jb jc jcol jt name (g : Z * list cell → Z * list cell),
    position "biopsy" (columns df) = Some jb ∧
    position "celltype_final" (columns df) = Some jc ∧
    position "Color" (columns df) = Some jcol ∧
    (name = "index" ∨ name = "level_0") ∧
    columns df' !! 0%nat = Some (name, object) ∧
    position "biopsy" (columns df') = Some (S jb) ∧
    position "celltype_final" (columns df') = Some (S jc) ∧
    position "Color" (columns df') = Some (S jcol) ∧
    position "CellTypes" (columns df') = Some (S jt) ∧
    let rows3 :=
      foldr (insert_row [(jb, dtype_of df "biopsy", false);
                         (jc, category ctypes_categ, true)]) []
        (map (λ r, (r.1, <[jc := if isin ctypes_categ (at_ jc r)
                                 then at_ jc r else NA]> r.2))
           (filter (λ r, ne_str "Distal" (at_ jb r) = true) (rows df))) in
    rows df' = imap (λ i r, (Z.of_nat i, Int r.1 :: r.2)) (map g rows3) ∧
    Forall (λ r, (g r).1 = r.1 ∧ at_ jb (g r) = at_ jb r ∧ at_ jc (g r) = at_ jc r ∧
                 at_ jcol (g r) = at_ jcol r ∧ at_ jt (g r) = at_ jcol r) rows3.
Proof.
  intros Hrect H.
  destruct (prepare_ctypes_Ret _ _ H)
    as (jb & jc & jcol & name & Hjb & Hjc & Hjcol & Hname & Hdf').
  cbn zeta in Hdf'. rewrite setitem_frame in Hdf'.
  set (cols2 := <[jc := ("celltype_final", category ctypes_categ)]> (columns df)) in *.
  set (rows3 := foldr _ [] _) in *.
  assert (Hpos : ∀ n, position n cols2 = position n (columns df))
    by (intros n; by apply position_insert).
  assert (Hrows3 : Forall (λ r, length r.2 = length cols2) rows3).
  { apply (sorted_rectangular _ _ (λ r, length r.2 = length (columns df))).
    - intros r Hr. cbn. unfold cols2. by rewrite !length_insert.
    - by apply filter_Forall. }
  assert (Hshift : ∀ n cols j, n ∈ ["biopsy"; "celltype_final"; "Color"; "CellTypes"] →
            position n cols = Some j → position n ((name, object) :: cols) = Some (S j)).
  { intros n cols j Hn Hj. rewrite position_cons_ne, Hj; [done|].
    intros <-. destruct Hname as [-> | ->];
      repeat (apply elem_of_cons in Hn as [Hn | Hn]; [discriminate Hn|]);
      by apply elem_of_nil in Hn. }
  assert (Hb : "biopsy" ∈ ["biopsy"; "celltype_final"; "Color"; "CellTypes"])
    by apply list_elem_of_here.
  assert (Hc : "celltype_final" ∈ ["biopsy"; "celltype_final"; "Color"; "CellTypes"])
    by apply list_elem_of_further, list_elem_of_here.
  assert (Hcol : "Color" ∈ ["biopsy"; "celltype_final"; "Color"; "CellTypes"])
    by (do 2 apply list_elem_of_further; apply list_elem_of_here).
  assert (Hct : "CellTypes" ∈ ["biopsy"; "celltype_final"; "Color"; "CellTypes"])
    by (do 3 apply list_elem_of_further; apply list_elem_of_here).
  assert (Hjb2 : position "biopsy" cols2 = Some jb) by (by rewrite Hpos).
  assert (Hjc2 : position "celltype_final" cols2 = Some jc) by (by rewrite Hpos).
  assert (Hjcol2 : position "Color" cols2 = Some jcol) by (by rewrite Hpos).
  destruct (position "CellTypes" cols2) as [jt|] eqn:Hjt.
  - exists jb, jc, jcol, jt, name, (λ r, (r.1, <[jt := at_ jcol r]> r.2)).
    subst df'. cbn [columns rows].
    assert (Hk : ∀ n, position n (<[jt := ("CellTypes",
                                            dtype_of (mkFrame cols2 rows3) "Color")]> cols2)
                      = position n cols2) by (intros n; by apply position_insert).
    repeat split; try done.
    + apply Hshift; [done|]. by rewrite Hk.
    + apply Hshift; [done|]. by rewrite Hk.
    + apply Hshift; [done|]. by rewrite Hk.
    + apply Hshift; [done|]. by rewrite Hk.
    + eapply Forall_impl; [exact Hrows3|]. intros r Hr. cbn beta.
      split; [done|].
      split; [apply at_insert_ne; intros ->;
              by pose proof (position_inj _ _ _ _ Hjb2 Hjt)|].
      split; [apply at_insert_ne; intros ->;
              by pose proof (position_inj _ _ _ _ Hjc2 Hjt)|].
      split; [apply at_insert_ne; intros ->;
              by pose proof (position_inj _ _ _ _ Hjcol2 Hjt)|].
      apply at_insert_eq. rewrite Hr. by eapply position_lt.
  - exists jb, jc, jcol, (length cols2), name, (λ r, (r.1, (r.2 ++ [at_ jcol r])%list)).
    subst df'. cbn [columns rows].
    repeat split; try done.
    + apply Hshift; [done|]. by apply position_app.
    + apply Hshift; [done|]. by apply position_app.
    + apply Hshift; [done|]. by apply position_app.
    + apply Hshift; [done|]. by apply position_app_new.
    + eapply Forall_impl; [exact Hrows3|]. intros r Hr. cbn beta.
      split; [done|].
      split; [apply at_app; rewrite Hr; by eapply position_lt|].
      split; [apply at_app; rewrite Hr; by eapply position_lt|].
      split; [apply at_app; rewrite Hr; by eapply position_lt|].
      rewrite <- Hr. apply at_app_new.
Qed.

Lemma at_shift (j : nat) (i z : Z) (c : cell) (cells : list cell) :
  at_ (S j) (i, c :: cells) = at_ j (z, cells).
Proof. done. Qed.

(** The sorted rows are the recoded rows that are not ['Distal']. *)
Lemma sorted_rows_spec (keys : list (nat * dtype * bool)) (jb jc : nat)
    (l : list (Z * list cell)) (P : Z * list cell → Prop) :
  (∀ r, r ∈ l → ne_str "Distal" (at_ jb r) = true →
        P (r.1, <[jc := if isin ctypes_categ (at_ jc r) then at_ jc r else NA]> r.2)) →
  Forall P
    (foldr (insert_row keys) []
       (map (λ r, (r.1, <[jc := if isin ctypes_categ (at_ jc r) then at_ jc r else NA]> r.2))
          (filter (λ r, ne_str "Distal" (at_ jb r) = true) l))).
Proof.
  intros HP. rewrite sort_perm. apply Forall_map, Forall_forall.
  intros r [Hr Hin]%list_elem_of_filter. by apply HP.
Qed.

(** What a returning [main] did with the two tables. *)
Lemma main_tables (w : World) (args : gmap string value) (r : Run) :
  main w args = Ret r →
  ∃ c raw table sc,
    args !! "ctypes" = Some c ∧ read_csv w c None = Ret raw ∧
    prepare_ctypes raw = Ret table ∧
    keep_loaded_cells table (names_used r).1 = Ret (ctypes_used r) ∧
    args !! "scDNA" = Some sc ∧ read_csv w sc (Some 0%nat) = Ret (scDNA_used r).
Proof.
  intros H. unfold main in H.
  bind_inv H as ctypes Hctypes. bind_inv H as raw Hraw.
  bind_inv H as table Htable. bind_inv H as scDNA HscDNA.
  bind_inv H as scDNA_df Hsc.
  bind_inv H as input Hinput. bind_inv H as transpose Htranspose.
  bind_inv H as [[data0 frac0] names0] Hload.
  bind_inv H as ctypes_df Hkeep.
  bind_inv H as [[data frac] names] Hrel.
  bind_inv H as DPa HDPa. bind_inv H as DP_alpha HDP.
  bind_inv H as [args' BnpC] Hmodel.
  bind_inv H as [run_var run_str] Hterm.
  bind_inv H as smp Hsmp. bind_inv H as cup Hcup. bind_inv H as eup Heup.
  bind_inv H as smr Hsmr. bind_inv H as sms Hsms.
  bind_inv H as verbosity Hv. bind_inv H as verbose Hverbose.
  bind_inv H as printed Hprinted. bind_inv H as d Hd.
  bind_inv H as seed Hseed. bind_inv H as chains Hchains.
  bind_inv H as verbosity' Hv'. bind_inv H as fa Hfa. bind_inv H as d' Hd'.
  injection H as <-. cbn.
  apply relevant_mutations_Ret in Hrel as (_ & _ & _ & _ & ->). cbn.
  by exists ctypes, raw, table, scDNA.
Qed.

Lemma keep_loaded_cells_Ret (df df' : DataFrame) (cells : list string) :
  keep_loaded_cells df cells = Ret df' →
  ∃ j, position "barcodes" (columns df) = Some j ∧
       df' = mkFrame (columns df) (filter (λ r, isin cells (at_ j r) = true) (rows df)).
Proof.
  unfold keep_loaded_cells. intros H.
  bind_inv H as barcodes Hb. apply getitem_Ret in Hb as (j & Hj & ->).
  injection H as <-. exists j. split; [done|].
  destruct df as [cols l]. apply where_map.
Qed.

(** X15: [main] returns only if the cell-type table read from [--ctypes] has
    the columns [biopsy], [celltype_final], [Color] and [barcodes]: a
    table without one of them ends the run with an exception, unlike a
    table without [Corrected]. *)
Theorem main_needs_columns (w : World) (args : gmap string value) (r : Run) :
  main w args = Ret r →
  ∃ c raw,
    args !! "ctypes" = Some c ∧ read_csv w c None = Ret raw ∧
    Forall (λ col, has_column raw col = true)
           ["biopsy"; "celltype_final"; "Color"; "barcodes"].
Proof.
  intros H.
  destruct (main_tables _ _ _ H) as (c & raw & table & sc & Hc & Hraw & Hprep & Hkeep & _).
  exists c, raw. split; [done|]. split; [done|].
  destruct (prepare_ctypes_Ret _ _ Hprep)
    as (jb & jc & jcol & name & Hjb & Hjc & Hjcol & Hname & Htable).
  cbn zeta in Htable. rewrite setitem_frame in Htable.
  apply keep_loaded_cells_Ret in Hkeep as (j & Hj & _).
  repeat (apply Forall_cons; split); [..|apply Forall_nil; done];
    apply has_column_position; [by eexists ..|].
  assert (Hbar : is_Some (position "barcodes"
             (<[jc := ("celltype_final", category ctypes_categ)]> (columns raw)))).
  { subst table.
    assert (Hname' : name ≠ "barcodes") by (by destruct Hname as [-> | ->]).
    destruct (position "CellTypes" _) as [jt|] eqn:Hjt; cbn [columns] in Hj;
      rewrite (position_cons_ne _ _ _ _ Hname') in Hj.
    - rewrite (position_insert _ _ _ _ _ Hjt) in Hj.
      destruct (position "barcodes" _); [by eexists | done].
    - destruct (position "barcodes" (_ ++ _)) as [k|] eqn:Hk; [|done].
      eapply (position_app_inv "barcodes" "CellTypes"); [done|].
      rewrite Hk. by eexists. }
  by rewrite (position_insert _ _ _ _ _ Hjc) in Hbar.
Qed.

Lemma main_needs_columns_witness :
  main Example.world (Example.parsed (Example.command []))
    = Ret (Example.ran Example.world (Example.command [])) ∧
  ∃ c raw,
    Example.parsed (Example.command []) !! "ctypes" = Some c ∧
    read_csv Example.world c None = Ret raw ∧
    Forall (λ col, has_column raw col = true)
           ["biopsy"; "celltype_final"; "Color"; "barcodes"].
Proof.
  assert (Hmain : main Example.world (Example.parsed (Example.command []))
                  = Ret (Example.ran Example.world (Example.command [])))
    by (apply ran_eq; vm_compute; reflexivity).
  split; [exact Hmain|]. exact (main_needs_columns _ _ _ Hmain).
Defined.

Lemma Forall_reset (P : Z * list cell → Prop) (l : list (Z * list cell)) :
  Forall (λ r, ∀ i, P (i, Int r.1 :: r.2)) l →
  Forall P (imap (λ i r, (Z.of_nat i, Int r.1 :: r.2)) l).
Proof.
  rewrite !Forall_forall. intros Hl r' (i & r & -> & Hr)%elem_of_lookup_imap.
  apply Hl. by eapply list_elem_of_lookup_2.
Qed.

(** The cells of the prepared table. *)
Lemma prepared_cells (df df' : DataFrame) :
  rectangular df → prepare_ctypes df = Ret df' →
  ∃ jb jc jcol jt,
    position "biopsy" (columns df') = Some jb ∧
    position "celltype_final" (columns df') = Some jc ∧
    position "Color" (columns df') = Some jcol ∧
    position "CellTypes" (columns df') = Some jt ∧
    Forall (λ r, ne_str "Distal" (at_ jb r) = true ∧
                 (at_ jc r = NA ∨ isin ctypes_categ (at_ jc r) = true) ∧
                 at_ jt r = at_ jcol r) (rows df').
Proof.
  intros Hrect H.
  destruct (prepared_rows _ _ Hrect H)
    as (jb & jc & jcol & jt & name & g & Hjb & Hjc & Hjcol & _ & _ & Hb' & Hc' & Hcol'
        & Ht' & Hrows & Hg).
  cbn zeta in Hrows, Hg.
  exists (S jb), (S jc), (S jcol), (S jt). do 4 (split; [done|]).
  assert (Hs : Forall (λ r, ne_str "Distal" (at_ jb r) = true ∧
                            (at_ jc r = NA ∨ isin ctypes_categ (at_ jc r) = true))
                 (foldr (insert_row [(jb, dtype_of df "biopsy", false);
                                     (jc, category ctypes_categ, true)]) []
                    (map (λ r, (r.1, <[jc := if isin ctypes_categ (at_ jc r)
                                             then at_ jc r else NA]> r.2))
                       (filter (λ r, ne_str "Distal" (at_ jb r) = true) (rows df))))).
  { apply sorted_rows_spec.
    intros r Hr Hd. unfold rectangular in Hrect. rewrite Forall_forall in Hrect.
    assert (Hlen := Hrect r Hr). split.
    + rewrite at_insert_ne; [done|]. intros ->.
      by pose proof (position_inj _ _ _ _ Hjb Hjc).
    + rewrite at_insert_eq by (rewrite Hlen; by eapply position_lt).
      destruct (isin ctypes_categ (at_ jc r)) eqn:Hin; auto. }
  rewrite Hrows. apply Forall_reset, Forall_map.
  rewrite Forall_forall in Hg, Hs. apply Forall_forall. intros r Hr i.
  destruct (Hg r Hr) as (H1 & Hgb & Hgc & Hgcol & Hgt).
  destruct (Hs r Hr) as [Hd Hcat].
  destruct (g r) as [z cells] eqn:Hgr. cbn [fst snd].
  rewrite !(at_shift _ _ z). rewrite Hgb, Hgc, Hgt, Hgcol. done.
Qed.

(** X16: in the table returned by [prepare_ctypes] no row has the biopsy
    ['Distal'], every cell type is one of the seven categories or
    missing, and [CellTypes] repeats [Color]. *)
Theorem prepare_ctypes_cells (df df' : DataFrame) :
  rectangular df → prepare_ctypes df = Ret df' →
  ∃ jb jc jcol jt,
    position "biopsy" (columns df') = Some jb ∧
    position "celltype_final" (columns df') = Some jc ∧
    position "Color" (columns df') = Some jcol ∧
    position "CellTypes" (columns df') = Some jt ∧
    Forall (λ r, ne_str "Distal" (at_ jb r) = true ∧
                 (at_ jc r = NA ∨ isin ctypes_categ (at_ jc r) = true) ∧
                 at_ jt r = at_ jcol r) (rows df').
Proof. apply prepared_cells. Qed.

(** X17: in the table that [main] hands on, every row has a barcode among
    the names of the loaded cells and a biopsy other than ['Distal']. *)
Theorem table_rows_loaded_and_not_distal (w : World) (args : gmap string value)
    (r : Run) (c : value) (raw : DataFrame) :
  args !! "ctypes" = Some c → read_csv w c None = Ret raw → rectangular raw →
  main w args = Ret r →
  ∃ jbar jb,
    position "barcodes" (columns (ctypes_used r)) = Some jbar ∧
    position "biopsy" (columns (ctypes_used r)) = Some jb ∧
    Forall (λ row, isin (names_used r).1 (at_ jbar row) = true ∧
                   ne_str "Distal" (at_ jb row) = true) (rows (ctypes_used r)).
Proof.
  intros Hc Hraw Hrect H.
  destruct (main_tables _ _ _ H)
    as (c' & raw' & table & sc & Hc' & Hraw' & Hprep & Hkeep & _).
  assert (c' = c) as -> by congruence. assert (raw' = raw) as -> by congruence.
  destruct (prepared_cells _ _ Hrect Hprep)
    as (jb & jc & jcol & jt & Hjb & _ & _ & _ & Hcells).
  apply keep_loaded_cells_Ret in Hkeep as (jbar & Hjbar & ->).
  exists jbar, jb. cbn [columns rows]. split; [done|]. split; [done|].
  rewrite Forall_forall in Hcells. apply Forall_forall.
  intros row [Hrow Hin]%list_elem_of_filter. split; [done|]. by apply Hcells.
Qed.

(** The example table: the row of cell [c2] is dropped. *)
Lemma prepare_ctypes_cells_witness :
  rectangular Example.table ∧
  prepare_ctypes Example.table = Ret Example.prepared ∧
  len Example.table = 4%nat ∧ len Example.prepared = 3%nat ∧
  ∃ jb jc jcol jt,
    position "biopsy" (columns Example.prepared) = Some jb ∧
    position "celltype_final" (columns Example.prepared) = Some jc ∧
    position "Color" (columns Example.prepared) = Some jcol ∧
    position "CellTypes" (columns Example.prepared) = Some jt ∧
    Forall (λ r, ne_str "Distal" (at_ jb r) = true ∧
                 (at_ jc r = NA ∨ isin ctypes_categ (at_ jc r) = true) ∧
                 at_ jt r = at_ jcol r) (rows Example.prepared).
Proof.
  assert (Hrect : rectangular Example.table) by (repeat constructor).
  assert (H : prepare_ctypes Example.table = Ret Example.prepared)
    by (apply returns_the; vm_compute; reflexivity).
  split; [exact Hrect|]. split; [exact H|].
  split; [reflexivity|]. split; [vm_compute; reflexivity|].
  exact (prepare_ctypes_cells _ _ Hrect H).
Defined.

Lemma table_rows_loaded_and_not_distal_witness :
  main Example.world (Example.parsed (Example.command []))
    = Ret (Example.ran Example.world (Example.command [])) ∧
  ∃ jbar jb,
    position "barcodes"
      (columns (ctypes_used (Example.ran Example.world (Example.command []))))
      = Some jbar ∧
    position "biopsy"
      (columns (ctypes_used (Example.ran Example.world (Example.command []))))
      = Some jb ∧
    Forall (λ row,
              isin (names_used (Example.ran Example.world (Example.command []))).1
                   (at_ jbar row) = true ∧
              ne_str "Distal" (at_ jb row) = true)
           (rows (ctypes_used (Example.ran Example.world (Example.command [])))).
Proof.
  assert (Hmain : main Example.world (Example.parsed (Example.command []))
                  = Ret (Example.ran Example.world (Example.command [])))
    by (apply ran_eq; vm_compute; reflexivity).
  split; [exact Hmain|].
  apply (table_rows_loaded_and_not_distal Example.world
           (Example.parsed (Example.command [])) _ (VStr "ctypes.tsv") Example.table);
    [vm_compute; reflexivity | reflexivity | repeat constructor | exact Hmain].
Defined.

(* ===================================================================== *)
(** ** Row labels and row order of the prepared table *)
(* ===================================================================== *)

Lemma reset_labels (l : list (Z * list cell)) :
  map fst (imap (λ i r, (Z.of_nat i, Int r.1 :: r.2)) l)
  = map Z.of_nat (seq 0 (length l)).
Proof.
  apply list_eq. intros i.
  rewrite !list_lookup_fmap, list_lookup_imap.
  destruct (l !! i) as [r|] eqn:Hr; cbn.
  - rewrite lookup_seq_lt by (by eapply lookup_lt_Some). done.
  - rewrite lookup_seq_ge by (by apply lookup_ge_None). done.
Qed.

Lemma reset_old_labels (l : list (Z * list cell)) :
  map (at_ 0) (imap (λ i r, (Z.of_nat i, Int r.1 :: r.2)) l)
  = map (λ r, Int r.1) l.
Proof.
  apply list_eq. intros i.
  rewrite !list_lookup_fmap, list_lookup_imap.
  by destruct (l !! i).
Qed.

(** X18: [reset_index] in [prepare_ctypes]: the rows of the returned table
    are labelled 0, 1, 2, ... in their new order, and the first column,
    [index] or [level_0], holds the labels the rows had in the input:
    those of the rows whose biopsy is not ['Distal'], each once. *)
Theorem prepare_ctypes_reindexes (df df' : DataFrame) (jb : nat) :
  rectangular df → prepare_ctypes df = Ret df' →
  position "biopsy" (columns df) = Some jb →
  (∃ name, (name = "index" ∨ name = "level_0") ∧
           columns df' !! 0%nat = Some (name, object)) ∧
  map fst (rows df') = map Z.of_nat (seq 0 (len df')) ∧
  map (at_ 0) (rows df')
    ≡ₚ map (λ r, Int r.1)
           (filter (λ r, ne_str "Distal" (at_ jb r) = true) (rows df)).
Proof.
  intros Hrect H Hjb.
  destruct (prepared_rows _ _ Hrect H)
    as (jb' & jc & jcol & jt & name & g & Hjb' & Hjc & Hjcol & Hname & Hhead & _ & _ & _
        & _ & Hrows & Hg).
  cbn zeta in Hrows, Hg. assert (jb' = jb) as -> by congruence.
  split; [by exists name|]. unfold len. rewrite Hrows. split.
  - by rewrite reset_labels, length_imap.
  - rewrite reset_old_labels, map_map.
    rewrite (map_ext_Forall (λ r, Int (g r).1) (λ r, Int r.1)).
    + etransitivity; [apply Permutation_map, sort_perm|]. by rewrite map_map.
    + eapply Forall_impl; [exact Hg|]. by intros r (-> & _).
Qed.

Lemma prepare_ctypes_reindexes_witness :
  rectangular Example.table ∧
  prepare_ctypes Example.table = Ret Example.prepared ∧
  map fst (rows Example.prepared) = [0; 1; 2] ∧
  map (at_ 0) (rows Example.prepared) ≡ₚ [Int 0; Int 2; Int 3].
Proof.
  assert (Hrect : rectangular Example.table) by (repeat constructor).
  assert (H : prepare_ctypes Example.table = Ret Example.prepared)
    by (apply returns_the; vm_compute; reflexivity).
  split; [exact Hrect|]. split; [exact H|].
  destruct (prepare_ctypes_reindexes _ _ 1%nat Hrect H eq_refl) as (_ & Hlabels & Hold).
  split; [exact Hlabels | exact Hold].
Defined.

(** X19: [sort_values] in [prepare_ctypes]: in the returned table each row
    is followed by a row that does not come before it in the order by
    biopsy, descending, and then by cell type in the order of the seven
    categories, with missing values last. *)
Theorem prepare_ctypes_sorts (df df' : DataFrame) (jb jc : nat) :
  rectangular df → prepare_ctypes df = Ret df' →
  position "biopsy" (columns df) = Some jb →
  position "celltype_final" (columns df) = Some jc →
  position "biopsy" (columns df') = Some (S jb) ∧
  position "celltype_final" (columns df') = Some (S jc) ∧
  ∀ i r1 r2, rows df' !! i = Some r1 → rows df' !! S i = Some r2 →
    row_le [(S jb, dtype_of df "biopsy", false);
            (S jc, category ctypes_categ, true)] r1 r2 = true.
Proof.
  intros Hrect H Hjb Hjc.
  destruct (prepared_rows _ _ Hrect H)
    as (jb' & jc' & jcol & jt & name & g & Hjb' & Hjc' & Hjcol & _ & _ & Hb & Hc & _
        & _ & Hrows & Hg).
  cbn zeta in Hrows, Hg.
  assert (jb' = jb) as -> by congruence. assert (jc' = jc) as -> by congruence.
  split; [done|]. split; [done|]. intros i r1 r2. rewrite Hrows.
  rewrite !list_lookup_imap, !list_lookup_fmap.
  destruct (_ !! i) as [x1|] eqn:H1; [|done].
  destruct (_ !! S i) as [x2|] eqn:H2; [|done].
  cbn. intros [= <-] [= <-].
  assert (Hle := sort_sorted _ _ _ _ _ H1 H2).
  rewrite Forall_forall in Hg.
  destruct (Hg x1 (list_elem_of_lookup_2 _ _ _ H1)) as (_ & Hb1 & Hc1 & _).
  destruct (Hg x2 (list_elem_of_lookup_2 _ _ _ H2)) as (_ & Hb2 & Hc2 & _).
  cbn [row_le] in *. rewrite <- Hb1, <- Hb2, <- Hc1, <- Hc2 in Hle.
  destruct (g x1) as [z1 cells1]. destruct (g x2) as [z2 cells2]. exact Hle.
Qed.

Lemma prepare_ctypes_sorts_witness :
  rectangular Example.table ∧
  prepare_ctypes Example.table = Ret Example.prepared ∧
  map (at_ 2) (rows Example.prepared) = [Str "Prox"; Str "Prox"; Str "Omentum"] ∧
  map (at_ 3) (rows Example.prepared) = [Str "HGSOC"; Str "B.cells"; Str "Fibroblasts"] ∧
  ∀ i r1 r2, rows Example.prepared !! i = Some r1 →
             rows Example.prepared !! S i = Some r2 →
    row_le [(2%nat, dtype_of Example.table "biopsy", false);
            (3%nat, category ctypes_categ, true)] r1 r2 = true.
Proof.
  assert (Hrect : rectangular Example.table) by (repeat constructor).
  assert (H : prepare_ctypes Example.table = Ret Example.prepared)
    by (apply returns_the; vm_compute; reflexivity).
  split; [exact Hrect|]. split; [exact H|].
  split; [vm_compute; reflexivity|]. split; [vm_compute; reflexivity|].
  exact (proj2 (proj2 (prepare_ctypes_sorts _ _ 1%nat 2%nat Hrect H eq_refl eq_refl))).
Defined.

(* ===================================================================== *)
(** * What is shown and written *)
(* ===================================================================== *)

Lemma eff_bind_calls {A B} (m : Eff A) (f : A → Eff B) (c : Call) :
  c ∈ calls (m ≫= f) →
  c ∈ calls m ∨ ∃ a, ending m = Done a ∧ c ∈ calls (f a).
Proof.
  unfold mbind, eff_bind. destruct (ending m) as [a|e|x]; cbn; [|by left ..].
  intros [H | H]%elem_of_app; [by left|]. right. by exists a.
Qed.

Lemma eff_bind_Done {A B} (m : Eff A) (f : A → Eff B) (b : B) :
  ending (m ≫= f) = Done b →
  ∃ a, ending m = Done a ∧ ending (f a) = Done b ∧
       calls (m ≫= f) = (calls m ++ calls (f a))%list.
Proof.
  unfold mbind, eff_bind. destruct (ending m) as [a|e|x]; cbn; [|done ..].
  intros H. by exists a.
Qed.

Lemma lift_Done {A} (m : result A) (a : A) : ending (lift m) = Done a → m = Ret a.
Proof. destruct m; cbn; [by intros [= ->] | done]. Qed.

Lemma is_verbose_spec (args : gmap string value) (v : value) (b : bool) :
  args !! "verbosity" = Some v → py_lt (VInt 0) v = Ret b → is_verbose args = b.
Proof.
  unfold is_verbose, py_lt. intros ->. cbn.
  destruct (as_num v); [by intros [= <-] | done].
Qed.

Tactic Notation "calls_inv" hyp(H) "as" simple_intropattern(a) ident(E) :=
  apply eff_bind_calls in H as [H | (a & E & H)];
  [try (by apply elem_of_nil in H) |
   try (apply lift_Done in E); try (apply getattr_Ret in E)].

(** Every call of [generate_output], with its arguments and the test
    it is made under. *)
Lemma generate_output_calls (l : Libs) (args : gmap string value) (results : pyobject)
    (data_raw data_frac : ndarray) (names : list string * list string)
    (ctypes scDNA : DataFrame) (c : Call) :
  c ∈ calls (generate_output l args results data_raw data_frac names ctypes scDNA) →
  ∃ out_dir inferred,
    get_out_dir l args = Ret out_dir ∧
    infer_results l args results data_raw = Ret inferred ∧
    ((is_verbose args = true ∧
      c ∈ [show_MCMC_summary args results; show_assignments inferred names.1;
           show_latents inferred; print out_dir]) ∨
     c = save_run inferred args out_dir names ∨
     (is_set args "true_clusters" = true ∧
      ∃ path true_assign,
        args !! "true_clusters" = Some path ∧ load_txt l path = Ret true_assign ∧
        c ∈ [save_v_measure inferred true_assign out_dir;
             save_ARI inferred true_assign out_dir]) ∨
     (is_set args "true_data" = true ∧
      ∃ path transpose data_true,
        args !! "true_data" = Some path ∧ args !! "transpose" = Some transpose ∧
        load_true_data l path transpose = Ret data_true ∧
        (c = save_hamming_dist inferred data_true out_dir ∨
         (is_clear args "no_plots" = true ∧
          c = save_geno_plots inferred (inr data_true) data_frac out_dir
                names ctypes scDNA))) ∨
     (is_set args "true_data" = false ∧ is_clear args "no_plots" = true ∧
      c = save_geno_plots inferred (inl data_raw) data_frac out_dir names ctypes scDNA)).
Proof.
  unfold generate_output. intros H.
  calls_inv H as out_dir Hout. calls_inv H as inferred Hinf.
  exists out_dir, inferred. split; [done|]. split; [done|].
  calls_inv H as verbosity Hv. calls_inv H as verbose Hverbose.
  apply (is_verbose_spec _ _ _ Hv) in Hverbose.
  apply eff_bind_calls in H as [H | (_ & _ & H)].
  { left. destruct verbose; [|by apply elem_of_nil in H]. split; [done|].
    calls_inv H as u1 H1.
    { apply list_elem_of_singleton in H as ->. apply list_elem_of_here. }
    calls_inv H as u2 H2.
    { apply list_elem_of_singleton in H as ->.
      apply list_elem_of_further, list_elem_of_here. }
    calls_inv H as u3 H3.
    { apply list_elem_of_singleton in H as ->.
      do 2 apply list_elem_of_further. apply list_elem_of_here. }
    apply list_elem_of_singleton in H as ->.
    do 3 apply list_elem_of_further. apply list_elem_of_here. }
  apply eff_bind_calls in H as [H | (_ & _ & H)].
  { right. left. by apply list_elem_of_singleton in H. }
  calls_inv H as tc Htc.
  apply eff_bind_calls in H as [H | (_ & _ & H)].
  { right. right. left.
    destruct (truthy tc) eqn:Htruthy; [|by apply elem_of_nil in H].
    split; [unfold is_set; by rewrite Htc|].
    calls_inv H as path Hpath. calls_inv H as true_assign Hta.
    exists path, true_assign. split; [done|]. split; [done|].
    calls_inv H as u1 H1.
    { apply list_elem_of_singleton in H as ->. apply list_elem_of_here. }
    apply list_elem_of_singleton in H as ->.
    apply list_elem_of_further, list_elem_of_here. }
  calls_inv H as td Htd.
  apply eff_bind_calls in H as [H | (data_true & Hdt & H)].
  { right. right. right. left.
    destruct (truthy td) eqn:Htruthy; [|by apply elem_of_nil in H].
    split; [unfold is_set; by rewrite Htd|].
    calls_inv H as path Hpath. calls_inv H as transpose Htr.
    calls_inv H as d Hd. exists path, transpose, d. do 3 (split; [done|]).
    left. calls_inv H as u1 H1.
    - by apply list_elem_of_singleton in H.
    - by apply elem_of_nil in H. }
  calls_inv H as np Hnp.
  destruct (truthy np) eqn:Hnp'; [by apply elem_of_nil in H|].
  assert (Hclear : is_clear args "no_plots" = true)
    by (unfold is_clear; by rewrite Hnp, Hnp').
  calls_inv H as td' Htd'. assert (td' = td) as -> by congruence.
  right. right. right.
  destruct (truthy td) eqn:Htruthy.
  - left. split; [unfold is_set; by rewrite Htd|].
    apply eff_bind_Done in Hdt as (path & Hpath & Hdt & _).
    apply lift_Done, getattr_Ret in Hpath.
    apply eff_bind_Done in Hdt as (transpose & Htr & Hdt & _).
    apply lift_Done, getattr_Ret in Htr.
    apply eff_bind_Done in Hdt as (d & Hd & Hdt & _). apply lift_Done in Hd.
    apply eff_bind_Done in Hdt as (u & _ & Hdt & _). injection Hdt as <-.
    exists path, transpose, d. do 3 (split; [done|]). right. split; [done|].
    by apply list_elem_of_singleton in H.
  - right. injection Hdt as <-. split; [unfold is_set; by rewrite Htd|].
    split; [done|].
    by apply list_elem_of_singleton in H.
Qed.

(** X20: [generate_output] shows the summaries only when the verbosity is
    above 0, scores the clustering only when [--true_clusters] is given,
    compares with the ground truth only when [--true_data] is given, and
    plots only when [--no_plots] is not set. *)
Theorem outputs_only_on_request (l : Libs) (args : gmap string value)
    (results : pyobject) (data_raw data_frac : ndarray)
    (names : list string * list string) (ctypes scDNA : DataFrame) (c : Call) :
  c ∈ calls (generate_output l args results data_raw data_frac names ctypes scDNA) →
  match kind c with
  | shown => is_verbose args = true
  | run_saved => True
  | clusters_scored => is_set args "true_clusters" = true
  | truth_compared => is_set args "true_data" = true
  | plotted => is_clear args "no_plots" = true
  end.
Proof.
  intros (out_dir & inferred & _ & _ & Hc)%generate_output_calls.
  destruct Hc as [[Hv Hc] | [-> | [[Hs Hc] | [[Hs Hc] | (_ & Hn & ->)]]]]; try done.
  - by each_flag Hc.
  - destruct Hc as (path & true_assign & _ & _ & Hc). by each_flag Hc.
  - destruct Hc as (path & transpose & d & _ & _ & _ & [-> | [Hn ->]]); done.
Qed.

(** The default command line: the output directory is printed, since
    the verbosity is 1. *)
Lemma outputs_only_on_request_witness :
  calls (generate_output Example.libs (Example.parsed (Example.command [])) (obj 1)
           Example.kept_matrix Example.kept_matrix Example.kept_names
           Example.prepared Example.table) !! 3%nat
    = Some (print (VStr "out")) ∧
  is_verbose (Example.parsed (Example.command [])) = true.
Proof.
  assert (H : calls (generate_output Example.libs (Example.parsed (Example.command []))
                       (obj 1) Example.kept_matrix Example.kept_matrix
                       Example.kept_names Example.prepared Example.table) !! 3%nat
              = Some (print (VStr "out"))) by (vm_compute; reflexivity).
  split; [exact H|].
  exact (outputs_only_on_request _ _ _ _ _ _ _ _ _ (list_elem_of_lookup_2 _ _ _ H)).
Defined.

Lemma eff_bind_Unbound {A B} (m : Eff A) (f : A → Eff B) (x : string) :
  ending (m ≫= f) = Unbound x →
  ending m = Unbound x ∨ ∃ a, ending m = Done a ∧ ending (f a) = Unbound x.
Proof.
  unfold mbind, eff_bind. destruct (ending m) as [a|e|y]; cbn; intros H.
  - right. exists a. by split.
  - discriminate H.
  - left. by injection H as ->.
Qed.

Lemma lift_bound {A} (m : result A) (x : string) : ending (lift m) ≠ Unbound x.
Proof. by destruct m. Qed.

Lemma invoke_bound (l : Libs) (c : Call) (x : string) : ending (invoke l c) ≠ Unbound x.
Proof. unfold invoke. cbn. by destruct (perform l c). Qed.

Tactic Notation "unbound_inv" hyp(H) "as" simple_intropattern(a) ident(E) :=
  apply eff_bind_Unbound in H as [H | (a & E & H)];
  [try (by apply lift_bound in H); try (by apply invoke_bound in H) |
   try (apply lift_Done in E); try (apply getattr_Ret in E)].

(** X21: [generate_output] never reads [data_true] before it is assigned:
    the second test of [args.true_data] passes only if the first did. *)
Theorem data_true_is_assigned (l : Libs) (args : gmap string value)
    (results : pyobject) (data_raw data_frac : ndarray)
    (names : list string * list string) (ctypes scDNA : DataFrame) (x : string) :
  ending (generate_output l args results data_raw data_frac names ctypes scDNA)
  ≠ Unbound x.
Proof.
  unfold generate_output. intros H.
  unbound_inv H as out_dir Hout. unbound_inv H as inferred Hinf.
  unbound_inv H as verbosity Hv. unbound_inv H as verbose Hverbose.
  apply eff_bind_Unbound in H as [H | (_ & _ & H)].
  { destruct verbose; [|done].
    unbound_inv H as u1 H1. unbound_inv H as u2 H2. unbound_inv H as u3 H3.
    by apply invoke_bound in H. }
  apply eff_bind_Unbound in H as [H | (_ & _ & H)]; [by apply invoke_bound in H|].
  unbound_inv H as tc Htc.
  apply eff_bind_Unbound in H as [H | (_ & _ & H)].
  { destruct (truthy tc); [|done].
    unbound_inv H as path Hpath. unbound_inv H as ta Hta. unbound_inv H as u1 H1.
    by apply invoke_bound in H. }
  unbound_inv H as td Htd.
  apply eff_bind_Unbound in H as [H | (data_true & Hdt & H)].
  { destruct (truthy td); [|done].
    unbound_inv H as path Hpath. unbound_inv H as tr Htr. unbound_inv H as d Hd.
    unbound_inv H as u1 H1. done. }
  unbound_inv H as np Hnp. destruct (truthy np); [done|].
  unbound_inv H as td' Htd'. assert (td' = td) as -> by congruence.
  destruct (truthy td).
  - apply eff_bind_Done in Hdt as (path & _ & Hdt & _).
    apply eff_bind_Done in Hdt as (tr & _ & Hdt & _).
    apply eff_bind_Done in Hdt as (d & _ & Hdt & _).
    apply eff_bind_Done in Hdt as (u & _ & Hdt & _). injection Hdt as <-.
    by apply invoke_bound in H.
  - by apply invoke_bound in H.
Qed.

Tactic Notation "done_inv" hyp(H) "as" simple_intropattern(a) ident(E) ident(C) :=
  apply eff_bind_Done in H as (a & E & H & C);
  try (apply lift_Done in E); try (apply getattr_Ret in E).

(** X22: when [generate_output] returns, the last thing it did is the
    genotype plot, after [save_run]; [--no_plots] was not set; and the
    plot is drawn from the ground truth that was loaded and compared
    when [--true_data] is given, and from the data otherwise. *)
Theorem normal_return_ends_with_plot (l : Libs) (args : gmap string value)
    (results : pyobject) (data_raw data_frac : ndarray)
    (names : list string * list string) (ctypes scDNA : DataFrame) :
  let out := generate_output l args results data_raw data_frac names ctypes scDNA in
  ending out = Done tt →
  ∃ out_dir inferred src,
    last (calls out)
      = Some (save_geno_plots inferred src data_frac out_dir names ctypes scDNA) ∧
    save_run inferred args out_dir names ∈ calls out ∧
    is_clear args "no_plots" = true ∧
    if is_set args "true_data"
    then ∃ path transpose data_true,
           args !! "true_data" = Some path ∧ args !! "transpose" = Some transpose ∧
           load_true_data l path transpose = Ret data_true ∧
           src = inr data_true ∧
           save_hamming_dist inferred data_true out_dir ∈ calls out
    else src = inl data_raw.
Proof.
  intros out H. unfold out, generate_output in *. clear out.
  done_inv H as out_dir Hout C1. done_inv H as inferred Hinf C2.
  done_inv H as verbosity Hv C3. done_inv H as verbose Hverbose C4.
  done_inv H as u1 Hshow C5. done_inv H as u2 Hsave C6.
  done_inv H as tc Htc C7. done_inv H as u3 Hscore C8.
  done_inv H as td Htd C9. done_inv H as data_true Hdt C10.
  done_inv H as np Hnp C11.
  rewrite C1, C2, C3, C4, C5, C6, C7, C8, C9, C10, C11. clear C1 C2 C3 C4 C5 C6 C7 C8 C9 C10 C11.
  destruct (truthy np) eqn:Hnp'; [done|].
  assert (Hclear : is_clear args "no_plots" = true)
    by (unfold is_clear; by rewrite Hnp, Hnp').
  done_inv H as td' Htd' C12. assert (td' = td) as -> by congruence.
  rewrite C12. clear C12.
  unfold is_set. rewrite Htd.
  destruct (truthy td) eqn:Htruthy.
  - done_inv Hdt as path Hpath D1. done_inv Hdt as transpose Htr D2.
    done_inv Hdt as d Hd D3. done_inv Hdt as u4 Hham D4. injection Hdt as <-.
    assert (path = td) as -> by congruence.
    rewrite D1, D2, D3, D4. clear D1 D2 D3 D4.
    exists out_dir, inferred, (inr d). cbn [calls lift invoke mret eff_ret].
    split; [by rewrite !last_app|]. split; [|split; [done|]].
    + rewrite !elem_of_app. do 5 right. left. apply list_elem_of_here.
    + exists td, transpose, d. do 4 (split; [done|]).
      rewrite !elem_of_app. do 9 right. left. do 3 right. left. apply list_elem_of_here.
  - injection Hdt as <-.
    exists out_dir, inferred, (inl data_raw). cbn [calls lift invoke mret eff_ret].
    split; [by rewrite !last_app|]. split; [|done].
    rewrite !elem_of_app. do 5 right. left. apply list_elem_of_here.
Qed.

(** The default command line: no ground truth, so the plot is drawn
    from the data. *)
Lemma normal_return_ends_with_plot_witness :
  ending (generate_output Example.libs (Example.parsed (Example.command [])) (obj 1)
            Example.kept_matrix Example.kept_matrix Example.kept_names
            Example.prepared Example.table) = Done tt ∧
  is_set (Example.parsed (Example.command [])) "true_data" = false ∧
  ∃ out_dir inferred,
    last (calls (generate_output Example.libs (Example.parsed (Example.command []))
                   (obj 1) Example.kept_matrix Example.kept_matrix Example.kept_names
                   Example.prepared Example.table))
    = Some (save_geno_plots inferred (inl Example.kept_matrix) Example.kept_matrix
              out_dir Example.kept_names Example.prepared Example.table).
Proof.
  assert (H : ending (generate_output Example.libs (Example.parsed (Example.command []))
                        (obj 1) Example.kept_matrix Example.kept_matrix
                        Example.kept_names Example.prepared Example.table) = Done tt)
    by (vm_compute; reflexivity).
  assert (Hset : is_set (Example.parsed (Example.command [])) "true_data" = false)
    by (vm_compute; reflexivity).
  split; [exact H|]. split; [exact Hset|].
  destruct (normal_return_ends_with_plot _ _ _ _ _ _ _ _ H)
    as (out_dir & inferred & src & Hlast & _ & _ & Hsrc).
  rewrite Hset in Hsrc. rewrite Hsrc in Hlast.
  exists out_dir, inferred. exact Hlast.
Defined.

(** X23: the arguments written by [save_run] are those of the run, not
    those of the command line: [chains] and [error_update_prob] hold what
    the sampler was given (1 under [--debug], 0 with fixed error rates),
    [time] the two time stamps and [chain_seeds] the seeds of the
    chains; every other attribute is as [io.process_sim_folder] left it. *)
Theorem saved_arguments_record_the_run (l : Libs) (w : World)
    (argv : list Argparse.item) (inferred : pyobject) (args' : gmap string value)
    (out_dir : value) (names' : list string * list string) :
  save_run inferred args' out_dir names' ∈ calls (program l w argv) →
  ∃ ns r seeds,
    parse_args argv = Ret ns ∧ main w ns = Ret r ∧
    get_seeds l (mcmc r) (call r) = Ret seeds ∧
    names' = names_used r ∧
    args' !! "chains" = Some (n_chains (call r)) ∧
    args' !! "error_update_prob" = Some (error_prob (mcmc r)) ∧
    args' !! "time" = Some (VList [now w; now_after l]) ∧
    args' !! "chain_seeds" = Some seeds ∧
    ∀ k, k ∉ attributes_assigned → k ≠ "chain_seeds" →
         args' !! k = process_sim_folder w ns !! k.
Proof.
  unfold program. intros H.
  calls_inv H as r Hr. unfold run_BnpC in Hr. bind_inv Hr as ns Hns.
  unfold after_run in H.
  calls_inv H as u Hrun. calls_inv H as seeds Hseeds. calls_inv H as results Hres.
  calls_inv H as time Htime. calls_inv H as args2 Hargs.
  destruct (args_at_run_lookup _ _ _ Hr) as (Hkeep & Ht & Heup & Hchains).
  rewrite lookup_insert_ne in Htime by done.
  assert (time = VList [now w]) as -> by congruence.
  injection Hargs as <-.
  apply generate_output_calls in H as (out_dir' & inferred' & _ & _ & Hc).
  assert (Heq : save_run inferred args' out_dir names'
                = save_run inferred'
                    (<["time" := VList ([now w] ++ [now_after l])]>
                       (<["chain_seeds" := seeds]> (args_at_run r)))
                    out_dir' (names_used r)).
  { destruct Hc as [[_ Hc] | [Hc | [[_ Hc] | [[_ Hc] | (_ & _ & Hc)]]]];
      [| done | | | done].
    - repeat (apply elem_of_cons in Hc as [Hc | Hc]; [discriminate Hc|]).
      by apply elem_of_nil in Hc.
    - destruct Hc as (path & true_assign & _ & _ & Hc).
      repeat (apply elem_of_cons in Hc as [Hc | Hc]; [discriminate Hc|]).
      by apply elem_of_nil in Hc.
    - by destruct Hc as (path & transpose & d & _ & _ & _ & [Hc | [_ Hc]]). }
  injection Heq as -> -> -> ->.
  exists ns, r, seeds. do 4 (split; [done|]).
  split; [by rewrite !lookup_insert_ne|].
  split; [by rewrite !lookup_insert_ne|].
  split; [by rewrite lookup_insert_eq|].
  split; [by rewrite lookup_insert_ne, lookup_insert_eq|].
  intros k Hk Hk'.
  assert (k ≠ "time").
  { intros ->. apply Hk. unfold attributes_assigned.
    apply list_elem_of_further, list_elem_of_here. }
  rewrite !lookup_insert_ne by done. by apply Hkeep.
Qed.

(** [--debug -n 4]: what is saved says one chain. *)
Lemma saved_arguments_record_the_run_witness :
  Example.parsed Example.debugging !! "chains" = Some (VInt 4) ∧
  ∃ inferred args' out_dir names',
    calls (program Example.libs Example.world Example.debugging) !! 4%nat
      = Some (save_run inferred args' out_dir names') ∧
    args' !! "chains" = Some (VInt 1) ∧
    args' !! "chain_seeds" = Some (VList [VInt 7]).
Proof.
  split; [vm_compute; reflexivity|].
  assert (Hk : kind <$> calls (program Example.libs Example.world Example.debugging)
                          !! 4%nat = Some run_saved) by (vm_compute; reflexivity).
  destruct (calls (program Example.libs Example.world Example.debugging) !! 4%nat)
    as [c|] eqn:H; [|discriminate Hk].
  destruct c as [| | | |inferred args' out_dir names'| | | |];
    try (cbn in Hk; discriminate Hk).
  exists inferred, args', out_dir, names'. split; [reflexivity|].
  destruct (saved_arguments_record_the_run _ _ _ _ _ _ _ (list_elem_of_lookup_2 _ _ _ H))
    as (ns & r & seeds & Hns & Hr & Hseeds & _ & Hchains & _ & _ & Hcs & _).
  assert (Hns' : parse_args Example.debugging = Ret (Example.parsed Example.debugging))
    by (apply parsed_eq; vm_compute; reflexivity).
  assert (ns = Example.parsed Example.debugging) as -> by congruence.
  assert (Hr' : main Example.world (Example.parsed Example.debugging)
                = Ret (Example.ran Example.world Example.debugging))
    by (apply ran_eq; vm_compute; reflexivity).
  assert (r = Example.ran Example.world Example.debugging) as -> by congruence.
  split.
  - rewrite Hchains. apply (f_equal Some). vm_compute; reflexivity.
  - rewrite Hcs. apply (f_equal Some). change (Ret (VList [VInt 7]) = Ret seeds) in Hseeds.
    by injection Hseeds as <-.
Defined.

(* ===================================================================== *)
(** * From the command line to what is written *)
(* ===================================================================== *)

Lemma no_plots_flag_found (f : string) :
  f ∈ no_plots_flags →
  ∃ a, Argparse.find_flag Argparse.parser f = Some a ∧
       Argparse.act a = Argparse.store_true.
Proof.
  unfold no_plots_flags. intros Hf.
  each_flag Hf; (eexists; split; reflexivity).
Qed.

Lemma no_plots_given (argv : list Argparse.item) (ns : gmap string value) :
  parse_args argv = Ret ns → mentions no_plots_flags argv = true →
  ns !! "no_plots" = Some (VBool true).
Proof.
  intros H Hm. apply (parsed_attribute "no_plots" no_plots_flags) in H; [|by vm_compute].
  rewrite Hm in H. destruct H as (a & f & args & v & _ & Hf & Hfind & Hset & ->).
  destruct (no_plots_flag_found f Hf) as (a' & Hfind' & Hact).
  assert (a' = a) as -> by congruence.
  unfold set_by in Hset. rewrite Hact in Hset. by rewrite Hset.
Qed.

(** [generate_output] returns only if [args.no_plots] is false. *)
Lemma generate_output_Done (l : Libs) (args : gmap string value) (results : pyobject)
    (data_raw data_frac : ndarray) (names : list string * list string)
    (ctypes scDNA : DataFrame) (u : unit) :
  ending (generate_output l args results data_raw data_frac names ctypes scDNA) = Done u →
  is_clear args "no_plots" = true.
Proof.
  unfold generate_output. intros H.
  done_inv H as out_dir Hout C1. done_inv H as inferred Hinf C2.
  done_inv H as verbosity Hv C3. done_inv H as verbose Hverbose C4.
  done_inv H as u1 Hshow C5. done_inv H as u2 Hsave C6.
  done_inv H as tc Htc C7. done_inv H as u3 Hscore C8.
  done_inv H as td Htd C9. done_inv H as data_true Hdt C10.
  done_inv H as np Hnp C11.
  unfold is_clear. rewrite Hnp. by destruct (truthy np).
Qed.

(** The namespace [generate_output] is given at the end of [main]. *)
Lemma after_run_args (l : Libs) (r : Run) (seeds : value) (t : list value)
    (k : string) :
  k ≠ "time" → k ≠ "chain_seeds" →
  (<["time" := VList (t ++ [now_after l])]>
     (<["chain_seeds" := seeds]> (args_at_run r))) !! k = args_at_run r !! k.
Proof. intros Hk1 Hk2. by rewrite !lookup_insert_ne. Qed.

(** X24: with [-np] or [--no_plots] on an accepted command line, and
    [io.process_sim_folder] leaving [args.no_plots] alone, the program
    never calls [save_geno_plots], and it does not run to its end: when
    everything else succeeds it is ended by [exit()]. *)
Theorem no_plots_flag_suppresses_plots (l : Libs) (w : World)
    (argv : list Argparse.item) (ns : gmap string value) :
  parse_args argv = Ret ns →
  mentions no_plots_flags argv = true →
  process_sim_folder w ns !! "no_plots" = ns !! "no_plots" →
  (∀ c, c ∈ calls (program l w argv) → kind c ≠ plotted) ∧
  (∀ u, ending (program l w argv) ≠ Done u).
Proof.
  intros Hns Hm Hsim.
  assert (Hnp : ∀ r seeds t, main w ns = Ret r →
            is_clear (<["time" := VList (t ++ [now_after l])]>
                        (<["chain_seeds" := seeds]> (args_at_run r))) "no_plots"
            = false).
  { intros r seeds t Hr. unfold is_clear.
    rewrite after_run_args by done.
    destruct (args_at_run_lookup _ _ _ Hr) as (Hkeep & _).
    rewrite Hkeep, Hsim, (no_plots_given _ _ Hns Hm); [done|].
    unfold attributes_assigned. intros Hin.
    repeat (apply elem_of_cons in Hin as [Hin | Hin]; [discriminate Hin|]).
    by apply elem_of_nil in Hin. }
  unfold program, run_BnpC. rewrite Hns. split.
  - intros c H. calls_inv H as r Hr. cbn in Hr. unfold after_run in H.
    calls_inv H as u Hrun. calls_inv H as seeds Hseeds. calls_inv H as results Hres.
    calls_inv H as time Htime. calls_inv H as args2 Hargs.
    destruct time as [| | | | |t|]; try discriminate Hargs. injection Hargs as <-.
    apply generate_output_calls in H as (out_dir & inferred & _ & _ & Hc).
    specialize (Hnp r seeds t Hr).
    destruct Hc as [[_ Hc] | [-> | [[_ Hc] | [[_ Hc] | (_ & Hclear & _)]]]];
      [by each_flag Hc | done | | | congruence].
    + destruct Hc as (path & true_assign & _ & _ & Hc). by each_flag Hc.
    + destruct Hc as (path & transpose & d & _ & _ & _ & [-> | [Hclear _]]);
        [done | congruence].
  - intros u H. done_inv H as r Hr C0. cbn in Hr. unfold after_run in H.
    done_inv H as u1 Hrun C1. done_inv H as seeds Hseeds C2.
    done_inv H as results Hres C3. done_inv H as time Htime C4.
    done_inv H as args2 Hargs C5.
    destruct time as [| | | | |t|]; try discriminate Hargs. injection Hargs as <-.
    apply generate_output_Done in H. rewrite (Hnp r seeds t Hr) in H. discriminate H.
Qed.

(** [-np] with functions of [libs] that all return: the run is saved,
    nothing is plotted, and the program ends at [exit()]. *)
Lemma no_plots_flag_suppresses_plots_witness :
  parse_args (Example.command [Argparse.Opt "-np" []])
    = Ret (Example.parsed (Example.command [Argparse.Opt "-np" []])) ∧
  ending (program Example.libs Example.world (Example.command [Argparse.Opt "-np" []]))
    = Failed (SystemExit 0) ∧
  map kind (calls (program Example.libs Example.world
                     (Example.command [Argparse.Opt "-np" []])))
    = [shown; shown; shown; shown; run_saved] ∧
  (∀ c, c ∈ calls (program Example.libs Example.world
                     (Example.command [Argparse.Opt "-np" []])) →
        kind c ≠ plotted) ∧
  (∀ u, ending (program Example.libs Example.world
                  (Example.command [Argparse.Opt "-np" []])) ≠ Done u).
Proof.
  assert (H : parse_args (Example.command [Argparse.Opt "-np" []])
              = Ret (Example.parsed (Example.command [Argparse.Opt "-np" []])))
    by (apply parsed_eq; vm_compute; reflexivity).
  split; [exact H|]. split; [vm_compute; reflexivity|].
  split; [vm_compute; reflexivity|].
  apply (no_plots_flag_suppresses_plots Example.libs Example.world _ _ H);
    [vm_compute; reflexivity | reflexivity].
Defined.

(* ===================================================================== *)
(** * A table without the [Corrected] column (C6) *)
(* ===================================================================== *)

(** The columns of the table [prepare_ctypes] returns are those of its
    argument, the column of the old labels and [CellTypes]. *)
Lemma prepared_column (df df' : DataFrame) (name : string) :
  prepare_ctypes df = Ret df' →
  name ≠ "index" → name ≠ "level_0" → name ≠ "CellTypes" →
  has_column df' name = true → has_column df name = true.
Proof.
  intros H Hi Hl Ht. rewrite !has_column_position.
  destruct (prepare_ctypes_Ret _ _ H)
    as (jb & jc & jcol & label & Hjb & Hjc & Hjcol & Hlabel & ->).
  cbn zeta. rewrite setitem_frame.
  assert (Hlabel' : label ≠ name) by (by destruct Hlabel as [-> | ->]).
  assert (Hcols : is_Some (position name
            (<[jc := ("celltype_final", category ctypes_categ)]> (columns df))) →
          is_Some (position name (columns df)))
    by (by rewrite (position_insert _ _ _ _ _ Hjc)).
  destruct (position "CellTypes" _) as [jt|] eqn:Hjt; cbn [columns];
    rewrite (position_cons_ne _ _ _ _ Hlabel').
  - rewrite (position_insert _ _ _ _ _ Hjt).
    destruct (position name _) as [k|] eqn:Hk; [|by intros [? ?]].
    intros _. apply Hcols. by eexists.
  - destruct (position name (_ ++ _)) as [k|] eqn:Hk; [|by intros [? ?]].
    intros _. apply Hcols.
    eapply (position_app_inv name "CellTypes"); [done|]. rewrite Hk. by eexists.
Qed.

(** A column the table read from [--ctypes] lacks is lacking when the
    concentration prior is chosen. *)
Lemma missing_column_stays (raw table table' : DataFrame) (cells : list string) :
  has_column raw "Corrected" = false →
  prepare_ctypes raw = Ret table →
  keep_loaded_cells table cells = Ret table' →
  has_column table' "Corrected" = false.
Proof.
  intros Hraw Hprep Hkeep.
  apply keep_loaded_cells_Ret in Hkeep as (j & _ & ->).
  destruct (has_column (mkFrame _ _) "Corrected") eqn:Hcol; [|done].
  assert (Hcol' : has_column table "Corrected" = true) by exact Hcol.
  apply (prepared_column _ _ _ Hprep) in Hcol'; [congruence | done ..].
Qed.

Lemma bind_ext {A B} (m : result A) (f g : A → result B) :
  (∀ a, m = Ret a → f a = g a) → m ≫= f = m ≫= g.
Proof. intros H. destruct m as [a|e]; [by apply H | done]. Qed.

(** [main] is [main_with] at the block of lines 276-286. *)
Lemma main_with_block (w : World) (args : gmap string value) :
  main w args = main_with concentration_prior w args.
Proof. reflexivity. Qed.

(** With a default request and no [Corrected] column, [main] is [main]
    with line 281 in the place of lines 276-286. *)
Lemma main_data_only (w : World) (args : gmap string value) (c DPa : value)
    (raw : DataFrame) :
  args !! "ctypes" = Some c → read_csv w c None = Ret raw →
  has_column raw "Corrected" = false →
  process_sim_folder w args !! "DPa_prior" = Some DPa →
  default_requested DPa = true →
  main w args = main_with (λ _ _ data, Ret (data_only_prior data)) w args.
Proof.
  intros Hc Hraw Hcol HDPa Hreq. unfold main, main_with.
  apply bind_ext. intros c' Hc'. apply getattr_Ret in Hc'.
  assert (c' = c) as -> by congruence.
  apply bind_ext. intros raw' Hraw'. assert (raw' = raw) as -> by congruence.
  apply bind_ext. intros table Hprep.
  apply bind_ext. intros sc _. apply bind_ext. intros scDNA_df _.
  cbn zeta.
  apply bind_ext. intros input _. apply bind_ext. intros transpose _.
  apply bind_ext. intros [[data0 frac0] names0] _.
  apply bind_ext. intros table' Hkeep.
  apply bind_ext. intros [[data frac] names] _.
  apply bind_ext. intros DPa' HDPa'. apply getattr_Ret in HDPa'.
  assert (DPa' = DPa) as -> by congruence.
  rewrite (concentration_prior_default _ _ _ Hreq).
  by rewrite (missing_column_stays _ _ _ _ Hcol Hprep Hkeep).
Qed.

(** C6: when the default prior is to be derived (a component of
    [--DPa_prior] is negative) and the cell-type table read from
    [--ctypes] has no [Corrected] column, the run goes on with the
    data-only default (sqrt(#cells), 1): [main] is then [main] with the
    assignment of line 281 in the place of lines 276-286, so it ends in an
    exception only where that run does; and in any run that returns, the
    look-up of line 279 raised [KeyError] and the model was built with
    (sqrt(#cells), 1). *)
Theorem C6_missing_column_falls_back (w : World) (args : gmap string value)
    (c DPa : value) (raw : DataFrame) :
  args !! "ctypes" = Some c → read_csv w c None = Ret raw →
  has_column raw "Corrected" = false →
  process_sim_folder w args !! "DPa_prior" = Some DPa →
  default_requested DPa = true →
  main w args = main_with (λ _ _ data, Ret (data_only_prior data)) w args ∧
  ∀ r, main w args = Ret r →
       cancer_cells (ctypes_used r) = Raise (KeyError "Corrected") ∧
       prior_of (model (mcmc r)) = data_only_prior (data_used r).
Proof.
  intros Hc Hraw Hcol HDPa Hreq.
  split; [by eapply main_data_only|]. intros r Hmain.
  destruct (main_tables _ _ _ Hmain)
    as (c' & raw' & table & sc & Hc' & Hraw' & Hprep & Hkeep & _).
  assert (c' = c) as -> by congruence. assert (raw' = raw) as -> by congruence.
  pose proof (missing_column_stays _ _ _ _ Hcol Hprep Hkeep) as Hcol'.
  apply main_inv in Hmain
    as (table0 & input & tr & d0 & f0 & n0 & DPa' & DP & args' & d & H).
  destruct H as (_ & _ & _ & HDPa' & Hprior & Hmodel & _).
  assert (DPa' = DPa) as -> by congruence.
  rewrite cancer_cells_spec, Hcol'. split; [done|].
  rewrite (build_model_prior _ _ _ _ _ Hmodel).
  rewrite (concentration_prior_default _ _ _ Hreq), Hcol' in Hprior.
  by injection Hprior as <-.
Qed.

(** The default run on the table without the [Corrected] column returns,
    with the prior (sqrt(3), 1) for its three cells. *)
Lemma C6_witness :
  has_column Example.plain_table "Corrected" = false ∧
  Example.parsed (Example.command []) !! "DPa_prior"
    = Some (VList [VInt (-1); VInt (-1)]) ∧
  main Example.plain_world (Example.parsed (Example.command []))
    = Ret (Example.ran Example.plain_world (Example.command [])) ∧
  cancer_cells (ctypes_used (Example.ran Example.plain_world (Example.command [])))
    = Raise (KeyError "Corrected") ∧
  prior_of (model (mcmc (Example.ran Example.plain_world (Example.command []))))
    = VTuple [VFloat (Numpy.sqrt 3); VInt 1].
Proof.
  assert (Hmain : main Example.plain_world (Example.parsed (Example.command []))
                  = Ret (Example.ran Example.plain_world (Example.command [])))
    by (apply ran_eq; vm_compute; reflexivity).
  split; [reflexivity|]. split; [vm_compute; reflexivity|]. split; [exact Hmain|].
  destruct (C6_missing_column_falls_back Example.plain_world
              (Example.parsed (Example.command []))
              (VStr "ctypes.tsv") (VList [VInt (-1); VInt (-1)]) Example.plain_table)
    as [_ Hrun];
    [vm_compute; reflexivity | reflexivity | reflexivity | vm_compute; reflexivity
     | reflexivity |].
  destruct (Hrun _ Hmain) as [Hkey Hprior].
  split; [exact Hkey|]. rewrite Hprior. vm_compute; reflexivity.
Defined.
